(** * IL-2 mission debrief reconstruction: a shallow embedding

    This development embeds [il2_mission_debrief.py] (classes [GameObject],
    [MissionStats] and [MissionDebriefParser]) and proves properties of
    object classification, kill attribution, the flight-outcome state
    machine, the landing-damage pass and the assembled timeline.

    Conventions of the embedding:
    - Python [str] is [string]; the model covers ASCII text.
    - Python [int] is [Z].  The limit of 4300 digits that [int(str)] puts
      on its argument is not part of [_i]; the statements that depend on it
      bound the digits.
    - Python [float] is IEEE 754 binary64: the type [spec_float] of the
      Standard Library at precision 53 and maximal exponent 1024 (module
      [B64]), with its rounding to nearest, ties to even, its infinities
      and its NaN.  Damage fractions, their sums and shares, percentages
      and the altitude before [int(...)] are such floats.  [sum] adds from
      the left, as CPython does up to version 3.11.
    - [mission_time_to_hhmmss] divides the tick by [50.0] in binary64; below
      2^53 ticks the text it writes depends on the integer quotient only,
      which is how it is defined here, and the statements on the value read
      back from such a text carry that bound.
    - The mean of two altitudes in the landing-damage pass is the exact
      rational [Q].
    - A Python [dict] keyed by object id is a [gmap Z _]; a [dict] that is
      iterated ([destroyed], [damage_by_time], the YAML categories) is an
      association list in insertion order, which is the order Python
      iterates in.
    - A raised exception is the [Raise] constructor of [result]. *)

From Stdlib Require Import ZArith QArith String Ascii List Lia Bool.
From Stdlib Require Import DecimalString DecimalZ Sorted Permutation.
From Stdlib Require Import SpecFloat.
From stdpp Require Import gmap strings list.

Open Scope string_scope.
Open Scope Z_scope.

(** ** Exceptions *)

Inductive exn : Type :=
| ValueError
| OverflowError
| AttributeError
| KeyError.

Inductive result (A : Type) : Type :=
| Ok (a : A)
| Raise (e : exn).
Arguments Ok {A} a.
Arguments Raise {A} e.

Definition bind {A B : Type} (r : result A) (k : A -> result B) : result B :=
  match r with
  | Ok a => k a
  | Raise e => Raise e
  end.

Notation "'try!' x ':=' r 'in' k" := (bind r (fun x => k))
  (at level 10, x name, r at level 100, k at level 200).

(** ** Binary64 *)

Module B64.

Definition prec : Z := 53.
Definition emax : Z := 1024.

Definition t : Type := spec_float.

Definition zero : t := S754_zero false.
Definition infinity : t := S754_infinity false.
Definition nan : t := S754_nan.

(** [x + y], [x * y], [x / y], [x < y] and [x <= y] on floats *)
Definition add : t -> t -> t := SFadd prec emax.
Definition mul : t -> t -> t := SFmul prec emax.
Definition div : t -> t -> t := SFdiv prec emax.
Definition ltb : t -> t -> bool := SFltb.
Definition leb : t -> t -> bool := SFleb.

(** The float nearest to [n / d], ties to even: the quotient is developed
    to the bits the format holds, the remainder says on which side of the
    midpoint the exact value lies, and [binary_round_aux] rounds. *)
Definition of_ratio (n d : positive) : t :=
  let '(m, e, l) := SFdiv_core_binary prec emax (Zpos n) 0 (Zpos d) 0 in
  binary_round_aux prec emax false m e l.

(** The float nearest to a rational: what [float] makes of a decimal
    numeral and what a literal such as [0.8] denotes *)
Definition of_Q (q : Q) : t :=
  let r := Qred q in
  match Qnum r with
  | Z0 => zero
  | Zpos n => of_ratio n (Qden r)
  | Zneg n => SFopp (of_ratio n (Qden r))
  end.

(** The sign bit *)
Definition sign (x : t) : bool :=
  match x with
  | S754_zero s | S754_infinity s | S754_finite s _ _ => s
  | S754_nan => false
  end.

(** The absolute value of a finite float as a rational *)
Definition magnitude (x : t) : option Q :=
  match x with
  | S754_zero _ => Some 0%Q
  | S754_finite _ m (Zneg k) => Some (Qmake (Zpos m) (Pos.pow 2 k))
  | S754_finite _ m e => Some (inject_Z (Zpos m * 2 ^ e))
  | _ => None
  end.

(** A float that is not NaN and whose sign bit is clear: [+0.0], a positive
    finite float or [+inf] *)
Definition nonneg (x : t) : Prop :=
  match x with
  | S754_nan => False
  | _ => sign x = false
  end.

End B64.

(** ** Python string primitives *)

Module Py.

Definition is_upper (c : ascii) : bool :=
  let n := nat_of_ascii c in (65 <=? n)%nat && (n <=? 90)%nat.

Definition lower_ascii (c : ascii) : ascii :=
  if is_upper c then ascii_of_nat (nat_of_ascii c + 32) else c.

(** [s.lower()] *)
Fixpoint lower (s : string) : string :=
  match s with
  | EmptyString => EmptyString
  | String c r => String (lower_ascii c) (lower r)
  end.

(** [c.isspace()] on the ASCII range, which is also what [\s] matches
    there: TAB LF VT FF CR, FS GS RS US and the blank. *)
Definition is_space (c : ascii) : bool :=
  let n := nat_of_ascii c in
  ((9 <=? n)%nat && (n <=? 13)%nat) || ((28 <=? n)%nat && (n <=? 32)%nat).

Definition is_digit (c : ascii) : bool :=
  let n := nat_of_ascii c in (48 <=? n)%nat && (n <=? 57)%nat.

Fixpoint lstrip (s : string) : string :=
  match s with
  | EmptyString => EmptyString
  | String c r => if is_space c then lstrip r else s
  end.

Fixpoint rstrip (s : string) : string :=
  match s with
  | EmptyString => EmptyString
  | String c r =>
      let r' := rstrip r in
      if is_space c && String.eqb r' "" then "" else String c r'
  end.

(** [s.strip()] *)
Definition strip (s : string) : string := rstrip (lstrip s).

(** [s.startswith(p)] *)
Definition startswith (p s : string) : bool := String.prefix p s.

(** [x in s] for strings *)
Fixpoint contains (x s : string) : bool :=
  String.prefix x s ||
  match s with
  | EmptyString => false
  | String _ r => contains x r
  end.

Fixpoint drop (n : nat) (s : string) : string :=
  match n, s with
  | O, _ => s
  | S _, EmptyString => EmptyString
  | S k, String _ r => drop k r
  end.

(** [s.split(c)[0]]: the text before the first [c] (all of [s] without one) *)
Fixpoint split_first (c : ascii) (s : string) : string :=
  match s with
  | EmptyString => EmptyString
  | String d r => if Ascii.eqb d c then EmptyString else String d (split_first c r)
  end.

(** [s.split(c)]; never the empty list *)
Fixpoint split (c : ascii) (s : string) : list string :=
  match s with
  | EmptyString => [EmptyString]
  | String d r =>
      if Ascii.eqb d c then EmptyString :: split c r
      else match split c r with
           | h :: t => String d h :: t
           | [] => [String d EmptyString]
           end
  end.

(** [sep.join(l)] *)
Fixpoint join (sep : string) (l : list string) : string :=
  match l with
  | [] => ""
  | [x] => x
  | x :: r => x ++ sep ++ join sep r
  end.

(** [s.replace(old, new, 1)] *)
Fixpoint replace_first (old new s : string) : string :=
  if String.prefix old s then new ++ drop (String.length old) s
  else match s with
       | EmptyString => EmptyString
       | String c r => String c (replace_first old new r)
       end.

(** The longest prefix whose characters satisfy [p], and what follows. *)
Fixpoint span (p : ascii -> bool) (s : string) : string * string :=
  match s with
  | EmptyString => (EmptyString, EmptyString)
  | String c r =>
      if p c then let '(a, b) := span p r in (String c a, b)
      else (EmptyString, s)
  end.

Definition digit_val (c : ascii) : Z := Z.of_nat (nat_of_ascii c) - 48.

Fixpoint int_of_digits_from (acc : Z) (s : string) : Z :=
  match s with
  | EmptyString => acc
  | String c r => int_of_digits_from (10 * acc + digit_val c) r
  end.

(** [int(s)] for a run of decimal digits *)
Definition int_of_digits (s : string) : Z := int_of_digits_from 0 s.

(** [str(z)] *)
Definition str_of_Z (z : Z) : string := NilEmpty.string_of_int (Z.to_int z).

(** [f"{z:02}"]: zero-padded to width two, the sign counting as a column *)
Definition pad2 (z : Z) : string :=
  if (0 <=? z) && (z <? 10) then "0" ++ str_of_Z z else str_of_Z z.

(** [int(s)] for text: surrounding blanks and one sign are accepted;
    [None] stands for [ValueError].  (Digit-group underscores are not
    modelled; the formatter never produces them.) *)
Definition int_of_string (s : string) : option Z :=
  let body := strip s in
  let '(neg, ds) :=
    match body with
    | String "-" r => (true, r)
    | String "+" r => (false, r)
    | _ => (false, body)
    end in
  match span is_digit ds with
  | (String c d, EmptyString) =>
      let v := int_of_digits (String c d) in Some (if neg then - v else v)
  | _ => None
  end.

Definition count_dots (s : string) : nat :=
  List.length (List.filter (Ascii.eqb ".") (list_ascii_of_string s)).

Definition pow10 (n : nat) : positive := Pos.pow 10 (Pos.of_nat n).

(** The value of a decimal numeral, a run of digits and dots: one dot at
    most and one digit at least, otherwise [None] *)
Definition numeral_value (s : string) : option Q :=
  let ip := split_first "." s in
  let fp := drop (S (String.length ip)) s in
  if (count_dots s <=? 1)%nat &&
     String.eqb (fst (span (fun c => is_digit c || Ascii.eqb c ".") s)) s &&
     negb (String.eqb (ip ++ fp) "")
  then Some (match String.length fp with
             | O => inject_Z (int_of_digits ip)
             | S k => Qmake (int_of_digits (ip ++ fp)) (pow10 (S k))
             end)
  else None.

(** [float(s)] for text: surrounding blanks are accepted; the words [inf],
    [infinity] and [nan] are read in any case and with a sign; a decimal
    numeral gives the float nearest to its value; [None] stands for
    [ValueError].  (Signed numerals, exponents and digit-group underscores
    are not modelled; no text reaching this function in the program can
    carry them.) *)
Definition float_of_string (s : string) : option B64.t :=
  let body := strip s in
  let word := lower body in
  match numeral_value body with
  | Some q => Some (B64.of_Q q)
  | None =>
      if existsb (String.eqb word) ["inf"; "infinity"; "+inf"; "+infinity"]
      then Some B64.infinity
      else if existsb (String.eqb word) ["-inf"; "-infinity"]
      then Some (S754_infinity true)
      else if existsb (String.eqb word) ["nan"; "+nan"; "-nan"]
      then Some B64.nan
      else None
  end.

(** [int(x)] for a float: truncation towards zero; [OverflowError] for an
    infinity and [ValueError] for NaN *)
Definition int_of_float (x : B64.t) : result Z :=
  match x with
  | S754_nan => Raise ValueError
  | S754_infinity _ => Raise OverflowError
  | S754_zero _ => Ok 0
  | S754_finite s m e =>
      let a := match e with
               | Zneg k => Zpos m / 2 ^ Zpos k
               | _ => Zpos m * 2 ^ e
               end in
      Ok (if s then - a else a)
  end.

End Py.
Import Py.

(** ** The regular expressions of the parser

    Each matcher below is anchored: it says whether the pattern matches at
    the very start of the text and returns the captured group.  [search]
    is [re.search]: it tries the anchored matcher at every position, left to
    right. *)

Module Re.

Fixpoint search {A : Type} (m : string -> option A) (t : string) : option A :=
  match m t with
  | Some g => Some g
  | None =>
      match t with
      | EmptyString => None
      | String _ r => search m r
      end
  end.

Definition nonempty_run (p : ascii -> bool) (t : string) : option (string * string) :=
  match span p t with
  | (String c d, rest) => Some (String c d, rest)
  | _ => None
  end.

(** [label(\d+)] *)
Definition uint (label t : string) : option string :=
  if String.prefix label t
  then option_map fst (nonempty_run is_digit (drop (String.length label) t))
  else None.

(** [label(-?\d+)] *)
Definition sint (label t : string) : option string :=
  if String.prefix label t
  then match drop (String.length label) t with
       | String "-" r =>
           option_map (fun g => String "-" (fst g)) (nonempty_run is_digit r)
       | r => option_map fst (nonempty_run is_digit r)
       end
  else None.

Definition is_num_char (c : ascii) : bool := is_digit c || Ascii.eqb c ".".

(** [label([\d.]+)] *)
Definition num (label t : string) : option string :=
  if String.prefix label t
  then option_map fst (nonempty_run is_num_char (drop (String.length label) t))
  else None.

(** [label([^ ]+)] *)
Definition word (label t : string) : option string :=
  if String.prefix label t
  then option_map fst
         (nonempty_run (fun c => negb (Ascii.eqb c " ")) (drop (String.length label) t))
  else None.

(** [\s+COUNTRY:] at the start of the text *)
Definition blanks_then_country (t : string) : bool :=
  match nonempty_run is_space t with
  | Some (_, rest) => String.prefix "COUNTRY:" rest
  | None => false
  end.

Definition is_newline (c : ascii) : bool :=
  Ascii.eqb c "010" || Ascii.eqb c "013".

(** The lazy group of [([^\r\n]+?)\s+COUNTRY:]: the shortest non-empty run
    without line breaks after which [\s+COUNTRY:] matches. *)
Fixpoint lazy_before_country (t : string) : option string :=
  match t with
  | EmptyString => None
  | String c r =>
      if is_newline c then None
      else if blanks_then_country r then Some (String c EmptyString)
      else option_map (String c) (lazy_before_country r)
  end.

(** [TYPE:([^\r\n]+?)\s+COUNTRY:] *)
Definition type_country (t : string) : option string :=
  if String.prefix "TYPE:" t then lazy_before_country (drop 5 t) else None.

(** [POS\(([\d.]+),([\d.]+),([\d.]+)\)]; the result is group 2 *)
Definition pos (t : string) : option string :=
  if String.prefix "POS(" t then
    match nonempty_run is_num_char (drop 4 t) with
    | Some (_, String "," r1) =>
        match nonempty_run is_num_char r1 with
        | Some (g2, String "," r2) =>
            match nonempty_run is_num_char r2 with
            | Some (_, String ")" _) => Some g2
            | _ => None
            end
        | _ => None
        end
    | _ => None
    end
  else None.

End Re.

(** [int(g)] for a group captured by [(\d+)] or [(-?\d+)] *)
Definition int_of_group (g : string) : Z :=
  match g with
  | String "-" r => - int_of_digits r
  | _ => int_of_digits g
  end.

(** [MissionDebriefParser._i], [._f] and [._s].  [int] accepts a group of
    any length here; CPython raises [ValueError] on more than 4300
    digits. *)
Definition _i (t : string) (p : string -> option string) : Z :=
  match Re.search p t with
  | Some g => int_of_group g
  | None => -1
  end.

Definition _f (t : string) (p : string -> option string) : result B64.t :=
  match Re.search p t with
  | Some g =>
      match float_of_string g with
      | Some x => Ok x
      | None => Raise ValueError
      end
  | None => Ok B64.zero
  end.

Definition _s (t : string) (p : string -> option string) : string :=
  match Re.search p t with
  | Some g => strip g
  | None => ""
  end.

(** [a or b] for strings *)
Definition str_or (a b : string) : string := if String.eqb a "" then b else a.

(** [re.search(r"POS\(...\)", ln)], kept as the text of group 2 *)
Definition pos_match (ln : string) : option string := Re.search Re.pos ln.

(** [int(float(pos_match.group(2))) if pos_match else None] *)
Definition altitude_of (pm : option string) : result (option Z) :=
  match pm with
  | None => Ok None
  | Some g =>
      match float_of_string g with
      | Some x => try! a := int_of_float x in Ok (Some a)
      | None => Raise ValueError
      end
  end.

(** ** Numbers *)

Definition Qgtb (a b : Q) : bool := negb (Qle_bool a b).

(** [sum(l)] for floats: Python adds from the left, starting from [0] *)
Definition fsum (l : list B64.t) : B64.t := fold_left B64.add l B64.zero.

(** Truth value of an [int] that may be [None] *)
Definition truthy (o : option Z) : bool :=
  match o with
  | Some z => negb (z =? 0)
  | None => false
  end.

(** [a == o] for an [int] [a] and an [int]-or-[None] [o] *)
Definition eq_opt (a : Z) (o : option Z) : bool :=
  match o with
  | Some z => a =? z
  | None => false
  end.

(** [a in (x, y)] *)
Definition in_pair (a : Z) (x y : option Z) : bool := eq_opt a x || eq_opt a y.

(** Rounding of a non-negative rational to the nearest integer, ties to
    even. *)
Definition round_half_even (q : Q) : Z :=
  let n := Qnum q in
  let d := Zpos (Qden q) in
  let fl := n / d in
  let r2 := 2 * (n mod d) in
  if r2 <? d then fl
  else if d <? r2 then fl + 1
  else if Z.even fl then fl else fl + 1.

(** [round(q, 1)] *)
Definition round1 (q : Q) : Q := Qred (Qmake (round_half_even (q * 10)) 10).

(** [round(q, 2)] *)
Definition round2 (q : Q) : Q := Qred (Qmake (round_half_even (q * 100)) 100).

(** The digits of a non-negative value with one decimal, rounded to
    nearest, ties to even *)
Definition fmt1 (q : Q) : string :=
  let n := round_half_even (q * 10) in
  str_of_Z (n / 10) ++ "." ++ str_of_Z (n mod 10).

(** [f"{x:.1f}"]: the exact value of the float is what is rounded *)
Definition format_1f (x : B64.t) : string :=
  match B64.magnitude x with
  | Some q => (if B64.sign x then "-" else "") ++ fmt1 q
  | None =>
      match x with
      | S754_nan => "nan"
      | _ => if B64.sign x then "-inf" else "inf"
      end
  end.

(** [round(x, n)] for a float: its exact value is rounded to [n] decimals
    by [r], ties to even, and the float nearest to that decimal is
    returned; an infinity and NaN are returned as they are. *)
Definition round_float (r : Q -> Q) (x : B64.t) : B64.t :=
  match B64.magnitude x with
  | Some q => let y := B64.of_Q (r q) in if B64.sign x then SFopp y else y
  | None => x
  end.

(** The literals [0.8], [0.01] and [100] *)
Definition share_needed : B64.t := B64.of_Q (8 # 10).
Definition wound_threshold : B64.t := B64.of_Q (1 # 100).
Definition hundred : B64.t := B64.of_Q 100.

(** [mission_time_to_hhmmss]: fifty ticks are a second.  The source
    computes [sec = t / 50.0] and takes [int(sec // 3600)],
    [int((sec % 3600) // 60)] and [int(sec % 60)]; all three depend on the
    floor of [sec] only.  For a tick below 2^53 the binary64 quotient has
    the floor of the exact one, [t / 50] on [Z], which is what is computed
    here; from 2^53 ticks on the source rounds the quotient, and from
    2^1024 on the division raises [OverflowError]. *)
Definition mission_time_to_hhmmss (t : Z) : string :=
  let sec := t / 50 in
  let h := sec / 3600 in
  let m := (sec mod 3600) / 60 in
  let s := sec mod 60 in
  pad2 h ++ ":" ++ pad2 m ++ ":" ++ pad2 s.

(** ** Object categories ([object_categories.yaml]) *)

(** The YAML file as [_load_config] reads it: the [categories] mapping in
    file order and the [exclude] list.  A file that cannot be read gives
    two empty collections. *)
Record Config : Type := {
  categories : list (string * list string);
  exclude : list string
}.

(** [cls._exclude_config] *)
Definition _exclude_config (cfg : Config) : list string :=
  map lower (exclude cfg).

(** The text [classify_type] matches on: lower-cased and stripped; for a
    [static_] tag with a bracket, cut at the first bracket, the prefix
    being kept. *)
Definition match_key (type_ : string) : string :=
  let s := strip (lower type_) in
  if startswith "static_" s && contains "[" s then split_first "[" s else s.

(** The [for cat, keywords in ...items()] loop of [classify_type] *)
Fixpoint first_category (s : string) (cats : list (string * list string)) : string :=
  match cats with
  | [] => "Unknown"
  | (cat, keywords) :: rest =>
      if existsb (String.eqb s) (map lower keywords) then cat
      else first_category s rest
  end.

(** [GameObject.classify_type] *)
Definition classify_type (cfg : Config) (type_ : string) : string :=
  let s := match_key type_ in
  if existsb (fun x => contains x s) (_exclude_config cfg) then "Excluded"
  else first_category s (categories cfg).

(** The classification as the specification words it: the static-object
    marker is removed together with a trailing bracketed suffix, and the
    bare type name is matched. *)
Definition spec_match_key (type_ : string) : string :=
  let s := strip (lower type_) in
  if startswith "static_" s then split_first "[" (drop 7 s) else s.

Definition spec_classify (cfg : Config) (type_ : string) : string :=
  let s := spec_match_key type_ in
  if existsb (fun x => contains x s) (_exclude_config cfg) then "Excluded"
  else first_category s (categories cfg).

(** ** GameObject *)

Module GameObject.

Record t : Type := {
  id : Z;
  name : string;
  is_static : bool;
  type : string;
  country : string;
  category : string;
  state : string;
  time_of_kill : option string;
  altitude : option Z
}.

(** [GameObject.__init__] *)
Definition init (cfg : Config) (gid : Z) (name_ type_ country_ : string) : t :=
  let static := startswith "static_" (lower type_) in
  {| id := gid;
     name := name_;
     is_static := static;
     type := if static
             then split_first "[" (replace_first "static_" "" type_)
             else type_;
     country := country_;
     category := classify_type cfg type_;
     state := "Alive";
     time_of_kill := None;
     altitude := None |}.

(** [obj.altitude = a] *)
Definition set_altitude (a : option Z) (o : t) : t :=
  {| id := id o; name := name o; is_static := is_static o; type := type o;
     country := country o; category := category o; state := state o;
     time_of_kill := time_of_kill o; altitude := a |}.

(** [obj.state, obj.time_of_kill = "Destroyed", ts] *)
Definition destroy (ts : string) (o : t) : t :=
  {| id := id o; name := name o; is_static := is_static o; type := type o;
     country := country o; category := category o; state := "Destroyed";
     time_of_kill := Some ts; altitude := altitude o |}.

End GameObject.

(** ** Hit records and timeline events *)

Module Hit.

(** One entry of [MissionStats.hits] *)
Record t : Type := {
  attacker : Z;
  target : Z;
  damage : B64.t;
  time : string
}.

End Hit.

Module Event.

(** ["time_raw"] holds ticks in the events [parse] builds and the minute key
    in the aggregated damage events of [to_json]. *)
Inductive raw : Type :=
| Ticks (z : Z)
| MinuteKey (k : string).

(** A timeline event: a Python dict with the keys below.  ["time"] and
    ["type"] are present in every event the program builds; the other keys
    are optional, and [None] stands for a key that is absent or bound to
    [None] (["altitude"] and ["time_raw"] are read through [dict.get]
    only). *)
Record t : Type := {
  time : string;
  type : string;
  target : option string;
  damage : option string;
  altitude : option Z;
  time_raw : option raw;
  category : option string;
  original_target : option string;
  hard_landing : bool
}.

(** [{"time": ts, "type": ty, "altitude": alt, "time_raw": t}] *)
Definition simple (ts ty : string) (alt : option Z) (t_ : Z) : t :=
  {| time := ts; type := ty; target := None; damage := None; altitude := alt;
     time_raw := Some (Ticks t_); category := None; original_target := None;
     hard_landing := false |}.

(** [{"time": ts, "type": "Damage Taken", "target": who, "damage": dmg,
      "altitude": alt, "time_raw": raw}] *)
Definition damage_taken (ts who dmg : string) (alt : option Z) (r : raw) : t :=
  {| time := ts; type := "Damage Taken"; target := Some who; damage := Some dmg;
     altitude := alt; time_raw := Some r; category := None;
     original_target := None; hard_landing := false |}.

(** [{"time": ts, "type": "Mission End", "time_raw": t}] *)
Definition mission_end (ts : string) (t_ : Z) : t :=
  {| time := ts; type := "Mission End"; target := None; damage := None;
     altitude := None; time_raw := Some (Ticks t_); category := None;
     original_target := None; hard_landing := false |}.

(** [{"time": ts, "type": "Kill", "target": ty, "category": cat}], with
    ["altitude"] when it is known *)
Definition kill (ts ty cat : string) (alt : option Z) : t :=
  {| time := ts; type := "Kill"; target := Some ty; damage := None;
     altitude := alt; time_raw := None; category := Some cat;
     original_target := None; hard_landing := false |}.

(** [evt_copy['type'] = 'Landing Damage'; evt_copy['original_target'] = who] *)
Definition as_landing_damage (who : string) (e : t) : t :=
  {| time := time e; type := "Landing Damage"; target := target e;
     damage := damage e; altitude := altitude e; time_raw := time_raw e;
     category := category e; original_target := Some who;
     hard_landing := hard_landing e |}.

(** [evt_copy['hard_landing'] = True] *)
Definition mark_hard (e : t) : t :=
  {| time := time e; type := type e; target := target e;
     damage := damage e; altitude := altitude e; time_raw := time_raw e;
     category := category e; original_target := original_target e;
     hard_landing := true |}.

(** [e.get('time_raw', 0)] on the events of [parse], whose raw time is in
    ticks *)
Definition ticks (e : t) : Z :=
  match time_raw e with
  | Some (Ticks z) => z
  | _ => 0
  end.

End Event.

(** ** MissionStats *)

Module MissionStats.

(** [kills] is a list of references to objects held in [objects]; it is
    modelled as the list of their keys.  [add_object] only runs in the
    registration pass, before any kill is recorded, so a key names the same
    Python object for as long as [kills] is in use, and [obj not in kills]
    is a test on keys. *)
Record t : Type := {
  player_id : option Z;
  player_name : option string;
  player_aircraft : option string;
  player_pid : option Z;
  player_plid : option Z;
  objects : gmap Z GameObject.t;
  hits : list Hit.t;
  kills : list Z;
  events : list Event.t;
  wounded : bool;
  total_damage_taken : B64.t;
  total_aircraft_damage : B64.t;
  total_pilot_damage : B64.t;
  landed : bool;
  crashed : bool;
  pilot_separation_time : option Z;
  final_state : string;
  takeoff_time : option Z;
  landing_time : option Z;
  flight_duration : option string
}.

(** [MissionStats.__init__] *)
Definition init : t :=
  {| player_id := None; player_name := None; player_aircraft := None;
     player_pid := None; player_plid := None; objects := ∅; hits := [];
     kills := []; events := []; wounded := false;
     total_damage_taken := B64.zero;
     total_aircraft_damage := B64.zero; total_pilot_damage := B64.zero;
     landed := false; crashed := false; pilot_separation_time := None;
     final_state := "Alive"; takeoff_time := None; landing_time := None;
     flight_duration := None |}.

Definition set_player (plid pid : Z) (nm ac : string) (s : t) : t :=
  {| player_id := Some (if pid =? 0 then plid else pid);
     player_name := Some nm; player_aircraft := Some ac;
     player_pid := Some pid; player_plid := Some plid;
     objects := objects s; hits := hits s; kills := kills s;
     events := events s; wounded := wounded s;
     total_damage_taken := total_damage_taken s;
     total_aircraft_damage := total_aircraft_damage s;
     total_pilot_damage := total_pilot_damage s;
     landed := landed s; crashed := crashed s;
     pilot_separation_time := pilot_separation_time s;
     final_state := final_state s; takeoff_time := takeoff_time s;
     landing_time := landing_time s; flight_duration := flight_duration s |}.

Definition set_objects (v : gmap Z GameObject.t) (s : t) : t :=
  {| player_id := player_id s; player_name := player_name s;
     player_aircraft := player_aircraft s; player_pid := player_pid s;
     player_plid := player_plid s;
     objects := v; hits := hits s; kills := kills s;
     events := events s; wounded := wounded s;
     total_damage_taken := total_damage_taken s;
     total_aircraft_damage := total_aircraft_damage s;
     total_pilot_damage := total_pilot_damage s;
     landed := landed s; crashed := crashed s;
     pilot_separation_time := pilot_separation_time s;
     final_state := final_state s; takeoff_time := takeoff_time s;
     landing_time := landing_time s; flight_duration := flight_duration s |}.

Definition set_hits (v : list Hit.t) (s : t) : t :=
  {| player_id := player_id s; player_name := player_name s;
     player_aircraft := player_aircraft s; player_pid := player_pid s;
     player_plid := player_plid s;
     objects := objects s; hits := v; kills := kills s;
     events := events s; wounded := wounded s;
     total_damage_taken := total_damage_taken s;
     total_aircraft_damage := total_aircraft_damage s;
     total_pilot_damage := total_pilot_damage s;
     landed := landed s; crashed := crashed s;
     pilot_separation_time := pilot_separation_time s;
     final_state := final_state s; takeoff_time := takeoff_time s;
     landing_time := landing_time s; flight_duration := flight_duration s |}.

Definition set_kills (v : list Z) (s : t) : t :=
  {| player_id := player_id s; player_name := player_name s;
     player_aircraft := player_aircraft s; player_pid := player_pid s;
     player_plid := player_plid s;
     objects := objects s; hits := hits s; kills := v;
     events := events s; wounded := wounded s;
     total_damage_taken := total_damage_taken s;
     total_aircraft_damage := total_aircraft_damage s;
     total_pilot_damage := total_pilot_damage s;
     landed := landed s; crashed := crashed s;
     pilot_separation_time := pilot_separation_time s;
     final_state := final_state s; takeoff_time := takeoff_time s;
     landing_time := landing_time s; flight_duration := flight_duration s |}.

Definition set_events (v : list Event.t) (s : t) : t :=
  {| player_id := player_id s; player_name := player_name s;
     player_aircraft := player_aircraft s; player_pid := player_pid s;
     player_plid := player_plid s;
     objects := objects s; hits := hits s; kills := kills s;
     events := v; wounded := wounded s;
     total_damage_taken := total_damage_taken s;
     total_aircraft_damage := total_aircraft_damage s;
     total_pilot_damage := total_pilot_damage s;
     landed := landed s; crashed := crashed s;
     pilot_separation_time := pilot_separation_time s;
     final_state := final_state s; takeoff_time := takeoff_time s;
     landing_time := landing_time s; flight_duration := flight_duration s |}.

Definition set_wounded (v : bool) (s : t) : t :=
  {| player_id := player_id s; player_name := player_name s;
     player_aircraft := player_aircraft s; player_pid := player_pid s;
     player_plid := player_plid s;
     objects := objects s; hits := hits s; kills := kills s;
     events := events s; wounded := v;
     total_damage_taken := total_damage_taken s;
     total_aircraft_damage := total_aircraft_damage s;
     total_pilot_damage := total_pilot_damage s;
     landed := landed s; crashed := crashed s;
     pilot_separation_time := pilot_separation_time s;
     final_state := final_state s; takeoff_time := takeoff_time s;
     landing_time := landing_time s; flight_duration := flight_duration s |}.

Definition set_total_aircraft_damage (v : B64.t) (s : t) : t :=
  {| player_id := player_id s; player_name := player_name s;
     player_aircraft := player_aircraft s; player_pid := player_pid s;
     player_plid := player_plid s;
     objects := objects s; hits := hits s; kills := kills s;
     events := events s; wounded := wounded s;
     total_damage_taken := total_damage_taken s;
     total_aircraft_damage := v;
     total_pilot_damage := total_pilot_damage s;
     landed := landed s; crashed := crashed s;
     pilot_separation_time := pilot_separation_time s;
     final_state := final_state s; takeoff_time := takeoff_time s;
     landing_time := landing_time s; flight_duration := flight_duration s |}.

Definition set_total_pilot_damage (v : B64.t) (s : t) : t :=
  {| player_id := player_id s; player_name := player_name s;
     player_aircraft := player_aircraft s; player_pid := player_pid s;
     player_plid := player_plid s;
     objects := objects s; hits := hits s; kills := kills s;
     events := events s; wounded := wounded s;
     total_damage_taken := total_damage_taken s;
     total_aircraft_damage := total_aircraft_damage s;
     total_pilot_damage := v;
     landed := landed s; crashed := crashed s;
     pilot_separation_time := pilot_separation_time s;
     final_state := final_state s; takeoff_time := takeoff_time s;
     landing_time := landing_time s; flight_duration := flight_duration s |}.

(** [landed], [crashed] and [final_state] are assigned together by the
    landing branch of [parse]. *)
Definition set_outcome (l c : bool) (fs : string) (s : t) : t :=
  {| player_id := player_id s; player_name := player_name s;
     player_aircraft := player_aircraft s; player_pid := player_pid s;
     player_plid := player_plid s;
     objects := objects s; hits := hits s; kills := kills s;
     events := events s; wounded := wounded s;
     total_damage_taken := total_damage_taken s;
     total_aircraft_damage := total_aircraft_damage s;
     total_pilot_damage := total_pilot_damage s;
     landed := l; crashed := c;
     pilot_separation_time := pilot_separation_time s;
     final_state := fs; takeoff_time := takeoff_time s;
     landing_time := landing_time s; flight_duration := flight_duration s |}.

Definition set_pilot_separation_time (v : option Z) (s : t) : t :=
  {| player_id := player_id s; player_name := player_name s;
     player_aircraft := player_aircraft s; player_pid := player_pid s;
     player_plid := player_plid s;
     objects := objects s; hits := hits s; kills := kills s;
     events := events s; wounded := wounded s;
     total_damage_taken := total_damage_taken s;
     total_aircraft_damage := total_aircraft_damage s;
     total_pilot_damage := total_pilot_damage s;
     landed := landed s; crashed := crashed s;
     pilot_separation_time := v;
     final_state := final_state s; takeoff_time := takeoff_time s;
     landing_time := landing_time s; flight_duration := flight_duration s |}.

Definition set_takeoff_time (v : option Z) (s : t) : t :=
  {| player_id := player_id s; player_name := player_name s;
     player_aircraft := player_aircraft s; player_pid := player_pid s;
     player_plid := player_plid s;
     objects := objects s; hits := hits s; kills := kills s;
     events := events s; wounded := wounded s;
     total_damage_taken := total_damage_taken s;
     total_aircraft_damage := total_aircraft_damage s;
     total_pilot_damage := total_pilot_damage s;
     landed := landed s; crashed := crashed s;
     pilot_separation_time := pilot_separation_time s;
     final_state := final_state s; takeoff_time := v;
     landing_time := landing_time s; flight_duration := flight_duration s |}.

Definition set_landing_time (v : option Z) (s : t) : t :=
  {| player_id := player_id s; player_name := player_name s;
     player_aircraft := player_aircraft s; player_pid := player_pid s;
     player_plid := player_plid s;
     objects := objects s; hits := hits s; kills := kills s;
     events := events s; wounded := wounded s;
     total_damage_taken := total_damage_taken s;
     total_aircraft_damage := total_aircraft_damage s;
     total_pilot_damage := total_pilot_damage s;
     landed := landed s; crashed := crashed s;
     pilot_separation_time := pilot_separation_time s;
     final_state := final_state s; takeoff_time := takeoff_time s;
     landing_time := v; flight_duration := flight_duration s |}.

Definition set_flight_duration (v : option string) (s : t) : t :=
  {| player_id := player_id s; player_name := player_name s;
     player_aircraft := player_aircraft s; player_pid := player_pid s;
     player_plid := player_plid s;
     objects := objects s; hits := hits s; kills := kills s;
     events := events s; wounded := wounded s;
     total_damage_taken := total_damage_taken s;
     total_aircraft_damage := total_aircraft_damage s;
     total_pilot_damage := total_pilot_damage s;
     landed := landed s; crashed := crashed s;
     pilot_separation_time := pilot_separation_time s;
     final_state := final_state s; takeoff_time := takeoff_time s;
     landing_time := landing_time s; flight_duration := v |}.

(** [self.final_state = fs] alone, as the bail-out check after the log
    assigns it *)
Definition set_final_state (fs : string) (s : t) : t :=
  set_outcome (landed s) (crashed s) fs s.

(** [add_object] *)
Definition add_object (obj : GameObject.t) (s : t) : t :=
  set_objects (<[GameObject.id obj := obj]> (objects s)) s.

(** [add_hit] *)
Definition add_hit (a tgt : Z) (d : B64.t) (ts : string) (s : t) : t :=
  set_hits (hits s ++ [{| Hit.attacker := a; Hit.target := tgt;
                          Hit.damage := d; Hit.time := ts |}]) s.

(** [self.events.append(e)] *)
Definition add_event (e : Event.t) (s : t) : t :=
  set_events (events s ++ [e]) s.

(** [obj.altitude = a] for the object registered under [tid], if any *)
Definition set_object_altitude (tid : Z) (a : Z) (s : t) : t :=
  match objects s !! tid with
  | Some obj => set_objects (<[tid := GameObject.set_altitude (Some a) obj]> (objects s)) s
  | None => s
  end.

(** [add_kill] *)
Definition add_kill (tid : Z) (ts : string) (s : t) : t :=
  match objects s !! tid with
  | Some obj =>
      if String.eqb (GameObject.category obj) "Excluded" then s
      else
        let s1 := set_objects (<[tid := GameObject.destroy ts obj]> (objects s)) s in
        if existsb (Z.eqb tid) (kills s1) then s1
        else set_kills (kills s1 ++ [tid]) s1
  | None => s
  end.

End MissionStats.

(** ** MissionDebriefParser.parse *)

Module MS := MissionStats.

(** An insertion-ordered dict keyed by object id: [d[k] = v] keeps the
    place of a key that is already there. *)
Fixpoint dict_set {V : Type} (k : Z) (v : V) (d : list (Z * V)) : list (Z * V) :=
  match d with
  | [] => [(k, v)]
  | (k', v') :: r => if k' =? k then (k, v) :: r else (k', v') :: dict_set k v r
  end.

(** The state of the event loop: the statistics and the local dict
    [destroyed], [{tid: (timestamp, altitude)}]. *)
Record pstate : Type := {
  stats : MS.t;
  destroyed : list (Z * (string * option Z))
}.

Fixpoint foldM {S A : Type} (f : S -> A -> result S) (s : S) (l : list A) : result S :=
  match l with
  | [] => Ok s
  | x :: r => try! s' := f s x in foldM f s' r
  end.

(** [self._s(ln, r"TYPE:([^\r\n]+?)\s+COUNTRY:") or self._s(ln, r"TYPE:([^ ]+)")] *)
Definition type_field (ln : string) : string :=
  str_or (_s ln Re.type_country) (_s ln (Re.word "TYPE:")).

(** The body of the loop [--- register objects ---] *)
Definition register_line (cfg : Config) (st : MS.t) (ln : string) : MS.t :=
  if contains "AType:10" ln then
    let st1 :=
      if contains "ISPL:1" ln then
        let plid := _i ln (Re.uint "PLID:") in
        let pid := _i ln (Re.uint "PID:") in
        MS.set_player plid pid (_s ln (Re.word "NAME:")) (type_field ln) st
      else st in
    let gid := _i ln (Re.uint "AID:") in
    MS.add_object
      (GameObject.init cfg gid (_s ln (Re.word "NAME:")) (type_field ln)
         (_s ln (Re.uint "COUNTRY:"))) st1
  else if contains "AType:12" ln then
    let gid := _i ln (Re.uint "ID:") in
    MS.add_object
      (GameObject.init cfg gid (_s ln (Re.word "NAME:")) (type_field ln)
         (_s ln (Re.uint "COUNTRY:"))) st
  else st.

(** [a in (self.stats.player_pid, self.stats.player_plid)] *)
Definition is_player (st : MS.t) (a : Z) : bool :=
  in_pair a (MS.player_pid st) (MS.player_plid st).

(** [attacker_obj.type if attacker_obj else f"Unknown (ID:{a})"] *)
Definition attacker_name (st : MS.t) (a : Z) : string :=
  match MS.objects st !! a with
  | Some o => GameObject.type o
  | None => "Unknown (ID:" ++ str_of_Z a ++ ")"
  end.

(** [base] or [base + " (Wounded)"] *)
Definition with_wounded (st : MS.t) (base : string) : string :=
  if MS.wounded st then base ++ " (Wounded)" else base.

(** Branch ["AType:2"]: a damage line *)
Definition on_damage (ln : string) (t : Z) (ts : string) (st : MS.t) : result MS.t :=
  let a := _i ln (Re.sint "AID:") in
  let tgt := _i ln (Re.sint "TID:") in
  try! dmg := _f ln (Re.num "DMG:") in
  let pm := pos_match ln in
  let st := MS.add_hit a tgt dmg ts st in
  try! st :=
    (if eq_opt tgt (MS.player_plid st) && B64.ltb B64.zero dmg then
       let st :=
         MS.set_total_aircraft_damage (B64.add (MS.total_aircraft_damage st) dmg) st in
       try! altitude := altitude_of pm in
       Ok (MS.add_event
             (Event.damage_taken ts (attacker_name st a)
                (format_1f (B64.mul dmg hundred) ++ "% aircraft") altitude
                (Event.Ticks t)) st)
     else Ok st) in
  try! st :=
    (if in_pair tgt (MS.player_pid st) (MS.player_id st) && B64.ltb B64.zero dmg then
       let st :=
         MS.set_total_pilot_damage (B64.add (MS.total_pilot_damage st) dmg) st in
       try! altitude := altitude_of pm in
       Ok (MS.add_event
             (Event.damage_taken ts (attacker_name st a)
                (format_1f (B64.mul dmg hundred) ++ "% pilot") altitude
                (Event.Ticks t)) st)
     else Ok st) in
  Ok (if B64.ltb wound_threshold (MS.total_pilot_damage st)
      then MS.set_wounded true st else st).

(** [h["attacker"] in (player_pid, player_plid)] *)
Definition by_player (st : MS.t) (h : Hit.t) : bool := is_player st (Hit.attacker h).

(** [[h for h in self.stats.hits if h["target"] == tid]] *)
Definition hits_on (st : MS.t) (tid : Z) : list Hit.t :=
  List.filter (fun h => Hit.target h =? tid) (MS.hits st).

(** [sum(h["damage"] for h in hits)] *)
Definition total_damage (hs : list Hit.t) : B64.t := fsum (map Hit.damage hs).

(** [sum(h["damage"] for h in hits if h["attacker"] in (player_pid,
    player_plid))] *)
Definition player_damage (st : MS.t) (hs : list Hit.t) : B64.t :=
  fsum (map Hit.damage (List.filter (by_player st) hs)).

(** [total > 0 and player / total >= 0.8] over a list of hits *)
Definition share_ok (st : MS.t) (hs : list Hit.t) : bool :=
  B64.ltb B64.zero (total_damage hs) &&
  B64.leb share_needed (B64.div (player_damage st hs) (total_damage hs)).

(** [if obj and altitude is not None: obj.altitude = altitude] *)
Definition store_altitude (tid : Z) (altitude : option Z) (st : MS.t) : MS.t :=
  match altitude with
  | Some a => MS.set_object_altitude tid a st
  | None => st
  end.

(** [_resolve_indirect_kill] *)
Definition _resolve_indirect_kill (tid : Z) (ts : string) (pm : option string)
    (st : MS.t) : result MS.t :=
  if share_ok st (hits_on st tid) then
    try! st1 :=
      (match MS.objects st !! tid, pm with
       | Some _, Some _ =>
           try! altitude := altitude_of pm in Ok (store_altitude tid altitude st)
       | _, _ => Ok st
       end) in
    Ok (MS.add_kill tid ts st1)
  else Ok st.

(** [obj and obj.category == "Excluded"] for [obj = objects.get(tid)] *)
Definition is_excluded (st : MS.t) (tid : Z) : bool :=
  match MS.objects st !! tid with
  | Some obj => String.eqb (GameObject.category obj) "Excluded"
  | None => false
  end.

(** Branch ["AType:3"]: a destroy line *)
Definition on_destroy (ln : string) (ts : string) (ps : pstate) : result pstate :=
  let a := _i ln (Re.sint "AID:") in
  let tgt := _i ln (Re.sint "TID:") in
  let pm := pos_match ln in
  try! altitude := altitude_of pm in
  let d := dict_set tgt (ts, altitude) (destroyed ps) in
  let st := stats ps in
  if is_excluded st tgt then Ok {| stats := st; destroyed := d |}
  else if is_player st a then
    Ok {| stats := MS.add_kill tgt ts (store_altitude tgt altitude st);
          destroyed := d |}
  else if a =? -1 then
    try! st1 := _resolve_indirect_kill tgt ts pm st in
    Ok {| stats := st1; destroyed := d |}
  else Ok {| stats := st; destroyed := d |}.

(** Branch ["AType:5"]: a takeoff line *)
Definition on_takeoff (ln : string) (t : Z) (ts : string) (st : MS.t) : result MS.t :=
  let pid := _i ln (Re.sint "PID:") in
  let pm := pos_match ln in
  if is_player st pid && negb (truthy (MS.takeoff_time st)) then
    let st := MS.set_takeoff_time (Some t) st in
    try! altitude := altitude_of pm in
    Ok (MS.add_event (Event.simple ts "Takeoff" altitude t) st)
  else Ok st.

(** Branch ["AType:18"]: the pilot leaves the aircraft *)
Definition on_separation (ln : string) (t : Z) (st : MS.t) : MS.t :=
  let botid := _i ln (Re.sint "BOTID:") in
  let parentid := _i ln (Re.sint "PARENTID:") in
  if truthy (MS.player_pid st) && truthy (MS.player_plid st) &&
     eq_opt botid (MS.player_pid st) && eq_opt parentid (MS.player_plid st)
  then MS.set_pilot_separation_time (Some t) st
  else st.

(** The outcome chosen by the landing branch: the new [landed], [crashed]
    and [final_state], and the type of the event to append. *)
Definition landing_outcome (ln : string) (t : Z) (st : MS.t) : MS.t * string :=
  let crash_line := contains "AType:7" ln in
  match MS.pilot_separation_time st with
  | Some sep =>
      if negb (sep =? 0) then
        let time_since_separation := t - sep in
        if time_since_separation >? 2000 then
          (MS.set_outcome false false (with_wounded st "Bailout") st, "Bailout")
        else if crash_line then
          (MS.set_outcome (MS.landed st) true (with_wounded st "Crashed") st, "Crash")
        else
          (MS.set_outcome true (MS.crashed st) (with_wounded st "Landed") st, "Landing")
      else if crash_line then
        (MS.set_outcome (MS.landed st) true (with_wounded st "Crashed") st, "Crash")
      else
        (MS.set_outcome true (MS.crashed st) (with_wounded st "Landed") st, "Landing")
  | None =>
      if crash_line then
        (MS.set_outcome (MS.landed st) true (with_wounded st "Crashed") st, "Crash")
      else
        (MS.set_outcome true (MS.crashed st) (with_wounded st "Landed") st, "Landing")
  end.

(** Branch ["AType:6"] or ["AType:7"]: a landing or crash line *)
Definition on_landing (ln : string) (t : Z) (ts : string) (st : MS.t) : result MS.t :=
  let pid := _i ln (Re.sint "PID:") in
  let pm := pos_match ln in
  if is_player st pid && negb (truthy (MS.landing_time st)) then
    let st := MS.set_landing_time (Some t) st in
    try! altitude := altitude_of pm in
    let '(st, event_type) := landing_outcome ln t st in
    Ok (MS.add_event (Event.simple ts event_type altitude t) st)
  else Ok st.

Definition with_stats (ps : pstate) (r : result MS.t) : result pstate :=
  try! st := r in Ok {| stats := st; destroyed := destroyed ps |}.

(** The body of the loop [--- collect events ---] *)
Definition process_line (ps : pstate) (ln : string) : result pstate :=
  let t := _i ln (Re.uint "T:") in
  let ts := mission_time_to_hhmmss t in
  if contains "AType:2" ln then with_stats ps (on_damage ln t ts (stats ps))
  else if contains "AType:3" ln then on_destroy ln ts ps
  else if contains "AType:5" ln then with_stats ps (on_takeoff ln t ts (stats ps))
  else if contains "AType:18" ln then with_stats ps (Ok (on_separation ln t (stats ps)))
  else if contains "AType:6" ln || contains "AType:7" ln
       then with_stats ps (on_landing ln t ts (stats ps))
  else Ok ps.

(** [all(k.id != tid for k in self.stats.kills)]; the [id] of a registered
    object is its key. *)
Definition not_yet_credited (st : MS.t) (tid : Z) : bool :=
  forallb (fun k => negb (k =? tid)) (MS.kills st).

(** The body of the loop [--- retroactive proportional kills ---] *)
Definition retro_step (st : MS.t) (entry : Z * (string * option Z)) : MS.t :=
  let '(tid, (kill_time, altitude)) := entry in
  let hits := hits_on st tid in
  match last hits with
  | None => st
  | Some last_hit =>
      if share_ok st hits then
        if not_yet_credited st tid then
          MS.add_kill tid (Hit.time last_hit) (store_altitude tid altitude st)
        else st
      else st
  end.

(** [--- detect bail-out ---] *)
Definition detect_bailout (lines : list string) (st : MS.t) : MS.t :=
  let parachute_found :=
    existsb (fun l => contains "AType:13" l && contains "Paratrooper" l) lines in
  if parachute_found && negb (MS.crashed st) && negb (MS.landed st)
  then MS.set_final_state (with_wounded st "Bailed Out") st
  else st.

(** [max(l)] for a non-empty list, [default] for the empty one *)
Definition max_or (default : Z) (l : list Z) : Z :=
  match l with
  | [] => default
  | x :: r => fold_left Z.max r x
  end.

(** [self._format_time]: [MissionDebriefParser] defines no attribute of
    this name (its formatter is [mission_time_to_hhmmss]), so evaluating
    [self._format_time(end_time)] raises [AttributeError]. *)
Definition _format_time (end_time : Z) : result string := Raise AttributeError.

(** [--- compute flight duration ---] *)
Definition compute_flight_duration (st : MS.t) : result MS.t :=
  match MS.takeoff_time st with
  | None => Ok st
  | Some takeoff =>
      if takeoff =? 0 then Ok st
      else
        try! r :=
          (if negb (truthy (MS.landing_time st)) &&
              negb (Nat.eqb (List.length (MS.events st)) 0)
           then
             let end_time := max_or takeoff (map Event.ticks (MS.events st)) in
             if end_time >? takeoff then
               try! last_ts := _format_time end_time in
               Ok (MS.add_event (Event.mission_end last_ts end_time) st, Some end_time)
             else Ok (st, Some end_time)
           else Ok (st, MS.landing_time st)) in
        let '(st, end_time) := r in
        match end_time with
        | Some e =>
            if e =? 0 then Ok st
            else Ok (MS.set_flight_duration (Some (mission_time_to_hhmmss (e - takeoff))) st)
        | None => Ok st
        end
  end.

(** [lines = [l.strip() for l in f if "AType" in l]] *)
Definition relevant_lines (file : list string) : list string :=
  map strip (List.filter (contains "AType") file).

Definition registered (cfg : Config) (lines : list string) : MS.t :=
  fold_left (register_line cfg) lines MS.init.

Definition collected (cfg : Config) (lines : list string) : result pstate :=
  foldM process_line {| stats := registered cfg lines; destroyed := [] |} lines.

Definition reconciled (ps : pstate) : MS.t :=
  fold_left retro_step (destroyed ps) (stats ps).

(** [MissionDebriefParser.parse] on the lines of the report file *)
Definition parse (cfg : Config) (file : list string) : result MS.t :=
  let lines := relevant_lines file in
  try! ps := collected cfg lines in
  compute_flight_duration (detect_bailout lines (reconciled ps)).

(** ** The landing-damage pass *)

(** The [parse_time] helper of [_time_diff_seconds]; [None] is an exception
    raised by [int]. *)
Definition parse_time (t : string) : option Z :=
  match split ":" t with
  | [h; m; s] =>
      match int_of_string h, int_of_string m, int_of_string s with
      | Some h, Some m, Some s => Some (h * 3600 + m * 60 + s)
      | _, _, _ => None
      end
  | [h; m] =>
      match int_of_string h, int_of_string m with
      | Some h, Some m => Some (h * 3600 + m * 60 + 0)
      | _, _ => None
      end
  | _ => Some 0
  end.

(** [_time_diff_seconds]: [time2 - time1] in seconds, [0] when either text
    makes [int] raise *)
Definition _time_diff_seconds (time1 time2 : string) : Z :=
  match parse_time time2, parse_time time1 with
  | Some b, Some a => b - a
  | _, _ => 0
  end.

(** What [_detect_landing_damage] gathers before it looks at the damage
    events. *)
Record landing_context : Type := {
  player_aircraft : option string;
  takeoff_alt : option Z;
  landing_alt : option Z;
  landing_time : option string;
  last_kill_time : option string
}.

Definition is_terminal_type (ty : string) : bool :=
  String.eqb ty "Landing" || String.eqb ty "Crash".

(** The first loop of [_detect_landing_damage]: later events overwrite
    earlier ones. *)
Definition scan_altitudes (events : list Event.t)
    : option Z * option Z * option string :=
  fold_left
    (fun '(tk, la, lt) evt =>
       let tk :=
         if String.eqb (Event.type evt) "Takeoff" then
           match Event.altitude evt with Some a => Some a | None => tk end
         else tk in
       if is_terminal_type (Event.type evt) then
         (tk,
          match Event.altitude evt with Some a => Some a | None => la end,
          Some (Event.time evt))
       else (tk, la, lt))
    events (None, None, None).

(** [for evt in reversed(events): if type == 'Kill': ...; break] *)
Definition find_last_kill_time (events : list Event.t) : option string :=
  option_map Event.time
    (List.find (fun e => String.eqb (Event.type e) "Kill") (rev events)).

Definition landing_context_of (events : list Event.t) (aircraft : option string)
    : landing_context :=
  let '(tk, la, lt) := scan_altitudes events in
  {| player_aircraft := aircraft; takeoff_alt := tk; landing_alt := la;
     landing_time := lt; last_kill_time := find_last_kill_time events |}.

(** The airfield elevation: the mean of the two altitudes, or the one that
    is known *)
Definition airfield_alt (c : landing_context) : option Q :=
  match takeoff_alt c, landing_alt c with
  | Some tk, Some la => Some (inject_Z (tk + la) / 2)%Q
  | Some tk, None => Some (inject_Z tk)
  | None, Some la => Some (inject_Z la)
  | None, None => None
  end.

(** [evt.get('target') == player_aircraft] *)
Definition same_source (e : Event.t) (c : landing_context) : bool :=
  match Event.target e, player_aircraft c with
  | Some a, Some b => String.eqb a b
  | None, None => true
  | _, _ => false
  end.

(** The decision [is_landing_dmg] for one ['Damage Taken'] event, given the
    time [lt] of the landing *)
Definition is_landing_dmg (c : landing_context) (lt : string) (evt : Event.t) : bool :=
  if same_source evt c then
    let damage_time := Event.time evt in
    let time_diff := _time_diff_seconds damage_time lt in
    if (0 <? time_diff) && (time_diff <? 60) then
      let time_since_kill :=
        match last_kill_time c with
        | None => 999999
        | Some k => _time_diff_seconds k damage_time
        end in
      if time_since_kill >? 60 then
        match airfield_alt c, Event.altitude evt with
        | Some af, Some damage_alt =>
            let relative_alt := (inject_Z damage_alt - af)%Q in
            Qgtb 150 relative_alt
        | _, _ => true
        end
      else false
    else false
  else false.

(** One turn of the main loop of [_detect_landing_damage]: the flag
    [has_hard_landing] and the event to append. *)
Definition landing_step (c : landing_context) (lt : string)
    (acc : bool * list Event.t) (evt : Event.t) : result (bool * list Event.t) :=
  let '(has_hard_landing, modified_events) := acc in
  if String.eqb (Event.type evt) "Damage Taken" then
    if is_landing_dmg c lt evt then
      match Event.target evt with
      | Some who =>
          Ok (true, (modified_events ++ [Event.as_landing_damage who evt])%list)
      | None => Raise KeyError
      end
    else Ok (has_hard_landing, (modified_events ++ [evt])%list)
  else if is_terminal_type (Event.type evt) && has_hard_landing then
    Ok (has_hard_landing, (modified_events ++ [Event.mark_hard evt])%list)
  else Ok (has_hard_landing, (modified_events ++ [evt])%list).

(** [_detect_landing_damage(events, data)]: the events returned and the
    value left in [data['summary']['final_state']] *)
Definition _detect_landing_damage (events : list Event.t)
    (aircraft : option string) (final_state : string)
    : result (list Event.t * string) :=
  let c := landing_context_of events aircraft in
  match landing_time c with
  | None => Ok (events, final_state)
  | Some lt =>
      if String.eqb lt "" then Ok (events, final_state)
      else
        try! r := foldM (landing_step c lt) (false, []) events in
        let '(has_hard_landing, modified_events) := r in
        Ok (modified_events,
            if has_hard_landing && String.eqb final_state "Landed"
            then "Landed (Hard Landing)" else final_state)
  end.


(** ** MissionDebriefParser.to_json *)

Module Json.

(** [data["player"]] *)
Record player : Type := {
  id : option Z;
  name : option string;
  aircraft : option string
}.

(** [data["summary"]] *)
Record summary : Type := {
  air_kills : nat;
  air_kills_flying : nat;
  air_kills_parked : nat;
  ground_kills : nat;
  naval_kills : nat;
  flight_duration : string;
  wounded : bool;
  total_damage_taken : B64.t;
  aircraft_damage : B64.t;
  pilot_damage : B64.t;
  landed : bool;
  crashed : bool;
  final_state : string
}.

(** The object handed to [json.dump] *)
Record data : Type := {
  the_player : player;
  the_summary : summary;
  events : list Event.t
}.

End Json.

(** The objects behind [self.stats.kills] *)
Definition kill_objects (st : MS.t) : list GameObject.t :=
  flat_map (fun k => match MS.objects st !! k with
                     | Some o => [o]
                     | None => []
                     end) (MS.kills st).

(** [valid], the filter on gunner and pilot dummies *)
Definition valid (k : GameObject.t) : bool :=
  negb (existsb (fun x => contains x (lower (GameObject.type k)))
          ["botpilot"; "botgunner"]).

(** [kills = [k for k in self.stats.kills if valid(k)]] *)
Definition credited (st : MS.t) : list GameObject.t :=
  List.filter valid (kill_objects st).

Definition has_category (cats : list string) (k : GameObject.t) : bool :=
  existsb (String.eqb (GameObject.category k)) cats.

(** The loop over [self.stats.hits] that totals airframe and pilot damage *)
Definition damage_totals (st : MS.t) : B64.t * B64.t :=
  fold_left
    (fun '(ac, pl) hit =>
       if eq_opt (Hit.target hit) (MS.player_plid st)
       then (B64.add ac (Hit.damage hit), pl)
       else if in_pair (Hit.target hit) (MS.player_pid st) (MS.player_id st)
       then (ac, B64.add pl (Hit.damage hit))
       else (ac, pl))
    (MS.hits st) (B64.zero, B64.zero).

Definition summary_of (st : MS.t) : Json.summary :=
  let kills := credited st in
  let air_kills_all := List.filter (has_category ["Air"]) kills in
  let '(ac, pl) := damage_totals st in
  {| Json.air_kills := List.length air_kills_all;
     Json.air_kills_flying :=
       List.length (List.filter (fun k => negb (GameObject.is_static k)) air_kills_all);
     Json.air_kills_parked :=
       List.length (List.filter GameObject.is_static air_kills_all);
     Json.ground_kills :=
       List.length (List.filter (has_category ["Ground"; "Building"]) kills);
     Json.naval_kills := List.length (List.filter (has_category ["Naval"]) kills);
     Json.flight_duration :=
       match MS.flight_duration st with
       | Some d => str_or d "N/A"
       | None => "N/A"
       end;
     Json.wounded := MS.wounded st;
     Json.total_damage_taken := round_float round2 (MS.total_damage_taken st);
     Json.aircraft_damage := round_float round1 (B64.mul ac hundred);
     Json.pilot_damage := round_float round1 (B64.mul pl hundred);
     Json.landed := MS.landed st;
     Json.crashed := MS.crashed st;
     Json.final_state := MS.final_state st |}.

(** The ["Kill"] events appended for the credited objects whose
    [time_of_kill] is set *)
Definition kill_events (st : MS.t) : list Event.t :=
  flat_map
    (fun k =>
       match GameObject.time_of_kill k with
       | Some ts =>
           if String.eqb ts "" then []
           else [Event.kill ts (GameObject.type k) (GameObject.category k)
                   (GameObject.altitude k)]
       | None => []
       end)
    (credited st).

(** One value of [damage_by_time] *)
Record bucket : Type := {
  b_time : string;
  b_time_raw : option Event.raw;
  b_aircraft_damage : B64.t;
  b_pilot_damage : B64.t;
  b_attacker : option string;
  b_altitude : option Z
}.

(** The key of the minute an event falls in: [HH:MM] of its time *)
Definition minute_key (full_time : string) : string :=
  if negb (String.eqb full_time "") &&
     (2 <=? List.length (split ":" full_time))%nat
  then join ":" (firstn 2 (split ":" full_time))
  else full_time.

(** [float(text.split("%")[0])] *)
Definition percent_value (text : string) : result B64.t :=
  match float_of_string (split_first "%" text) with
  | Some x => Ok x
  | None => Raise ValueError
  end.

Definition add_aircraft (x : B64.t) (b : bucket) : bucket :=
  {| b_time := b_time b; b_time_raw := b_time_raw b;
     b_aircraft_damage := B64.add (b_aircraft_damage b) x;
     b_pilot_damage := b_pilot_damage b;
     b_attacker := b_attacker b; b_altitude := b_altitude b |}.

Definition add_pilot (x : B64.t) (b : bucket) : bucket :=
  {| b_time := b_time b; b_time_raw := b_time_raw b;
     b_aircraft_damage := b_aircraft_damage b;
     b_pilot_damage := B64.add (b_pilot_damage b) x;
     b_attacker := b_attacker b; b_altitude := b_altitude b |}.

(** The accumulation of one damage text into its bucket *)
Definition accumulate (damage_str : string) (b : bucket) : result bucket :=
  if contains "aircraft" damage_str && contains "pilot" damage_str then
    foldM
      (fun b part =>
         if contains "aircraft" part then
           try! v := percent_value (strip part) in Ok (add_aircraft v b)
         else if contains "pilot" part then
           try! v := percent_value (strip part) in Ok (add_pilot v b)
         else Ok b)
      b (split "," damage_str)
  else if contains "aircraft" damage_str then
    try! v := percent_value damage_str in Ok (add_aircraft v b)
  else if contains "pilot" damage_str then
    try! v := percent_value damage_str in Ok (add_pilot v b)
  else Ok b.

Fixpoint bucket_get (k : string) (d : list (string * bucket)) : option bucket :=
  match d with
  | [] => None
  | (k', b) :: r => if String.eqb k' k then Some b else bucket_get k r
  end.

Fixpoint bucket_set (k : string) (b : bucket) (d : list (string * bucket))
    : list (string * bucket) :=
  match d with
  | [] => [(k, b)]
  | (k', b') :: r =>
      if String.eqb k' k then (k, b) :: r else (k', b') :: bucket_set k b r
  end.

(** One turn of the aggregation loop: [damage_by_time] and
    [non_damage_events] *)
Definition aggregate_step (acc : list (string * bucket) * list Event.t)
    (evt : Event.t) : result (list (string * bucket) * list Event.t) :=
  let '(damage_by_time, non_damage_events) := acc in
  if String.eqb (Event.type evt) "Damage Taken" then
    let full_time := Event.time evt in
    let time_key := minute_key full_time in
    let b :=
      match bucket_get time_key damage_by_time with
      | Some b => b
      | None =>
          {| b_time := full_time; b_time_raw := Event.time_raw evt;
             b_aircraft_damage := B64.zero; b_pilot_damage := B64.zero;
             b_attacker := Event.target evt; b_altitude := Event.altitude evt |}
      end in
    let damage_str := match Event.damage evt with Some s => s | None => "" end in
    try! b' := accumulate damage_str b in
    Ok (bucket_set time_key b' damage_by_time, non_damage_events)
  else Ok (damage_by_time, (non_damage_events ++ [evt])%list).

(** The aggregated event of one bucket, if it holds any damage *)
Definition bucket_event (entry : string * bucket) : list Event.t :=
  let '(time_key, b) := entry in
  let ac := b_aircraft_damage b in
  let pl := b_pilot_damage b in
  let mk (text : string) : Event.t :=
    {| Event.time := b_time b; Event.type := "Damage Taken";
       Event.target := b_attacker b; Event.damage := Some text;
       Event.altitude := b_altitude b;
       Event.time_raw := Some (Event.MinuteKey time_key);
       Event.category := None; Event.original_target := None;
       Event.hard_landing := false |} in
  if B64.ltb B64.zero ac && B64.ltb B64.zero pl then
    [mk (format_1f ac ++ "% aircraft, " ++ format_1f pl ++ "% pilot")]
  else if B64.ltb B64.zero ac then [mk (format_1f ac ++ "% aircraft")]
  else if B64.ltb B64.zero pl then [mk (format_1f pl ++ "% pilot")]
  else [].

(** [_time_key], the sort key of the timeline *)
Definition _time_key (evt : Event.t) : Z :=
  let t := Event.time evt in
  if String.eqb t "" then 999999
  else
    match split ":" t with
    | [h; m; s] =>
        match int_of_string h, int_of_string m, int_of_string s with
        | Some h, Some m, Some s => h * 3600 + m * 60 + s
        | _, _, _ => 999999
        end
    | [h; m] =>
        match int_of_string h, int_of_string m with
        | Some h, Some m => h * 3600 + m * 60 + 0
        | _, _ => 999999
        end
    | _ => 999999
    end.

(** [list.sort(key=...)] is stable: equal keys keep their order. *)
Fixpoint insert_by {A : Type} (key : A -> Z) (x : A) (l : list A) : list A :=
  match l with
  | [] => [x]
  | y :: r => if key x <=? key y then x :: y :: r else y :: insert_by key x r
  end.

Fixpoint sort_by {A : Type} (key : A -> Z) (l : list A) : list A :=
  match l with
  | [] => []
  | x :: r => insert_by key x (sort_by key r)
  end.

(** The part of [to_json] that assembles the timeline: the events in the
    order they are built, before the sort, and the final-state label left
    by the landing-damage pass *)
Definition timeline (st : MS.t) : result (list Event.t * string) :=
  let events := (MS.events st ++ kill_events st)%list in
  try! agg := foldM aggregate_step ([], []) events in
  let '(damage_by_time, non_damage_events) := agg in
  let non_damage_events :=
    (non_damage_events ++ flat_map bucket_event damage_by_time)%list in
  _detect_landing_damage non_damage_events (MS.player_aircraft st)
    (Json.final_state (summary_of st)).

(** [to_json] up to the object it hands to [json.dump]: opening the output
    file, writing it and the closing [print] are not part of the model. *)
Definition to_json (st : MS.t) : result Json.data :=
  let summary := summary_of st in
  try! r := timeline st in
  let '(non_damage_events, final_state) := r in
  Ok {| Json.the_player :=
          {| Json.id := MS.player_id st; Json.name := MS.player_name st;
             Json.aircraft := MS.player_aircraft st |};
        Json.the_summary :=
          {| Json.air_kills := Json.air_kills summary;
             Json.air_kills_flying := Json.air_kills_flying summary;
             Json.air_kills_parked := Json.air_kills_parked summary;
             Json.ground_kills := Json.ground_kills summary;
             Json.naval_kills := Json.naval_kills summary;
             Json.flight_duration := Json.flight_duration summary;
             Json.wounded := Json.wounded summary;
             Json.total_damage_taken := Json.total_damage_taken summary;
             Json.aircraft_damage := Json.aircraft_damage summary;
             Json.pilot_damage := Json.pilot_damage summary;
             Json.landed := Json.landed summary;
             Json.crashed := Json.crashed summary;
             Json.final_state := final_state |};
        Json.events := sort_by _time_key non_damage_events |}.

(** [p.parse()] followed by the assembly of [p.to_json(...)] *)
Definition debrief (cfg : Config) (file : list string) : result Json.data :=
  try! st := parse cfg file in to_json st.

(** * Vocabulary of the statements *)

(** No category of [cats] lists [s]. *)
Definition unlisted (s : string) (cats : list (string * list string)) : Prop :=
  forall c k, In (c, k) cats -> ~ In s (map lower k).

(** [cat] is the first category of [cats] that lists [s]. *)
Definition first_listing (s cat : string) (cats : list (string * list string)) : Prop :=
  exists pre kws post,
    cats = (pre ++ (cat, kws) :: post)%list /\ In s (map lower kws) /\ unlisted s pre.

(** Sample configurations *)
Definition cfg_air : Config :=
  {| categories := [("Air", ["il2"])]; exclude := [] |}.

Definition cfg_flak : Config :=
  {| categories := [("Air", ["il2"; "Bf109"]); ("Ground", ["flak"; "Truck"])];
     exclude := ["BotPilot"] |}.

(** The state of the event loop after its first [n] lines *)
Definition collected_upto (cfg : Config) (lines : list string) (n : nat)
    : result pstate :=
  foldM process_line {| stats := registered cfg lines; destroyed := [] |}
    (firstn n lines).

(** The statistics after the first [m] turns of the retroactive loop *)
Definition reconciled_upto (ps : pstate) (m : nat) : MS.t :=
  fold_left retro_step (firstn m (destroyed ps)) (stats ps).

(** The statistics at every point of a run of [parse]: between two turns
    of each of its loops, after the bail-out check, and at the end. *)
Inductive visited (cfg : Config) (file : list string) : MS.t -> Prop :=
| visited_registering (n : nat) :
    visited cfg file
      (fold_left (register_line cfg) (firstn n (relevant_lines file)) MS.init)
| visited_collecting (n : nat) (ps : pstate) :
    collected_upto cfg (relevant_lines file) n = Ok ps ->
    visited cfg file (stats ps)
| visited_reconciling (m : nat) (ps : pstate) :
    collected cfg (relevant_lines file) = Ok ps ->
    visited cfg file (reconciled_upto ps m)
| visited_bailout_checked (ps : pstate) :
    collected cfg (relevant_lines file) = Ok ps ->
    visited cfg file (detect_bailout (relevant_lines file) (reconciled ps))
| visited_final (st : MS.t) :
    parse cfg file = Ok st ->
    visited cfg file st.

(** The category of the object registered under [tid] *)
Definition category_of (st : MS.t) (tid : Z) : option string :=
  option_map GameObject.category (MS.objects st !! tid).

(** Every credited key is credited once and names a registered object
    whose category is not [Excluded]. *)
Definition kills_wf (st : MS.t) : Prop :=
  List.NoDup (MS.kills st) /\
  forall tid, In tid (MS.kills st) ->
              exists c, category_of st tid = Some c /\ c <> "Excluded".

(** The kill logic reads the same registry in both states: the same
    categories under the same keys and the same player ids. *)
Definition same_registry (st st' : MS.t) : Prop :=
  (forall k, category_of st' k = category_of st k) /\
  MS.player_pid st' = MS.player_pid st /\
  MS.player_plid st' = MS.player_plid st /\
  MS.player_id st' = MS.player_id st.

(** The kill logic moved from [st] to [st']: nothing, or one call of
    [add_kill] after the altitude was stored. *)
Definition credit_move (st st' : MS.t) : Prop :=
  (MS.kills st' = MS.kills st /\ MS.objects st' = MS.objects st /\
   MS.player_pid st' = MS.player_pid st /\ MS.player_plid st' = MS.player_plid st /\
   MS.player_id st' = MS.player_id st) \/
  exists tid ts alt, st' = MS.add_kill tid ts (store_altitude tid alt st).

(** A report in which the player (aircraft 100, pilot 101) shoots down
    object 500 and its crew dummy 600, both with all of the damage and a
    destroy line that names the player. *)
Definition log_direct : list string :=
  [ "T:10 AType:10 PLID:100 PID:101 NAME:Joe TYPE:Bf109 COUNTRY:201 ISPL:1";
    "T:10 AType:12 ID:500 TYPE:il2 COUNTRY:101 NAME:Ivan PID:-1";
    "T:10 AType:12 ID:600 TYPE:BotPilot_il2 COUNTRY:101 NAME:Bot PID:500";
    "T:5000 AType:2 DMG:1.000 AID:100 TID:500 POS(1.0,800.0,2.0)";
    "T:5100 AType:2 DMG:1.000 AID:100 TID:600 POS(1.0,800.0,2.0)";
    "T:6000 AType:3 AID:100 TID:500 POS(1.0,20.0,2.0)";
    "T:6000 AType:3 AID:100 TID:600 POS(1.0,20.0,2.0)" ].

(** The statistics [parse] returns, [MissionStats()] if it raises *)
Definition parsed (cfg : Config) (file : list string) : MS.t :=
  match parse cfg file with
  | Ok st => st
  | Raise _ => MS.init
  end.





(** Nothing that bears on the wounded flag differs between the states. *)
Definition same_health (st st' : MS.t) : Prop :=
  MS.hits st' = MS.hits st /\
  MS.total_pilot_damage st' = MS.total_pilot_damage st /\
  MS.wounded st' = MS.wounded st /\
  MS.player_pid st' = MS.player_pid st /\
  MS.player_id st' = MS.player_id st.




(** The state of the event loop after [n] lines, the initial state if the
    loop raised before *)
Definition collected_at (cfg : Config) (file : list string) (n : nat) : pstate :=
  match collected_upto cfg (relevant_lines file) n with
  | Ok ps => ps
  | Raise _ => {| stats := MS.init; destroyed := [] |}
  end.

(** The time at which the object registered under [tid] was destroyed *)
Definition kill_time_of (st : MS.t) (tid : Z) : option string :=
  match MS.objects st !! tid with
  | Some o => GameObject.time_of_kill o
  | None => None
  end.

(** A spawn line of the controlled entity: it carries the player flag. *)
Definition is_player_spawn (ln : string) : bool :=
  contains "AType:10" ln && contains "ISPL:1" ln.

(** A line that the event loop handles as a destroy line *)
Definition is_destroy_line (ln : string) : bool :=
  negb (contains "AType:2" ln) && contains "AType:3" ln.

(** A report whose player spawn line has no [PID] field; object 500 is
    never hit and is destroyed by nobody in particular. *)
Definition log_no_pid : list string :=
  [ "T:10 AType:10 PLID:100 NAME:Joe TYPE:Bf109 COUNTRY:201 ISPL:1";
    "T:10 AType:12 ID:500 TYPE:il2 COUNTRY:101 NAME:Ivan";
    "T:6000 AType:3 AID:-1 TID:500 POS(1.0,20.0,2.0)" ].

(** A report with a takeoff at tick 1000, a hit on the player's aircraft
    at tick 5000, and no landing or crash line. *)
Definition log_no_landing : list string :=
  [ "T:10 AType:10 PLID:100 PID:101 NAME:Joe TYPE:Bf109 COUNTRY:201 ISPL:1";
    "T:10 AType:12 ID:500 TYPE:il2 COUNTRY:101 NAME:Ivan";
    "T:1000 AType:5 PID:100 POS(1.0,52.0,2.0)";
    "T:5000 AType:2 DMG:0.100 AID:500 TID:100 POS(1.0,800.0,2.0)" ].

(** A report in which the player's first landing line carries tick 0 and a
    crash line for the same player follows at tick 9000. *)
Definition log_landing_at_zero : list string :=
  [ "T:0 AType:10 PLID:100 PID:101 NAME:Joe TYPE:Bf109 COUNTRY:201 ISPL:1";
    "T:0 AType:6 PID:100 POS(1.0,52.0,2.0)";
    "T:9000 AType:7 PID:100 POS(1.0,40.0,2.0)" ].

(** A line that the event loop handles as a landing or crash line *)
Definition is_landing_line (ln : string) : bool :=
  negb (contains "AType:2" ln) && negb (contains "AType:3" ln) &&
  negb (contains "AType:5" ln) && negb (contains "AType:18" ln) &&
  (contains "AType:6" ln || contains "AType:7" ln).

(** The terminal state read off the three fields the landing branch
    assigns *)
Inductive primary_state : Type := Flying | Landed | Crashed | BailedOut.

(** The label the landing branch writes for a terminal state *)
Definition outcome_label (p : primary_state) : string :=
  match p with
  | Flying => "Alive"
  | Landed => "Landed"
  | Crashed => "Crashed"
  | BailedOut => "Bailout"
  end.

(** The terminal state the specification assigns to the first landing or
    crash line: with a separation tick, a parachute descent if more than
    2000 ticks have passed since, else a crash or a landing by the marker
    of the line; without one, a crash or a landing by the marker. *)
Definition expected_outcome (separation : option Z) (t : Z) (crash : bool)
    : primary_state :=
  match separation with
  | Some sep =>
      if t - sep >? 2000 then BailedOut
      else if crash then Crashed else Landed
  | None => if crash then Crashed else Landed
  end.

(** The four criteria as [_detect_landing_damage] applies them to a
    ['Damage Taken'] event, [lt] being the time of the landing: the source
    is the player's aircraft type; the landing follows by more than 0 and
    less than 60 seconds; the last kill, if any, is more than 60 seconds
    back; and the event is less than 150 m above the airfield elevation
    when both altitudes are known. *)
Definition landing_damage_criteria (c : landing_context) (lt : string)
    (e : Event.t) : Prop :=
  same_source e c = true /\
  0 < _time_diff_seconds (Event.time e) lt < 60 /\
  (forall k, last_kill_time c = Some k ->
             60 < _time_diff_seconds k (Event.time e)) /\
  (forall af a, airfield_alt c = Some af -> Event.altitude e = Some a ->
                (inject_Z a - af < 150)%Q).

(** How [_detect_landing_damage] turns an event [e] of its input into the
    event [e'] of its output. *)
Definition reclassified (c : landing_context) (lt : string) (e e' : Event.t) : Prop :=
  if String.eqb (Event.type e) "Damage Taken" then
    (landing_damage_criteria c lt e /\
     exists who, Event.target e = Some who /\ e' = Event.as_landing_damage who e) \/
    (~ landing_damage_criteria c lt e /\ e' = e)
  else
    e' = e \/ (is_terminal_type (Event.type e) = true /\ e' = Event.mark_hard e).





(** A report that produces [valley_events]: the spawn line of the player's
    aircraft has no [AID] field, so the aircraft is registered under -1 and
    a hit by attacker -1 is recorded with the aircraft's own type as its
    source. *)
Definition log_valley : list string :=
  [ "T:10 AType:10 PLID:100 PID:101 NAME:Joe TYPE:Bf109 COUNTRY:201 ISPL:1";
    "T:1000 AType:5 PID:100 POS(1.0,500.0,2.0)";
    "T:7500 AType:2 DMG:0.020 AID:-1 TID:100 POS(1.0,200.0,2.0)";
    "T:9000 AType:6 PID:100 POS(1.0,500.0,2.0)" ].

(** The order of the timeline: by [_time_key], ascending *)
Definition time_le (a b : Event.t) : Prop := _time_key a <= _time_key b.

(** A report of a whole sortie: takeoff, a target hit by the player (0.8)
    and by somebody else (0.2) and then destroyed by nobody in particular,
    a hit on the pilot, and the landing. *)
Definition log_sortie : list string :=
  [ "T:10 AType:10 PLID:100 PID:101 NAME:Joe TYPE:Bf109 COUNTRY:201 ISPL:1";
    "T:10 AType:12 ID:500 TYPE:il2 COUNTRY:101 NAME:Ivan";
    "T:1000 AType:5 PID:100 POS(1.0,52.9,2.0)";
    "T:5000 AType:2 DMG:0.800 AID:100 TID:500 POS(1.0,800.0,2.0)";
    "T:5500 AType:2 DMG:0.200 AID:777 TID:500 POS(1.0,800.0,2.0)";
    "T:6000 AType:3 AID:-1 TID:500 POS(1.0,20.0,2.0)";
    "T:7000 AType:2 DMG:0.005 AID:500 TID:101 POS(1.0,800.0,2.0)";
    "T:9000 AType:6 PID:100 POS(1.0,51.0,2.0)" ].

(** The object [debrief] writes, an empty one if it raises *)
Definition debriefed (cfg : Config) (file : list string) : Json.data :=
  match debrief cfg file with
  | Ok d => d
  | Raise _ =>
      {| Json.the_player := {| Json.id := None; Json.name := None; Json.aircraft := None |};
         Json.the_summary := summary_of MS.init;
         Json.events := [] |}
  end.





(** A report in which the hits on object 500 come after its destroy line:
    the decision at the destroy line finds no damage, and the retroactive
    pass credits the kill. *)
Definition log_late_hits : list string :=
  [ "T:10 AType:10 PLID:100 PID:101 NAME:Joe TYPE:Bf109 COUNTRY:201 ISPL:1";
    "T:10 AType:12 ID:500 TYPE:il2 COUNTRY:101 NAME:Ivan";
    "T:6000 AType:3 AID:-1 TID:500 POS(1.0,20.0,2.0)";
    "T:6050 AType:2 DMG:0.900 AID:100 TID:500 POS(1.0,800.0,2.0)";
    "T:6100 AType:2 DMG:0.100 AID:777 TID:500 POS(1.0,800.0,2.0)" ].

(** A text made of decimal digits only *)
Fixpoint digits_only (s : string) : bool :=
  match s with
  | EmptyString => true
  | String c r => is_digit c && digits_only r
  end.

(** A text without a colon *)
Definition colon_free (s : string) : Prop := split_first ":" s = s.

(** The events of [l] whose sort key is [k], in the order of [l] *)
Definition with_key {A : Type} (key : A -> Z) (k : Z) (l : list A) : list A :=
  List.filter (fun x => key x =? k) l.

(** ** Vocabulary of the further properties *)

(** Every object is registered under its own id. *)
Definition keyed_by_id (s : MS.t) : Prop :=
  forall k o, MS.objects s !! k = Some o -> GameObject.id o = k.

(** The fields of an object that [GameObject.__init__] fixes and no later
    assignment touches *)
Definition same_identity (o o' : GameObject.t) : Prop :=
  GameObject.id o' = GameObject.id o /\
  GameObject.name o' = GameObject.name o /\
  GameObject.is_static o' = GameObject.is_static o /\
  GameObject.type o' = GameObject.type o /\
  GameObject.country o' = GameObject.country o /\
  GameObject.category o' = GameObject.category o.

(** The same keys are registered in both states, and each names an object
    of the same identity. *)
Definition same_objects (s s' : MS.t) : Prop :=
  forall k, option_Forall2 same_identity (MS.objects s !! k) (MS.objects s' !! k).

(** Each registered object is either alive, without a kill time and not
    credited, or destroyed, with a kill time and credited. *)
Definition marked (s : MS.t) : Prop :=
  forall k o, MS.objects s !! k = Some o ->
    (GameObject.state o = "Alive" /\ GameObject.time_of_kill o = None /\
     ~ In k (MS.kills s)) \/
    (GameObject.state o = "Destroyed" /\
     (exists ts, GameObject.time_of_kill o = Some ts) /\ In k (MS.kills s)).

(** [s'] differs from [s] in the credited kills and the registry only. *)
Definition credit_only (s s' : MS.t) : Prop :=
  s' = MS.set_kills (MS.kills s') (MS.set_objects (MS.objects s') s).

(** The hit a damage line is recorded as *)
Definition hit_of_line (ln : string) : result Hit.t :=
  try! dmg := _f ln (Re.num "DMG:") in
  Ok {| Hit.attacker := _i ln (Re.sint "AID:");
        Hit.target := _i ln (Re.sint "TID:");
        Hit.damage := dmg;
        Hit.time := mission_time_to_hhmmss (_i ln (Re.uint "T:")) |}.

(** The lines the event loop handles as damage lines *)
Definition damage_lines (lines : list string) : list string :=
  List.filter (contains "AType:2") lines.

(** The two events a damage line can append, for the airframe and for the
    pilot *)
Definition damage_events (st : MS.t) (a : Z) (dmg : B64.t) (ts : string)
    (alt : option Z) (t : Z) (airframe pilot : bool) : list Event.t :=
  ((if airframe
    then [Event.damage_taken ts (attacker_name st a)
            (format_1f (B64.mul dmg hundred) ++ "% aircraft") alt (Event.Ticks t)]
    else []) ++
   (if pilot
    then [Event.damage_taken ts (attacker_name st a)
            (format_1f (B64.mul dmg hundred) ++ "% pilot") alt (Event.Ticks t)]
    else []))%list.

(** Every character of the text satisfies [p]. *)
Fixpoint every (p : ascii -> bool) (s : string) : bool :=
  match s with
  | EmptyString => true
  | String c r => p c && every p r
  end.

(** The damage ledger, the damage totals, the wounded flag and the ids of
    the player are the same in both states. *)
Definition same_damage (s s' : MS.t) : Prop :=
  MS.hits s' = MS.hits s /\
  MS.total_aircraft_damage s' = MS.total_aircraft_damage s /\
  MS.total_pilot_damage s' = MS.total_pilot_damage s /\
  MS.wounded s' = MS.wounded s /\
  MS.player_pid s' = MS.player_pid s /\
  MS.player_plid s' = MS.player_plid s /\
  MS.player_id s' = MS.player_id s.

(** The airframe total [to_json] computes is the running total of [parse],
    and it is not negative. *)
Definition airframe_agrees (st : MS.t) : Prop :=
  fst (damage_totals st) = MS.total_aircraft_damage st /\
  B64.nonneg (MS.total_aircraft_damage st).

(** A report with one hit of 0.0015 on the player's aircraft *)
Definition log_scratch : list string :=
  [ "T:10 AType:10 PLID:100 PID:101 NAME:Joe TYPE:Bf109 COUNTRY:201 ISPL:1";
    "T:5000 AType:2 DMG:0.0015 AID:500 TID:100 POS(1.0,800.0,2.0)" ].

(** The labels the landing branch and the bail-out check write, before
    the wounded suffix *)
Definition terminal_labels : list string :=
  ["Bailout"; "Crashed"; "Landed"; "Bailed Out"].

(** The final-state label is the initial one, or a terminal label, or a
    terminal label with the wounded suffix on a wounded pilot. *)
Definition label_wf (s : MS.t) : Prop :=
  MS.final_state s = "Alive" \/
  exists base, In base terminal_labels /\
    (MS.final_state s = base \/
     (MS.final_state s = base ++ " (Wounded)" /\ MS.wounded s = true)).

(** The events [parse] appends: a damage event for the airframe or for
    the pilot, with a percentage written by [format_1f], or a takeoff,
    landing, crash or bail-out event; each is stamped with the formatted
    tick of its line and keeps the tick as its raw time. *)
Inductive built_by_parse : Event.t -> Prop :=
| built_damage (t : Z) (who : string) (pct : B64.t) (alt : option Z) (part : string) :
    B64.nonneg pct -> In part ["aircraft"; "pilot"] ->
    built_by_parse
      (Event.damage_taken (mission_time_to_hhmmss t) who
         (format_1f pct ++ "% " ++ part) alt (Event.Ticks t))
| built_simple (t : Z) (ty : string) (alt : option Z) :
    In ty ["Takeoff"; "Bailout"; "Crash"; "Landing"] ->
    built_by_parse (Event.simple (mission_time_to_hhmmss t) ty alt t).

(** A report without a spawn line of the player: objects 500 is hit and
    destroyed, somebody takes off and lands, a parachute opens. *)
Definition log_no_player : list string :=
  [ "T:10 AType:12 ID:500 TYPE:il2 COUNTRY:101 NAME:Ivan";
    "T:1000 AType:5 PID:100 POS(1.0,52.0,2.0)";
    "T:5000 AType:2 DMG:1.000 AID:100 TID:500 POS(1.0,800.0,2.0)";
    "T:6000 AType:3 AID:-1 TID:500 POS(1.0,20.0,2.0)";
    "T:7000 AType:13 Paratrooper";
    "T:9000 AType:6 PID:100 POS(1.0,51.0,2.0)" ].

(** A report whose damage line carries a number [float] rejects *)
Definition log_bad_number : list string :=
  [ "T:10 AType:10 PLID:100 PID:101 NAME:Joe TYPE:Bf109 COUNTRY:201 ISPL:1";
    "T:5000 AType:2 DMG:1.0.0 AID:500 TID:100 POS(1.0,800.0,2.0)" ].

(** A report whose takeoff line carries an altitude of 400 digits *)
Definition log_far_above : list string :=
  [ "T:10 AType:10 PLID:100 PID:101 NAME:Joe TYPE:Bf109 COUNTRY:201 ISPL:1";
    "T:1000 AType:5 PID:100 POS(1.0," ++ String.concat "" (repeat "9" 400) ++
      ".0,2.0)" ].

(** Every line of the report has at most 4300 characters and a tick below
    2^1023. *)
Definition short_lines (file : list string) : bool :=
  forallb (fun ln => (String.length ln <=? 4300)%nat &&
                     (_i ln (Re.uint "T:") <? 2 ^ 1023))
    (relevant_lines file).

(** [evt.get("type") == "Damage Taken"] *)
Definition is_damage (e : Event.t) : bool :=
  String.eqb (Event.type e) "Damage Taken".

(** A bucket of [damage_by_time] that was opened by an event of [events]:
    the first damage event of its minute, under whose minute key it stands
    and whose time, raw time, source and altitude it carries. *)
Definition opened_by (events : list Event.t) (entry : string * bucket) : Prop :=
  exists pre e post,
    events = (pre ++ e :: post)%list /\ is_damage e = true /\
    fst entry = minute_key (Event.time e) /\
    (forall x, In x pre -> is_damage x = true ->
               minute_key (Event.time x) <> fst entry) /\
    b_time (snd entry) = Event.time e /\
    b_time_raw (snd entry) = Event.time_raw e /\
    b_attacker (snd entry) = Event.target e /\
    b_altitude (snd entry) = Event.altitude e.

(** The state of the aggregation loop after the events [seen]: one bucket
    for each minute in which a damage event falls, and the other events in
    their order. *)
Definition aggregated_from (seen : list Event.t)
    (acc : list (string * bucket) * list Event.t) : Prop :=
  List.NoDup (map fst (fst acc)) /\
  Forall (opened_by seen) (fst acc) /\
  (forall e, In e seen -> is_damage e = true ->
             In (minute_key (Event.time e)) (map fst (fst acc))) /\
  snd acc = List.filter (fun e => negb (is_damage e)) seen.

(** How the landing-damage pass returns an aggregated damage event that
    no landing event follows: as it is, or re-typed as landing damage. *)
Definition retyped (e e' : Event.t) : Prop :=
  e' = e \/
  exists who, Event.target e = Some who /\ e' = Event.as_landing_damage who e.

(** The raw times of the damage events of a timeline, re-typed or not *)
Definition damage_keys (l : list Event.t) : list (option Event.raw) :=
  map Event.time_raw
    (List.filter (fun e => String.eqb (Event.type e) "Damage Taken" ||
                           String.eqb (Event.type e) "Landing Damage") l).

(** Three damage events, two of them in the same minute, and a takeoff *)
Definition minute_events : list Event.t :=
  [ Event.simple "00:00:20" "Takeoff" (Some 500) 1000;
    Event.damage_taken "00:02:10" "Bf109" "2.0% aircraft" (Some 200) (Event.Ticks 6500);
    Event.damage_taken "00:02:50" "il2" "1.5% pilot" (Some 300) (Event.Ticks 8500);
    Event.damage_taken "00:03:05" "il2" "0.5% aircraft" (Some 300) (Event.Ticks 9250) ].

(** [damage_by_time] and [non_damage_events] after the aggregation loop,
    two empty collections if it raises *)
Definition aggregated (events : list Event.t) : list (string * bucket) * list Event.t :=
  match foldM aggregate_step ([], []) events with
  | Ok r => r
  | Raise _ => ([], [])
  end.

(** Object 500 of [log_sortie] as the run leaves it *)
Definition ivan_shot_down : GameObject.t :=
  {| GameObject.id := 500; GameObject.name := "Ivan"; GameObject.is_static := false;
     GameObject.type := "il2"; GameObject.country := "101";
     GameObject.category := "Air"; GameObject.state := "Destroyed";
     GameObject.time_of_kill := Some "00:02:00"; GameObject.altitude := Some 20 |}.

(** The key a spawn line registers its object under: the number after
    [AID:] for [AType:10], after [ID:] for [AType:12]. *)
Definition spawn_key (ln : string) : option Z :=
  if contains "AType:10" ln then Some (_i ln (Re.uint "AID:"))
  else if contains "AType:12" ln then Some (_i ln (Re.uint "ID:"))
  else None.

(** The object a spawn line builds *)
Definition spawned (cfg : Config) (ln : string) (gid : Z) : GameObject.t :=
  GameObject.init cfg gid (_s ln (Re.word "NAME:")) (type_field ln)
    (_s ln (Re.uint "COUNTRY:")).

(** The text does not begin with a digit. *)
Definition no_leading_digit (s : string) : bool :=
  match s with
  | EmptyString => true
  | String c _ => negb (is_digit c)
  end.

(** Every time text of the statistics was written by
    [mission_time_to_hhmmss]: the times of the hits and the kill times of
    the objects. *)
Definition stamped (s : MS.t) : Prop :=
  (forall h, In h (MS.hits s) -> exists t, Hit.time h = mission_time_to_hhmmss t) /\
  (forall k o ts, MS.objects s !! k = Some o -> GameObject.time_of_kill o = Some ts ->
                  exists t, ts = mission_time_to_hhmmss t).
(** * Binary64 arithmetic *)

Section Rounding.

Lemma iter_pos_invariant {A : Type} (P : A -> Prop) (f : A -> A) :
  (forall x, P x -> P (f x)) -> forall n x, P x -> P (SpecFloat.iter_pos f n x).
Proof.
  intros Hf. induction n as [n IH | n IH |]; intros x Hx; simpl; auto.
Qed.

Lemma shr_1_nonneg (mrs : shr_record) : 0 <= shr_m mrs -> 0 <= shr_m (shr_1 mrs).
Proof.
  destruct mrs as [m r s]. simpl. destruct m as [| [p | p |] | p]; simpl; lia.
Qed.

Lemma shr_nonneg (mrs : shr_record) (e n : Z) :
  0 <= shr_m mrs -> 0 <= shr_m (fst (shr mrs e n)).
Proof.
  intros H. unfold shr. destruct n as [| p | p]; simpl; [exact H | | exact H].
  apply (iter_pos_invariant (fun r => 0 <= shr_m r)); [apply shr_1_nonneg | exact H].
Qed.

Lemma shr_record_of_loc_m (m : Z) (l : location) : shr_m (shr_record_of_loc m l) = m.
Proof. destruct l as [| []]; reflexivity. Qed.

Lemma shr_fexp_nonneg (m e : Z) (l : location) :
  0 <= m -> 0 <= shr_m (fst (shr_fexp B64.prec B64.emax m e l)).
Proof.
  intros H. unfold shr_fexp. apply shr_nonneg. now rewrite shr_record_of_loc_m.
Qed.

Lemma round_nearest_even_nonneg (m : Z) (l : location) :
  0 <= m -> 0 <= round_nearest_even m l.
Proof.
  intros H. destruct l as [| []]; simpl; try lia. destruct (Z.even m); lia.
Qed.

(** Rounding a mantissa that is not negative, with a clear sign bit, gives
    [+0.0], a positive float or [+inf], never NaN. *)
Lemma round_aux_nonneg (m e : Z) (l : location) :
  0 <= m -> B64.nonneg (binary_round_aux B64.prec B64.emax false m e l).
Proof.
  intros Hm. unfold binary_round_aux.
  pose proof (shr_fexp_nonneg m e l Hm) as H1.
  destruct (shr_fexp B64.prec B64.emax m e l) as [mrs' e']. cbn [fst] in H1.
  pose proof (shr_fexp_nonneg _ e' loc_Exact
                (round_nearest_even_nonneg _ (loc_of_shr_record mrs') H1)) as H2.
  destruct (shr_fexp B64.prec B64.emax _ e' loc_Exact) as [mrs'' e''].
  cbn [fst] in H2.
  destruct (shr_m mrs'') as [| p | p]; [reflexivity | | lia].
  destruct (e'' <=? B64.emax - B64.prec); reflexivity.
Qed.

End Rounding.

Lemma of_ratio_nonneg (n d : positive) : B64.nonneg (B64.of_ratio n d).
Proof.
  unfold B64.of_ratio, SFdiv_core_binary.
  set (e' := Z.min _ _). set (m' := match 0 - 0 - e' with Z0 => _ | _ => _ end).
  assert (Hm : 0 <= m').
  { subst m'. destruct (0 - 0 - e') as [| p | p]; [lia | | lia].
    apply Z.shiftl_nonneg. lia. }
  pose proof (Z.div_pos m' (Zpos d) Hm ltac:(lia)) as Hq.
  unfold Z.div in Hq. destruct (Z.div_eucl m' (Zpos d)) as [q r].
  now apply round_aux_nonneg.
Qed.

Lemma of_Q_nonneg (q : Q) : (0 <= q)%Q -> B64.nonneg (B64.of_Q q).
Proof.
  intros Hq. unfold B64.of_Q.
  assert (Hr : (0 <= Qred q)%Q) by now rewrite Qred_correct.
  destruct (Qred q) as [n d]. cbn [Qnum Qden].
  destruct n as [| n | n]; [reflexivity | apply of_ratio_nonneg |].
  unfold Qle in Hr. cbn [Qnum Qden] in Hr. lia.
Qed.

(** [B64.of_Q] reads the value of its argument, not the way it is
    written. *)
Lemma of_Q_compat (p q : Q) : (p == q)%Q -> B64.of_Q p = B64.of_Q q.
Proof. intros H. unfold B64.of_Q. now rewrite (Qred_complete p q H). Qed.

Lemma nonneg_cases (x : B64.t) :
  B64.nonneg x ->
  x = B64.zero \/ x = B64.infinity \/ exists m e, x = S754_finite false m e.
Proof.
  destruct x as [s | s | | s m e]; cbn; intros H; try contradiction; subst s.
  - now left.
  - right. now left.
  - right. right. now exists m, e.
Qed.

Lemma add_nonneg (x y : B64.t) :
  B64.nonneg x -> B64.nonneg y -> B64.nonneg (B64.add x y).
Proof.
  intros Hx Hy.
  destruct (nonneg_cases x Hx) as [-> | [-> | (mx & ex & ->)]];
    destruct (nonneg_cases y Hy) as [-> | [-> | (my & ey & ->)]];
    try reflexivity.
  unfold B64.add, SFadd, cond_Zopp.
  set (a := fst (shl_align mx ex _)). set (b := fst (shl_align my ey _)).
  change (Z.pos a + Z.pos b) with (Z.pos (a + b)).
  unfold binary_normalize, binary_round.
  destruct (shl_align (a + b) _ _) as [mz ez]. now apply round_aux_nonneg.
Qed.

Lemma hundred_finite : exists m e, hundred = S754_finite false m e.
Proof. eexists _, _. vm_compute. reflexivity. Qed.

Lemma mul_hundred_nonneg (x : B64.t) : B64.nonneg x -> B64.nonneg (B64.mul x hundred).
Proof.
  intros Hx. destruct hundred_finite as (mh & eh & ->).
  destruct (nonneg_cases x Hx) as [-> | [-> | (mx & ex & ->)]]; try reflexivity.
  unfold B64.mul, SFmul. cbn [xorb]. now apply round_aux_nonneg.
Qed.

(** Adding [+0.0] changes nothing. *)
Lemma add_zero_r (x : B64.t) : B64.nonneg x -> B64.add x B64.zero = x.
Proof.
  intros Hx.
  destruct (nonneg_cases x Hx) as [-> | [-> | (mx & ex & ->)]]; reflexivity.
Qed.

(** A float that is not negative and not above zero is [+0.0]. *)
Lemma not_above_zero (x : B64.t) :
  B64.nonneg x -> B64.ltb B64.zero x = false -> x = B64.zero.
Proof.
  intros Hx.
  destruct (nonneg_cases x Hx) as [-> | [-> | (mx & ex & ->)]];
    [reflexivity | discriminate | discriminate].
Qed.

(** Nothing out of zero is a share of four fifths. *)
Lemma no_share_of_zero (total : B64.t) :
  B64.leb share_needed (B64.div B64.zero total) = false.
Proof. destruct total as [[] | [] | | [] m e]; vm_compute; reflexivity. Qed.


(** * Properties *)

#[local] Arguments contains : simpl never.
#[local] Arguments _i : simpl never.
#[local] Arguments _s : simpl never.
#[local] Arguments _f : simpl never.
#[local] Arguments pos_match : simpl never.
#[local] Arguments altitude_of : simpl never.
#[local] Arguments mission_time_to_hhmmss : simpl never.
#[local] Arguments classify_type : simpl never.
#[local] Arguments type_field : simpl never.
#[local] Arguments B64.add : simpl never.
#[local] Arguments B64.mul : simpl never.
#[local] Arguments B64.div : simpl never.
#[local] Arguments B64.ltb : simpl never.
#[local] Arguments B64.leb : simpl never.
#[local] Arguments B64.of_Q : simpl never.
#[local] Arguments format_1f : simpl never.
#[local] Arguments round_float : simpl never.

(** ** Classification *)

Section Classification.

Variable cfg : Config.

Lemma existsb_eqb_In (s : string) (l : list string) :
  existsb (String.eqb s) l = true <-> In s l.
Proof.
  rewrite existsb_exists. split.
  - intros [x [Hin Heq]]. apply String.eqb_eq in Heq. now subst.
  - intros Hin. exists s. split; [assumption | apply String.eqb_refl].
Qed.

Lemma existsb_eqb_not_In (s : string) (l : list string) :
  existsb (String.eqb s) l = false <-> ~ In s l.
Proof.
  rewrite <- existsb_eqb_In. destruct (existsb (String.eqb s) l); split; intros H.
  - discriminate.
  - now contradiction H.
  - discriminate.
  - reflexivity.
Qed.

Lemma first_category_unlisted (s : string) (cats : list (string * list string)) :
  unlisted s cats -> first_category s cats = "Unknown".
Proof.
  induction cats as [| [c k] rest IH]; intros Hun; simpl.
  - reflexivity.
  - assert (Hk : existsb (String.eqb s) (map lower k) = false).
    { apply existsb_eqb_not_In. apply (Hun c k). now left. }
    rewrite Hk. apply IH. intros c' k' Hin. apply (Hun c' k'). now right.
Qed.

Lemma first_category_listing (s cat : string) (cats : list (string * list string)) :
  first_listing s cat cats -> first_category s cats = cat.
Proof.
  intros (pre & kws & post & -> & Hin & Hun).
  induction pre as [| [c k] pre IH]; simpl.
  - apply existsb_eqb_In in Hin. now rewrite Hin.
  - assert (Hk : existsb (String.eqb s) (map lower k) = false).
    { apply existsb_eqb_not_In. apply (Hun c k). now left. }
    rewrite Hk. apply IH. intros c' k' Hin'. apply (Hun c' k'). now right.
Qed.

Lemma first_category_cases (s : string) (cats : list (string * list string)) :
  first_listing s (first_category s cats) cats \/
  (first_category s cats = "Unknown" /\ unlisted s cats).
Proof.
  induction cats as [| [c k] rest IH]; simpl.
  - right. split; [reflexivity | intros c k []].
  - destruct (existsb (String.eqb s) (map lower k)) eqn:Hk.
    + left. exists [], k, rest. repeat split.
      * now apply existsb_eqb_In.
      * intros c' k' [].
    + apply existsb_eqb_not_In in Hk.
      destruct IH as [(pre & kws & post & Heq & Hin & Hun) | [Heq Hun]].
      * left. exists ((c, k) :: pre), kws, post. repeat split.
        -- simpl. now rewrite <- Heq.
        -- assumption.
        -- intros c' k' [Hhd | Htl]; [injection Hhd as <- <-; assumption |].
           now apply (Hun c' k').
      * right. split; [assumption |].
        intros c' k' [Hhd | Htl]; [injection Hhd as <- <-; assumption |].
        now apply (Hun c' k').
Qed.

Lemma prefix_app (p s : string) :
  String.prefix p s = true -> exists r, s = p ++ r.
Proof.
  revert s. induction p as [| a p IH]; intros s H.
  - now exists s.
  - destruct s as [| b s]; simpl in H; [discriminate |].
    destruct (Ascii.ascii_dec a b) as [-> | Hne]; [| discriminate].
    destruct (IH s H) as [r ->]. now exists r.
Qed.

Lemma match_key_static (type_ : string) :
  startswith "static_" (strip (lower type_)) = true ->
  contains "[" (strip (lower type_)) = true ->
  match_key type_ = split_first "[" (strip (lower type_)) /\
  startswith "static_" (match_key type_) = true.
Proof.
  intros Hst Hbr. unfold match_key. rewrite Hst, Hbr. simpl.
  split; [reflexivity |].
  destruct (prefix_app _ _ Hst) as [r ->].
  unfold startswith. cbv [append]. simpl.
  destruct r as [| a r]; [reflexivity |].
  simpl. now destruct (Ascii.eqb a "[").
Qed.

Lemma match_key_plain (type_ : string) :
  startswith "static_" (strip (lower type_)) && contains "[" (strip (lower type_)) = false ->
  match_key type_ = strip (lower type_).
Proof. intros H. unfold match_key. now rewrite H. Qed.

Lemma classify_excluded (type_ : string) :
  (exists x, In x (_exclude_config cfg) /\ contains x (match_key type_) = true) ->
  classify_type cfg type_ = "Excluded".
Proof.
  intros Hex. unfold classify_type.
  assert (H : existsb (fun x => contains x (match_key type_)) (_exclude_config cfg) = true)
    by (apply existsb_exists; exact Hex).
  now rewrite H.
Qed.

Lemma classify_not_excluded (type_ : string) :
  (forall x, In x (_exclude_config cfg) -> contains x (match_key type_) = false) ->
  classify_type cfg type_ = first_category (match_key type_) (categories cfg).
Proof.
  intros Hno. unfold classify_type.
  destruct (existsb _ (_exclude_config cfg)) eqn:H; [| reflexivity].
  apply existsb_exists in H. destruct H as [x [Hin Hc]].
  rewrite (Hno x Hin) in Hc. discriminate.
Qed.

End Classification.

(** C5 (as stated, refuted).  The claim has the static-object marker
    stripped before matching.  [classify_type] keeps the marker: with the
    single keyword [il2] under [Air], the tag [static_il2[9337,0]] is matched
    as [static_il2] and comes out [Unknown], where the claimed
    normalisation would match [il2] and answer [Air]. *)
Lemma classify_type_keeps_marker :
  classify_type cfg_air "static_il2[9337,0]" = "Unknown" /\
  spec_classify cfg_air "static_il2[9337,0]" = "Air" /\
  classify_type cfg_air "static_il2[9337,0]" <> spec_classify cfg_air "static_il2[9337,0]".
Proof. repeat split. discriminate. Qed.

(** C5 (amended).  [classify_type] matches on the lower-cased, stripped
    tag; a tag that starts with [static_] and holds a bracket is cut at its
    first bracket and keeps the [static_] prefix.  If an exclusion keyword
    occurs in that text as a substring the answer is [Excluded]; otherwise
    it is the first category, in file order, one of whose lower-cased
    keywords equals the text exactly, and [Unknown] when there is none. *)
Theorem classify_type_exact (cfg : Config) (type_ : string) :
  (startswith "static_" (strip (lower type_)) = true ->
   contains "[" (strip (lower type_)) = true ->
   match_key type_ = split_first "[" (strip (lower type_)) /\
   startswith "static_" (match_key type_) = true) /\
  (startswith "static_" (strip (lower type_)) && contains "[" (strip (lower type_)) = false ->
   match_key type_ = strip (lower type_)) /\
  ((exists x, In x (_exclude_config cfg) /\ contains x (match_key type_) = true) ->
   classify_type cfg type_ = "Excluded") /\
  ((forall x, In x (_exclude_config cfg) -> contains x (match_key type_) = false) ->
   (forall cat, first_listing (match_key type_) cat (categories cfg) ->
                classify_type cfg type_ = cat) /\
   (unlisted (match_key type_) (categories cfg) ->
    classify_type cfg type_ = "Unknown") /\
   (first_listing (match_key type_) (classify_type cfg type_) (categories cfg) \/
    unlisted (match_key type_) (categories cfg))).
Proof.
  split; [apply match_key_static |].
  split; [apply match_key_plain |].
  split; [apply classify_excluded |].
  intros Hno. rewrite (classify_not_excluded cfg type_ Hno).
  split; [intros cat; apply first_category_listing |].
  split; [apply first_category_unlisted |].
  destruct (first_category_cases (match_key type_) (categories cfg)) as [H | [_ H]];
    [now left | now right].
Qed.

(** The tag [flak88x] does not match the keyword [flak]. *)
Lemma classify_type_exact_witness :
  classify_type cfg_flak "flak88x" = "Unknown".
Proof.
  destruct (classify_type_exact cfg_flak "flak88x") as (_ & _ & _ & H).
  apply H.
  - intros x [<- | []]. reflexivity.
  - intros c k [Heq | [Heq | []]]; injection Heq as <- <-; simpl;
      intros H'; repeat (destruct H' as [H' | H']; [discriminate |]); exact H'.
Defined.

(** ** Folds *)

Lemma foldM_app {S A : Type} (f : S -> A -> result S) (l1 l2 : list A) (s : S) :
  foldM f s (l1 ++ l2) = try! s1 := foldM f s l1 in foldM f s1 l2.
Proof.
  revert s. induction l1 as [| x l1 IH]; intros s; simpl; [reflexivity |].
  destruct (f s x) as [s' | e]; simpl; [apply IH | reflexivity].
Qed.

Lemma foldM_cons {S A : Type} (f : S -> A -> result S) (x : A) (l : list A) (s : S) :
  foldM f s (x :: l) = try! s' := f s x in foldM f s' l.
Proof. reflexivity. Qed.

Lemma foldM_invariant {S A : Type} (P : S -> Prop) (f : S -> A -> result S) :
  (forall s x s', P s -> f s x = Ok s' -> P s') ->
  forall l s s', P s -> foldM f s l = Ok s' -> P s'.
Proof.
  intros Hstep. induction l as [| x l IH]; intros s s' HP H; simpl in H.
  - injection H as <-. exact HP.
  - destruct (f s x) as [s1 | e] eqn:Hf; simpl in H; [| discriminate].
    apply (IH s1 s'); [apply (Hstep s x s1 HP Hf) | exact H].
Qed.

Lemma fold_left_invariant {S A : Type} (P : S -> Prop) (f : S -> A -> S) :
  (forall s x, P s -> P (f s x)) ->
  forall l s, P s -> P (fold_left f l s).
Proof.
  intros Hstep. induction l as [| x l IH]; intros s HP; simpl; [exact HP |].
  apply IH, Hstep, HP.
Qed.

(** A relation kept by every step is kept from the start of a fold to its
    end. *)
Lemma foldM_preorder {S A : Type} (R : S -> S -> Prop) (f : S -> A -> result S) :
  (forall s, R s s) -> (forall a b c, R a b -> R b c -> R a c) ->
  (forall s x s', f s x = Ok s' -> R s s') ->
  forall l s s', foldM f s l = Ok s' -> R s s'.
Proof.
  intros Hrefl Htrans Hstep l s s' H.
  apply (foldM_invariant (R s) f) with (l := l) (s := s); [| apply Hrefl | exact H].
  intros a x b Ha Hf. apply (Htrans s a b Ha), (Hstep a x b Hf).
Qed.

Lemma fold_left_preorder {S A : Type} (R : S -> S -> Prop) (f : S -> A -> S) :
  (forall s, R s s) -> (forall a b c, R a b -> R b c -> R a c) ->
  (forall s x, R s (f s x)) ->
  forall l s, R s (fold_left f l s).
Proof.
  intros Hrefl Htrans Hstep l s.
  apply (fold_left_invariant (R s) f); [| apply Hrefl].
  intros a x Ha. apply (Htrans s a (f a x) Ha), Hstep.
Qed.

(** ** What each branch of the event loop leaves alone *)

Ltac break_if :=
  match goal with
  | H : context [if ?c then _ else _] |- _ => destruct c eqn:?
  | H : context [match ?c with Ok _ => _ | Raise _ => _ end] |- _ => destruct c eqn:?
  | H : context [bind ?c _] |- _ => destruct c eqn:?; simpl bind in H
  end.

Ltac ok_inv :=
  repeat match goal with
  | H : Ok _ = Ok _ |- _ => inversion H; subst; clear H
  | H : Raise _ = Ok _ |- _ => discriminate H
  | H : (_, _) = (_, _) |- _ => inversion H; subst; clear H
  end.

(** The registry seen by the kill logic: objects, credited kills and the
    ids of the player. *)
Lemma on_damage_frame (ln : string) (t : Z) (ts : string) (st st' : MS.t) :
  on_damage ln t ts st = Ok st' ->
  MS.kills st' = MS.kills st /\ MS.objects st' = MS.objects st /\
  MS.player_pid st' = MS.player_pid st /\ MS.player_plid st' = MS.player_plid st /\
  MS.player_id st' = MS.player_id st.
Proof.
  unfold on_damage. intros H.
  repeat break_if; ok_inv; simpl; repeat split; reflexivity.
Qed.

Lemma on_takeoff_frame (ln : string) (t : Z) (ts : string) (st st' : MS.t) :
  on_takeoff ln t ts st = Ok st' ->
  MS.kills st' = MS.kills st /\ MS.objects st' = MS.objects st /\
  MS.player_pid st' = MS.player_pid st /\ MS.player_plid st' = MS.player_plid st /\
  MS.player_id st' = MS.player_id st.
Proof.
  unfold on_takeoff. intros H.
  repeat break_if; ok_inv; simpl; repeat split; reflexivity.
Qed.

Lemma on_separation_frame (ln : string) (t : Z) (st : MS.t) :
  let st' := on_separation ln t st in
  MS.kills st' = MS.kills st /\ MS.objects st' = MS.objects st /\
  MS.player_pid st' = MS.player_pid st /\ MS.player_plid st' = MS.player_plid st /\
  MS.player_id st' = MS.player_id st.
Proof.
  unfold on_separation.
  destruct (_ && _); simpl; repeat split; reflexivity.
Qed.

Lemma landing_outcome_frame (ln : string) (t : Z) (st : MS.t) :
  let st' := fst (landing_outcome ln t st) in
  MS.kills st' = MS.kills st /\ MS.objects st' = MS.objects st /\
  MS.player_pid st' = MS.player_pid st /\ MS.player_plid st' = MS.player_plid st /\
  MS.player_id st' = MS.player_id st.
Proof.
  unfold landing_outcome.
  destruct (MS.pilot_separation_time st) as [sep |];
    [destruct (negb (sep =? 0)); [destruct (t - sep >? 2000) |] |];
    destruct (contains "AType:7" ln); simpl; repeat split; reflexivity.
Qed.

Lemma on_landing_frame (ln : string) (t : Z) (ts : string) (st st' : MS.t) :
  on_landing ln t ts st = Ok st' ->
  MS.kills st' = MS.kills st /\ MS.objects st' = MS.objects st /\
  MS.player_pid st' = MS.player_pid st /\ MS.player_plid st' = MS.player_plid st /\
  MS.player_id st' = MS.player_id st.
Proof.
  unfold on_landing. intros H.
  destruct (is_player st _ && _); [| ok_inv; repeat split; reflexivity].
  destruct (altitude_of _) as [alt | e]; simpl in H; [| discriminate].
  pose proof (landing_outcome_frame ln t (MS.set_landing_time (Some t) st)) as Hf.
  destruct (landing_outcome ln t _) as [st1 ty]. simpl in Hf.
  ok_inv. simpl. exact Hf.
Qed.

(** ** Crediting a kill *)

Lemma category_of_insert (st : MS.t) (tid k : Z) (o o' : GameObject.t) :
  MS.objects st !! tid = Some o ->
  GameObject.category o' = GameObject.category o ->
  category_of (MS.set_objects (<[tid := o']> (MS.objects st)) st) k = category_of st k.
Proof.
  intros Hlook Hcat. unfold category_of. simpl.
  destruct (decide (tid = k)) as [-> | Hne].
  - rewrite lookup_insert_eq, Hlook. simpl. now rewrite Hcat.
  - now rewrite lookup_insert_ne.
Qed.

Lemma same_registry_refl (st : MS.t) : same_registry st st.
Proof. repeat split; reflexivity. Qed.

Lemma same_registry_trans (a b c : MS.t) :
  same_registry a b -> same_registry b c -> same_registry a c.
Proof.
  intros (H1 & H2 & H3 & H4) (H1' & H2' & H3' & H4').
  split; [intros k; now rewrite H1', H1 | repeat split; congruence].
Qed.

Lemma same_registry_of_frame (st st' : MS.t) :
  MS.kills st' = MS.kills st /\ MS.objects st' = MS.objects st /\
  MS.player_pid st' = MS.player_pid st /\ MS.player_plid st' = MS.player_plid st /\
  MS.player_id st' = MS.player_id st ->
  same_registry st st'.
Proof.
  intros (_ & Ho & Hp & Hl & Hi). repeat split; try assumption.
  intros k. unfold category_of. now rewrite Ho.
Qed.

Lemma set_object_altitude_registry (tid a : Z) (st : MS.t) :
  same_registry st (MS.set_object_altitude tid a st) /\
  MS.kills (MS.set_object_altitude tid a st) = MS.kills st /\
  MS.hits (MS.set_object_altitude tid a st) = MS.hits st.
Proof.
  unfold MS.set_object_altitude.
  destruct (MS.objects st !! tid) as [o |] eqn:Ho.
  - repeat split; try reflexivity.
    intros k. now apply category_of_insert with (o := o).
  - repeat split; reflexivity.
Qed.

Lemma store_altitude_registry (tid : Z) (alt : option Z) (st : MS.t) :
  same_registry st (store_altitude tid alt st) /\
  MS.kills (store_altitude tid alt st) = MS.kills st /\
  MS.hits (store_altitude tid alt st) = MS.hits st.
Proof.
  destruct alt as [a |]; simpl.
  - apply set_object_altitude_registry.
  - repeat split; reflexivity.
Qed.

Lemma existsb_Zeqb_In (tid : Z) (l : list Z) :
  existsb (Z.eqb tid) l = true <-> In tid l.
Proof.
  rewrite existsb_exists. split.
  - intros [x [Hin Heq]]. apply Z.eqb_eq in Heq. now subst.
  - intros Hin. exists tid. split; [assumption | apply Z.eqb_refl].
Qed.

(** [add_kill] either leaves the list of kills as it is, or appends a key
    that was not in it and names an object that is not [Excluded]. *)
Lemma add_kill_kills (tid : Z) (ts : string) (st : MS.t) :
  MS.kills (MS.add_kill tid ts st) = MS.kills st \/
  (MS.kills (MS.add_kill tid ts st) = (MS.kills st ++ [tid])%list /\
   ~ In tid (MS.kills st) /\
   exists c, category_of st tid = Some c /\ c <> "Excluded").
Proof.
  unfold MS.add_kill.
  destruct (MS.objects st !! tid) as [o |] eqn:Ho; [| now left].
  destruct (String.eqb (GameObject.category o) "Excluded") eqn:Hex; [now left |].
  simpl. destruct (existsb (Z.eqb tid) (MS.kills st)) eqn:Hin; simpl; [now left |].
  right. split; [reflexivity |]. split.
  - intros Hc. apply existsb_Zeqb_In in Hc. congruence.
  - exists (GameObject.category o). unfold category_of. rewrite Ho. split; [reflexivity |].
    now apply String.eqb_neq.
Qed.

Lemma add_kill_registry (tid : Z) (ts : string) (st : MS.t) :
  same_registry st (MS.add_kill tid ts st) /\
  MS.hits (MS.add_kill tid ts st) = MS.hits st.
Proof.
  unfold MS.add_kill.
  destruct (MS.objects st !! tid) as [o |] eqn:Ho;
    [| split; [apply same_registry_refl | reflexivity]].
  destruct (String.eqb (GameObject.category o) "Excluded");
    [split; [apply same_registry_refl | reflexivity] |].
  simpl. destruct (existsb (Z.eqb tid) (MS.kills st)); simpl.
  - repeat split; try reflexivity. intros k. now apply category_of_insert with (o := o).
  - repeat split; try reflexivity. intros k.
    unfold category_of. simpl. fold (category_of st k).
    now apply (category_of_insert st tid k o).
Qed.

Lemma kills_wf_registry (st st' : MS.t) :
  same_registry st st' -> MS.kills st' = MS.kills st -> kills_wf st -> kills_wf st'.
Proof.
  intros (Hc & _) Hk [Hnd Hcat]. split; rewrite Hk; [exact Hnd |].
  intros tid Hin. rewrite Hc. now apply Hcat.
Qed.

Lemma kills_wf_add_kill (tid : Z) (ts : string) (st : MS.t) :
  kills_wf st -> kills_wf (MS.add_kill tid ts st).
Proof.
  intros [Hnd Hcat].
  destruct (add_kill_registry tid ts st) as [(Hc & _) _].
  destruct (add_kill_kills tid ts st) as [Hk | (Hk & Hnew & c & Hcc & Hne)].
  - split; rewrite Hk; [exact Hnd |]. intros k Hin. rewrite Hc. now apply Hcat.
  - split; rewrite Hk.
    + apply Stdlib.Lists.List.NoDup_app; [exact Hnd | |].
      * apply List.NoDup_cons; [intros [] | apply List.NoDup_nil].
      * intros x Hx [<- | []]. contradiction.
    + intros k Hin. rewrite Hc. apply in_app_or in Hin as [Hin | [<- | []]].
      * now apply Hcat.
      * now exists c.
Qed.

(** ** The shape of one turn of each loop *)

Lemma credit_move_refl (st : MS.t) : credit_move st st.
Proof. left. repeat split; reflexivity. Qed.

Lemma _resolve_indirect_kill_move (tid : Z) (ts : string) (pm : option string)
    (st st' : MS.t) :
  _resolve_indirect_kill tid ts pm st = Ok st' -> credit_move st st'.
Proof.
  unfold _resolve_indirect_kill. intros H.
  destruct (share_ok st (hits_on st tid)); [| ok_inv; apply credit_move_refl].
  destruct (MS.objects st !! tid) as [o |];
    [destruct pm as [g |] |]; simpl in H.
  - destruct (altitude_of (Some g)) as [alt | e]; simpl in H; [| discriminate].
    ok_inv. right. now exists tid, ts, alt.
  - ok_inv. right. now exists tid, ts, None.
  - ok_inv. right. now exists tid, ts, None.
Qed.

Lemma on_destroy_move (ln ts : string) (ps ps' : pstate) :
  on_destroy ln ts ps = Ok ps' -> credit_move (stats ps) (stats ps').
Proof.
  unfold on_destroy. intros H.
  destruct (altitude_of (pos_match ln)) as [alt | e]; simpl in H; [| discriminate].
  destruct (is_excluded (stats ps) _); [ok_inv; apply credit_move_refl |].
  destruct (is_player (stats ps) _).
  { ok_inv. simpl. right. now eexists _, _, _. }
  destruct (_ =? -1); [| ok_inv; apply credit_move_refl].
  destruct (_resolve_indirect_kill _ _ _ _) as [st1 | e] eqn:Hr; simpl in H; [| discriminate].
  ok_inv. simpl. now apply _resolve_indirect_kill_move in Hr.
Qed.

Lemma process_line_move (ps ps' : pstate) (ln : string) :
  process_line ps ln = Ok ps' -> credit_move (stats ps) (stats ps').
Proof.
  unfold process_line, with_stats. intros H.
  destruct (contains "AType:2" ln).
  { destruct (on_damage _ _ _ _) as [st1 | e] eqn:Hd; simpl in H; [| discriminate].
    ok_inv. left. now apply on_damage_frame in Hd. }
  destruct (contains "AType:3" ln); [now apply on_destroy_move in H |].
  destruct (contains "AType:5" ln).
  { destruct (on_takeoff _ _ _ _) as [st1 | e] eqn:Hd; simpl in H; [| discriminate].
    ok_inv. left. now apply on_takeoff_frame in Hd. }
  destruct (contains "AType:18" ln).
  { simpl in H. ok_inv. left. apply on_separation_frame. }
  destruct (_ || _); [| ok_inv; apply credit_move_refl].
  destruct (on_landing _ _ _ _) as [st1 | e] eqn:Hd; simpl in H; [| discriminate].
  ok_inv. left. now apply on_landing_frame in Hd.
Qed.

Lemma retro_step_move (st : MS.t) (entry : Z * (string * option Z)) :
  credit_move st (retro_step st entry).
Proof.
  destruct entry as [tid [kill_time alt]]. unfold retro_step.
  destruct (last (hits_on st tid)) as [h |]; [| apply credit_move_refl].
  destruct (share_ok st (hits_on st tid)); [| apply credit_move_refl].
  destruct (not_yet_credited st tid); [| apply credit_move_refl].
  right. now eexists _, _, _.
Qed.

Lemma credit_move_registry (st st' : MS.t) :
  credit_move st st' -> same_registry st st'.
Proof.
  intros [H | (tid & ts & alt & ->)].
  - now apply same_registry_of_frame.
  - eapply same_registry_trans;
      [apply store_altitude_registry | apply add_kill_registry].
Qed.

Lemma credit_move_wf (st st' : MS.t) :
  credit_move st st' -> kills_wf st -> kills_wf st'.
Proof.
  intros [H | (tid & ts & alt & ->)] Hwf.
  - apply (kills_wf_registry st st'); [now apply same_registry_of_frame | apply H | exact Hwf].
  - apply kills_wf_add_kill.
    apply (kills_wf_registry st); [apply store_altitude_registry | apply store_altitude_registry | exact Hwf].
Qed.

(** ** The registration loop *)

Lemma register_line_frame (cfg : Config) (st : MS.t) (ln : string) :
  MS.kills (register_line cfg st ln) = MS.kills st /\
  MS.hits (register_line cfg st ln) = MS.hits st /\
  MS.events (register_line cfg st ln) = MS.events st /\
  MS.wounded (register_line cfg st ln) = MS.wounded st /\
  MS.total_pilot_damage (register_line cfg st ln) = MS.total_pilot_damage st.
Proof.
  unfold register_line.
  destruct (contains "AType:10" ln); [destruct (contains "ISPL:1" ln) |
    destruct (contains "AType:12" ln)]; simpl; repeat split; reflexivity.
Qed.

Lemma registering_frame (cfg : Config) (lines : list string) (st : MS.t) :
  MS.kills (fold_left (register_line cfg) lines st) = MS.kills st /\
  MS.hits (fold_left (register_line cfg) lines st) = MS.hits st /\
  MS.events (fold_left (register_line cfg) lines st) = MS.events st /\
  MS.wounded (fold_left (register_line cfg) lines st) = MS.wounded st /\
  MS.total_pilot_damage (fold_left (register_line cfg) lines st) = MS.total_pilot_damage st.
Proof.
  revert st. induction lines as [| ln lines IH]; intros st; simpl.
  - repeat split; reflexivity.
  - destruct (IH (register_line cfg st ln)) as (H1 & H2 & H3 & H4 & H5).
    destruct (register_line_frame cfg st ln) as (G1 & G2 & G3 & G4 & G5).
    repeat split; congruence.
Qed.

Lemma kills_wf_nil (st : MS.t) : MS.kills st = [] -> kills_wf st.
Proof.
  intros H. split; rewrite H; [apply List.NoDup_nil | intros tid []].
Qed.

(** ** After the loops *)

Lemma detect_bailout_frame (lines : list string) (st : MS.t) :
  let st' := detect_bailout lines st in
  MS.kills st' = MS.kills st /\ MS.objects st' = MS.objects st /\
  MS.player_pid st' = MS.player_pid st /\ MS.player_plid st' = MS.player_plid st /\
  MS.player_id st' = MS.player_id st.
Proof.
  unfold detect_bailout. destruct (_ && _); simpl; repeat split; reflexivity.
Qed.

Lemma compute_flight_duration_frame (st st' : MS.t) :
  compute_flight_duration st = Ok st' ->
  MS.kills st' = MS.kills st /\ MS.objects st' = MS.objects st /\
  MS.player_pid st' = MS.player_pid st /\ MS.player_plid st' = MS.player_plid st /\
  MS.player_id st' = MS.player_id st.
Proof.
  unfold compute_flight_duration, _format_time. intros H.
  destruct (MS.takeoff_time st) as [tk |]; [| ok_inv; repeat split; reflexivity].
  destruct (tk =? 0); [ok_inv; repeat split; reflexivity |].
  destruct (_ && _).
  - destruct (_ >? tk); simpl in H; [discriminate |].
    destruct (_ =? 0); ok_inv; simpl; repeat split; reflexivity.
  - simpl in H. destruct (MS.landing_time st) as [e |];
      [destruct (e =? 0) |]; ok_inv; simpl; repeat split; reflexivity.
Qed.

(** ** The credited kills at every point of a run *)

Lemma collecting_wf (l : list string) (ps ps' : pstate) :
  kills_wf (stats ps) -> foldM process_line ps l = Ok ps' -> kills_wf (stats ps').
Proof.
  apply (foldM_invariant (fun p => kills_wf (stats p)) process_line).
  intros s x s' Hwf Hstep. apply (credit_move_wf (stats s)); [| exact Hwf].
  now apply process_line_move in Hstep.
Qed.

Lemma reconciling_wf (l : list (Z * (string * option Z))) (st : MS.t) :
  kills_wf st -> kills_wf (fold_left retro_step l st).
Proof.
  apply (fold_left_invariant kills_wf retro_step).
  intros s x Hwf. apply (credit_move_wf s); [apply retro_step_move | exact Hwf].
Qed.

Lemma registered_wf (cfg : Config) (lines : list string) :
  kills_wf (registered cfg lines).
Proof. apply kills_wf_nil. apply (registering_frame cfg lines MS.init). Qed.

Lemma collected_wf (cfg : Config) (lines : list string) (ps : pstate) :
  collected cfg lines = Ok ps -> kills_wf (stats ps).
Proof. apply collecting_wf. simpl. apply registered_wf. Qed.

Lemma visited_kills_wf (cfg : Config) (file : list string) (st : MS.t) :
  visited cfg file st -> kills_wf st.
Proof.
  intros [n | n ps H | m ps H | ps H | st' H].
  - apply kills_wf_nil. apply (registering_frame cfg _ MS.init).
  - revert H. apply collecting_wf. simpl. apply registered_wf.
  - apply reconciling_wf. now apply collected_wf in H.
  - apply collected_wf in H.
    apply (kills_wf_registry (reconciled ps)).
    + apply same_registry_of_frame, detect_bailout_frame.
    + apply detect_bailout_frame.
    + now apply reconciling_wf.
  - unfold parse in H.
    destruct (collected cfg (relevant_lines file)) as [ps | e] eqn:Hc; simpl in H;
      [| discriminate].
    apply collected_wf in Hc.
    pose proof (compute_flight_duration_frame _ _ H) as Hf.
    apply (kills_wf_registry (detect_bailout (relevant_lines file) (reconciled ps))).
    + now apply same_registry_of_frame.
    + apply Hf.
    + apply (kills_wf_registry (reconciled ps)).
      * apply same_registry_of_frame, detect_bailout_frame.
      * apply detect_bailout_frame.
      * now apply reconciling_wf.
Qed.

Lemma not_yet_credited_false (st : MS.t) (tid : Z) :
  In tid (MS.kills st) -> not_yet_credited st tid = false.
Proof.
  intros Hin. unfold not_yet_credited.
  destruct (forallb _ (MS.kills st)) eqn:Hall; [| reflexivity].
  rewrite forallb_forall in Hall. specialize (Hall tid Hin).
  now rewrite Z.eqb_refl in Hall.
Qed.

Lemma retro_step_credited (st : MS.t) (tid : Z) (v : string * option Z) :
  In tid (MS.kills st) -> retro_step st (tid, v) = st.
Proof.
  intros Hin. destruct v as [kill_time alt]. unfold retro_step.
  rewrite (not_yet_credited_false st tid Hin).
  destruct (last _); [destruct (share_ok _ _) |]; reflexivity.
Qed.

(** C6.  At every point of a run the list of credited kills holds no key
    twice, and the retroactive pass leaves a target that is already
    credited exactly as it found it, whatever its damage share. *)
Theorem credited_at_most_once (cfg : Config) (file : list string) (st : MS.t) :
  visited cfg file st ->
  List.NoDup (MS.kills st) /\
  forall tid v, In tid (MS.kills st) -> retro_step st (tid, v) = st.
Proof.
  intros Hv. split.
  - apply (visited_kills_wf cfg file st Hv).
  - intros tid v. apply retro_step_credited.
Qed.

(** In [log_direct] object 500 is credited by its destroy line; its damage
    share is 1.0, and it is still credited once at the end. *)
Lemma credited_at_most_once_witness :
  MS.kills (parsed cfg_flak log_direct) = [500] /\
  share_ok (parsed cfg_flak log_direct) (hits_on (parsed cfg_flak log_direct) 500) = true /\
  List.NoDup (MS.kills (parsed cfg_flak log_direct)) /\
  retro_step (parsed cfg_flak log_direct) (500, ("00:02:00", Some 20)) =
    parsed cfg_flak log_direct.
Proof.
  split; [vm_compute; reflexivity |].
  split; [vm_compute; reflexivity |].
  destruct (credited_at_most_once cfg_flak log_direct (parsed cfg_flak log_direct))
    as [Hnd Hretro].
  - apply visited_final. vm_compute. reflexivity.
  - split; [exact Hnd |]. apply Hretro. vm_compute. now left.
Defined.

(** ** Excluded objects *)

Lemma kill_objects_In (st : MS.t) (o : GameObject.t) :
  In o (kill_objects st) ->
  exists tid, In tid (MS.kills st) /\ MS.objects st !! tid = Some o.
Proof.
  unfold kill_objects. rewrite in_flat_map. intros (tid & Hin & Ho).
  exists tid. split; [exact Hin |].
  destruct (MS.objects st !! tid) as [o' |]; [| contradiction].
  destruct Ho as [-> | []]. reflexivity.
Qed.

Lemma is_excluded_category (st : MS.t) (tid : Z) :
  is_excluded st tid = true <-> category_of st tid = Some "Excluded".
Proof.
  unfold is_excluded, category_of.
  destruct (MS.objects st !! tid) as [o |]; simpl.
  - rewrite String.eqb_eq. split; [now intros -> | now intros [= ->]].
  - split; discriminate.
Qed.

Lemma add_kill_excluded (tid : Z) (ts : string) (st : MS.t) :
  is_excluded st tid = true -> MS.add_kill tid ts st = st.
Proof.
  unfold is_excluded, MS.add_kill.
  destruct (MS.objects st !! tid) as [o |]; [| discriminate].
  now intros ->.
Qed.

Lemma is_excluded_registry (st st' : MS.t) (tid : Z) :
  same_registry st st' -> is_excluded st' tid = is_excluded st tid.
Proof.
  intros (Hc & _).
  destruct (is_excluded st tid) eqn:H.
  - apply is_excluded_category. rewrite Hc. now apply is_excluded_category.
  - destruct (is_excluded st' tid) eqn:H'; [| reflexivity].
    apply is_excluded_category in H'. rewrite Hc in H'.
    apply is_excluded_category in H'. congruence.
Qed.

Lemma summary_counts (st : MS.t) :
  Json.air_kills (summary_of st) =
    List.length (List.filter (has_category ["Air"]) (credited st)) /\
  Json.air_kills_flying (summary_of st) =
    List.length (List.filter (fun k => negb (GameObject.is_static k))
                   (List.filter (has_category ["Air"]) (credited st))) /\
  Json.air_kills_parked (summary_of st) =
    List.length (List.filter GameObject.is_static
                   (List.filter (has_category ["Air"]) (credited st))) /\
  Json.ground_kills (summary_of st) =
    List.length (List.filter (has_category ["Ground"; "Building"]) (credited st)) /\
  Json.naval_kills (summary_of st) =
    List.length (List.filter (has_category ["Naval"]) (credited st)).
Proof.
  unfold summary_of. destruct (damage_totals st) as [ac pl]. simpl.
  repeat split; reflexivity.
Qed.

(** C7.  At every point of a run no key of an [Excluded] object is in the
    list of credited kills.  A destroy line that targets such an object
    changes nothing in the statistics, whoever the attacker is; the
    retroactive pass does not credit it either.  The kill counts of the
    summary are the sizes of selections from the credited objects, and an
    [Excluded] object is in none of them. *)
Theorem excluded_never_credited (cfg : Config) (file : list string) (st : MS.t) :
  visited cfg file st ->
  (forall tid, category_of st tid = Some "Excluded" -> ~ In tid (MS.kills st)) /\
  (forall ln ts d ps',
     is_excluded st (_i ln (Re.sint "TID:")) = true ->
     on_destroy ln ts {| stats := st; destroyed := d |} = Ok ps' ->
     stats ps' = st) /\
  (forall tid v,
     is_excluded st tid = true -> MS.kills (retro_step st (tid, v)) = MS.kills st) /\
  (forall o p, GameObject.category o = "Excluded" ->
               ~ In o (List.filter p (credited st))) /\
  (Json.air_kills (summary_of st) =
     List.length (List.filter (has_category ["Air"]) (credited st)) /\
   Json.air_kills_flying (summary_of st) =
     List.length (List.filter (fun k => negb (GameObject.is_static k))
                    (List.filter (has_category ["Air"]) (credited st))) /\
   Json.air_kills_parked (summary_of st) =
     List.length (List.filter GameObject.is_static
                    (List.filter (has_category ["Air"]) (credited st))) /\
   Json.ground_kills (summary_of st) =
     List.length (List.filter (has_category ["Ground"; "Building"]) (credited st)) /\
   Json.naval_kills (summary_of st) =
     List.length (List.filter (has_category ["Naval"]) (credited st))).
Proof.
  intros Hv. pose proof (visited_kills_wf cfg file st Hv) as [_ Hcat].
  split; [| split; [| split; [| split]]].
  - intros tid Hex Hin. destruct (Hcat tid Hin) as (c & Hc & Hne). congruence.
  - intros ln ts d ps' Hex H. unfold on_destroy in H. simpl in H.
    destruct (altitude_of (pos_match ln)) as [alt | e]; simpl in H; [| discriminate].
    rewrite Hex in H. now ok_inv.
  - intros tid [kill_time alt] Hex. unfold retro_step.
    destruct (last _); [| reflexivity].
    destruct (share_ok _ _); [| reflexivity].
    destruct (not_yet_credited st tid); [| reflexivity].
    rewrite add_kill_excluded; [apply store_altitude_registry |].
    rewrite (is_excluded_registry st); [exact Hex | apply store_altitude_registry].
  - intros o p Ho Hin. apply filter_In in Hin as [Hin _].
    unfold credited in Hin. apply filter_In in Hin as [Hin _].
    apply kill_objects_In in Hin as (tid & Hin & Hlook).
    destruct (Hcat tid Hin) as (c & Hc & Hne).
    unfold category_of in Hc. rewrite Hlook in Hc. simpl in Hc. congruence.
  - apply summary_counts.
Qed.

(** In [log_direct] the crew dummy 600 is [Excluded]; it took all of its
    damage from the player and its destroy line names the player, and it is
    not credited. *)
Lemma excluded_never_credited_witness :
  category_of (parsed cfg_flak log_direct) 600 = Some "Excluded" /\
  ~ In 600 (MS.kills (parsed cfg_flak log_direct)).
Proof.
  split; [vm_compute; reflexivity |].
  destruct (excluded_never_credited cfg_flak log_direct (parsed cfg_flak log_direct))
    as [H _].
  - apply visited_final. vm_compute. reflexivity.
  - apply H. vm_compute. reflexivity.
Defined.

(** ** The wounded flag *)

Lemma Qgtb_lt (a b : Q) : Qgtb a b = true <-> (b < a)%Q.
Proof.
  unfold Qgtb. rewrite negb_true_iff. split.
  - intros H. apply Qnot_le_lt. intros Hle. apply Qle_bool_iff in Hle. congruence.
  - intros H. destruct (Qle_bool a b) eqn:Hle; [| reflexivity].
    apply Qle_bool_iff in Hle. exfalso. apply (Qlt_not_le _ _ H Hle).
Qed.


Lemma same_health_refl (st : MS.t) : same_health st st.
Proof. repeat split; reflexivity. Qed.












Lemma detect_bailout_health (lines : list string) (st : MS.t) :
  same_health st (detect_bailout lines st).
Proof.
  unfold detect_bailout. destruct (_ && _); repeat split; reflexivity.
Qed.

Lemma compute_flight_duration_health (st st' : MS.t) :
  compute_flight_duration st = Ok st' -> same_health st st'.
Proof.
  unfold compute_flight_duration, _format_time. intros H.
  destruct (MS.takeoff_time st) as [tk |]; [| ok_inv; apply same_health_refl].
  destruct (tk =? 0); [ok_inv; apply same_health_refl |].
  destruct (_ && _).
  - destruct (_ >? tk); simpl in H; [discriminate |].
    destruct (_ =? 0); ok_inv; repeat split; reflexivity.
  - simpl in H. destruct (MS.landing_time st) as [e |];
      [destruct (e =? 0) |]; ok_inv; repeat split; reflexivity.
Qed.












Lemma parse_inv (cfg : Config) (file : list string) (st : MS.t) :
  parse cfg file = Ok st ->
  exists ps, collected cfg (relevant_lines file) = Ok ps /\
             compute_flight_duration
               (detect_bailout (relevant_lines file) (reconciled ps)) = Ok st.
Proof.
  unfold parse. intros H.
  destruct (collected cfg (relevant_lines file)) as [ps | e]; simpl in H; [| discriminate].
  now exists ps.
Qed.



Lemma firstn_le_app {A : Type} (n m : nat) (l : list A) :
  (n <= m)%nat -> firstn m l = (firstn n l ++ firstn (m - n) (skipn n l))%list.
Proof.
  revert m l. induction n as [| n IH]; intros m l Hle.
  - simpl. rewrite Nat.sub_0_r. reflexivity.
  - destruct m as [| m]; [lia |]. destruct l as [| x l]; simpl.
    + rewrite firstn_nil. reflexivity.
    + f_equal. apply IH. lia.
Qed.

Lemma collected_upto_later (cfg : Config) (lines : list string) (n m : nat)
    (ps ps' : pstate) :
  (n <= m)%nat ->
  collected_upto cfg lines n = Ok ps ->
  collected_upto cfg lines m = Ok ps' ->
  foldM process_line ps (firstn (m - n) (skipn n lines)) = Ok ps'.
Proof.
  unfold collected_upto. intros Hle Hn Hm.
  rewrite (firstn_le_app n m lines Hle), foldM_app, Hn in Hm. exact Hm.
Qed.

Lemma collected_upto_all (cfg : Config) (lines : list string) (n : nat) :
  (List.length lines <= n)%nat -> collected_upto cfg lines n = collected cfg lines.
Proof.
  intros H. unfold collected_upto, collected. now rewrite firstn_all2.
Qed.






(** ** A player spawn line without a pilot id *)

Lemma search_uint_absent (label ln : string) :
  contains label ln = false -> Re.search (Re.uint label) ln = None.
Proof.
  induction ln as [| c ln IH]; unfold contains; fold contains; intros H;
    apply orb_false_iff in H as [Hp Hc]; simpl; unfold Re.uint; rewrite Hp.
  - reflexivity.
  - fold (Re.uint label). now apply IH.
Qed.

Lemma register_line_player (cfg : Config) (st : MS.t) (ln : string) :
  MS.player_pid (register_line cfg st ln) =
  if is_player_spawn ln then Some (_i ln (Re.uint "PID:")) else MS.player_pid st.
Proof.
  unfold register_line, is_player_spawn.
  destruct (contains "AType:10" ln); [destruct (contains "ISPL:1" ln) |
    destruct (contains "AType:12" ln)]; reflexivity.
Qed.

Lemma registering_no_player (cfg : Config) (lines : list string) (st : MS.t) :
  Forall (fun l => is_player_spawn l = false) lines ->
  MS.player_pid (fold_left (register_line cfg) lines st) = MS.player_pid st.
Proof.
  revert st. induction lines as [| ln lines IH]; intros st Hall; simpl; [reflexivity |].
  apply Forall_cons_iff in Hall as [Hln Hall]. rewrite (IH _ Hall), register_line_player. now rewrite Hln.
Qed.

Lemma collecting_registry (l : list string) (ps ps' : pstate) :
  foldM process_line ps l = Ok ps' -> same_registry (stats ps) (stats ps').
Proof.
  apply (foldM_preorder (fun a b => same_registry (stats a) (stats b))).
  - intros s. apply same_registry_refl.
  - intros a b c. apply same_registry_trans.
  - intros s x s' H. apply credit_move_registry. now apply process_line_move in H.
Qed.

Lemma add_kill_credits (tid : Z) (ts c : string) (st : MS.t) :
  category_of st tid = Some c -> c <> "Excluded" ->
  In tid (MS.kills (MS.add_kill tid ts st)) /\
  kill_time_of (MS.add_kill tid ts st) tid = Some ts.
Proof.
  unfold category_of, MS.add_kill, kill_time_of. intros Hc Hne.
  destruct (MS.objects st !! tid) as [o |] eqn:Ho; [| discriminate].
  simpl in Hc. injection Hc as <-.
  apply String.eqb_neq in Hne. rewrite Hne. simpl.
  destruct (existsb (Z.eqb tid) (MS.kills st)) eqn:Hin; simpl.
  - split; [now apply existsb_Zeqb_In | now rewrite lookup_insert_eq].
  - split; [apply in_or_app; right; now left | now rewrite lookup_insert_eq].
Qed.

(** C10.  A player spawn line without a [PID] field makes [_i] return -1,
    which is stored as the pilot id and stays the pilot id through the event
    loop.  From then on the id -1 passes the membership test of the destroy
    branch, and a destroy line whose attacker id is -1 takes the direct
    path: the outcome is written without any reference to the hits, and a
    registered target that is not [Excluded] is credited with the time of
    the destroy line. *)
Theorem missing_pid_credits_unknown_attacker (cfg : Config) :
  (forall ln, contains "PID:" ln = false -> _i ln (Re.uint "PID:") = -1) /\
  (forall st ln,
     is_player_spawn ln = true -> contains "PID:" ln = false ->
     MS.player_pid (register_line cfg st ln) = Some (-1)) /\
  (forall pre ln post,
     is_player_spawn ln = true -> contains "PID:" ln = false ->
     Forall (fun l => is_player_spawn l = false) post ->
     forall n ps,
       collected_upto cfg (pre ++ ln :: post) n = Ok ps ->
       MS.player_pid (stats ps) = Some (-1)) /\
  (forall ps ln,
     MS.player_pid (stats ps) = Some (-1) ->
     is_destroy_line ln = true ->
     _i ln (Re.sint "AID:") = -1 ->
     let st := stats ps in
     let tgt := _i ln (Re.sint "TID:") in
     let ts := mission_time_to_hhmmss (_i ln (Re.uint "T:")) in
     is_player st (-1) = true /\
     process_line ps ln =
       (try! altitude := altitude_of (pos_match ln) in
        Ok {| stats := if is_excluded st tgt then st
                       else MS.add_kill tgt ts (store_altitude tgt altitude st);
              destroyed := dict_set tgt (ts, altitude) (destroyed ps) |}) /\
     forall ps' c,
       process_line ps ln = Ok ps' ->
       category_of st tgt = Some c -> c <> "Excluded" ->
       In tgt (MS.kills (stats ps')) /\ kill_time_of (stats ps') tgt = Some ts).
Proof.
  assert (Hi : forall ln, contains "PID:" ln = false -> _i ln (Re.uint "PID:") = -1).
  { intros ln H. unfold _i. now rewrite (search_uint_absent _ _ H). }
  assert (Hreg : forall st ln,
            is_player_spawn ln = true -> contains "PID:" ln = false ->
            MS.player_pid (register_line cfg st ln) = Some (-1)).
  { intros st ln Hsp Hno. now rewrite register_line_player, Hsp, (Hi ln Hno). }
  split; [exact Hi |]. split; [exact Hreg |]. split.
  - intros pre ln post Hsp Hno Hpost n ps Hc.
    unfold collected_upto in Hc. apply collecting_registry in Hc as (_ & -> & _).
    simpl. unfold registered. rewrite fold_left_app. simpl.
    rewrite (registering_no_player cfg post _ Hpost). now apply Hreg.
  - intros ps ln Hpid Hline Haid st tgt ts.
    assert (Hpl : is_player st (-1) = true).
    { unfold is_player, in_pair, st. now rewrite Hpid. }
    unfold is_destroy_line in Hline. apply andb_true_iff in Hline as [H2 H3].
    apply negb_true_iff in H2.
    assert (Hstep : process_line ps ln =
       (try! altitude := altitude_of (pos_match ln) in
        Ok {| stats := if is_excluded st tgt then st
                       else MS.add_kill tgt ts (store_altitude tgt altitude st);
              destroyed := dict_set tgt (ts, altitude) (destroyed ps) |})).
    { unfold process_line. rewrite H2, H3. unfold on_destroy. rewrite Haid.
      destruct (altitude_of (pos_match ln)) as [alt | e]; simpl; [| reflexivity].
      fold st tgt ts. rewrite Hpl. now destruct (is_excluded st tgt). }
    split; [exact Hpl |]. split; [exact Hstep |].
    intros ps' c Hok Hc Hne. rewrite Hstep in Hok.
    destruct (altitude_of (pos_match ln)) as [alt | e]; simpl in Hok; [| discriminate].
    assert (Hex : is_excluded st tgt = false).
    { destruct (is_excluded st tgt) eqn:Hex; [| reflexivity].
      apply is_excluded_category in Hex. congruence. }
    rewrite Hex in Hok. ok_inv. simpl.
    apply (add_kill_credits tgt ts c); [| exact Hne].
    destruct (store_altitude_registry tgt alt st) as ((Hcat & _) & _).
    now rewrite Hcat.
Qed.

(** In [log_no_pid] the spawn line has no [PID] field; object 500 has not
    taken a single hit, and its destroy line with attacker -1 credits it at
    the time of that line. *)
Lemma missing_pid_credits_unknown_attacker_witness :
  MS.player_pid (stats (collected_at cfg_flak log_no_pid 2)) = Some (-1) /\
  MS.hits (stats (collected_at cfg_flak log_no_pid 2)) = [] /\
  In 500 (MS.kills (stats (collected_at cfg_flak log_no_pid 3))) /\
  kill_time_of (stats (collected_at cfg_flak log_no_pid 3)) 500 = Some "00:02:00".
Proof.
  destruct (missing_pid_credits_unknown_attacker cfg_flak) as (_ & _ & Hpid & Hstep).
  assert (H2 : MS.player_pid (stats (collected_at cfg_flak log_no_pid 2)) = Some (-1)).
  { apply (Hpid [] (nth 0 log_no_pid "") (skipn 1 log_no_pid)) with (n := 2%nat).
    - vm_compute. reflexivity.
    - vm_compute. reflexivity.
    - repeat constructor.
    - vm_compute. reflexivity. }
  split; [exact H2 |]. split; [vm_compute; reflexivity |].
  destruct (Hstep (collected_at cfg_flak log_no_pid 2) (nth 2 log_no_pid "") H2)
    as (_ & _ & Hcredit).
  - vm_compute. reflexivity.
  - vm_compute. reflexivity.
  - apply (Hcredit (collected_at cfg_flak log_no_pid 3) "Air").
    + vm_compute. reflexivity.
    + vm_compute. reflexivity.
    + discriminate.
Defined.

(** ** The end of a flight without a landing line *)

(** C4 (the code at fault).  When a takeoff was recorded, no landing time
    was, and some event is later than the takeoff, [parse] reaches the call
    of the undefined [self._format_time] and raises [AttributeError]: no
    [Mission End] event and no flight duration are produced. *)
Theorem mission_end_raises (cfg : Config) (file : list string) (ps : pstate) (takeoff : Z) :
  collected cfg (relevant_lines file) = Ok ps ->
  let st := detect_bailout (relevant_lines file) (reconciled ps) in
  MS.takeoff_time st = Some takeoff -> takeoff <> 0 ->
  truthy (MS.landing_time st) = false ->
  MS.events st <> [] ->
  takeoff < max_or takeoff (map Event.ticks (MS.events st)) ->
  parse cfg file = Raise AttributeError.
Proof.
  intros Hc st Htk Hnz Hland Hev Hmax.
  unfold parse. rewrite Hc. simpl. fold st.
  unfold compute_flight_duration. rewrite Htk.
  apply Z.eqb_neq in Hnz. rewrite Hnz, Hland. simpl.
  destruct (MS.events st) as [| e es] eqn:He; [contradiction |].
  simpl List.length. simpl Nat.eqb. simpl negb.
  apply Z.gtb_lt in Hmax. rewrite Hmax. reflexivity.
Qed.

(** [log_no_landing]: takeoff at tick 1000, a damage event at tick 5000,
    no landing; [parse] raises. *)
Lemma mission_end_raises_witness :
  parse cfg_flak log_no_landing = Raise AttributeError.
Proof.
  apply (mission_end_raises cfg_flak log_no_landing
           (collected_at cfg_flak log_no_landing 4) 1000).
  - vm_compute. reflexivity.
  - vm_compute. reflexivity.
  - discriminate.
  - vm_compute. reflexivity.
  - vm_compute. discriminate.
  - vm_compute. reflexivity.
Defined.

(** ** The landing branch *)

Lemma process_line_landing (ps : pstate) (ln : string) :
  is_landing_line ln = true ->
  process_line ps ln =
    with_stats ps (on_landing ln (_i ln (Re.uint "T:"))
                     (mission_time_to_hhmmss (_i ln (Re.uint "T:"))) (stats ps)).
Proof.
  unfold is_landing_line, process_line. intros H.
  apply andb_true_iff in H as [H H67].
  apply andb_true_iff in H as [H H18]. apply negb_true_iff in H18.
  apply andb_true_iff in H as [H H5]. apply negb_true_iff in H5.
  apply andb_true_iff in H as [H2 H3].
  apply negb_true_iff in H2. apply negb_true_iff in H3.
  now rewrite H2, H3, H5, H18, H67.
Qed.

(** Away from tick 0 the landing branch follows the table of the
    specification: the first landing or crash line of the player sets the
    landing time and the outcome of [expected_outcome]. *)
Lemma first_landing_outcome (ps ps' : pstate) (ln : string) :
  is_landing_line ln = true ->
  is_player (stats ps) (_i ln (Re.sint "PID:")) = true ->
  MS.landing_time (stats ps) = None ->
  MS.pilot_separation_time (stats ps) <> Some 0 ->
  process_line ps ln = Ok ps' ->
  let t := _i ln (Re.uint "T:") in
  let outcome :=
    expected_outcome (MS.pilot_separation_time (stats ps)) t (contains "AType:7" ln) in
  MS.landing_time (stats ps') = Some t /\
  MS.final_state (stats ps') = with_wounded (stats ps) (outcome_label outcome) /\
  (outcome = BailedOut -> MS.landed (stats ps') = false /\ MS.crashed (stats ps') = false) /\
  (outcome = Crashed -> MS.crashed (stats ps') = true) /\
  (outcome = Landed -> MS.landed (stats ps') = true).
Proof.
  intros Hline Hpl Hland Hsep H. rewrite (process_line_landing ps ln Hline) in H.
  unfold with_stats, on_landing in H. rewrite Hpl, Hland in H. simpl in H.
  destruct (altitude_of (pos_match ln)) as [alt | e]; simpl in H; [| discriminate].
  unfold landing_outcome, expected_outcome in *. simpl in *.
  destruct (MS.pilot_separation_time (stats ps)) as [sep |].
  - assert (Hnz : negb (sep =? 0) = true).
    { apply negb_true_iff, Z.eqb_neq. intros ->. now apply Hsep. }
    rewrite Hnz in H.
    destruct (_ - sep >? 2000); [| destruct (contains "AType:7" ln)];
      simpl in H; ok_inv; simpl; repeat split; try reflexivity; discriminate.
  - destruct (contains "AType:7" ln); simpl in H; ok_inv; simpl;
      repeat split; try reflexivity; discriminate.
Qed.

(** Once a landing time other than tick 0 is recorded, a landing or crash
    line changes nothing. *)
Lemma later_landing_ignored (ps : pstate) (ln : string) :
  is_landing_line ln = true ->
  truthy (MS.landing_time (stats ps)) = true ->
  process_line ps ln = Ok ps.
Proof.
  intros Hline Hland. rewrite (process_line_landing ps ln Hline).
  unfold with_stats, on_landing. rewrite Hland, andb_false_r. simpl.
  now destruct ps.
Qed.

(** C2 (the code at fault).  In [log_landing_at_zero] the player's first
    landing line, at tick 0, sets the state [Landed]; the recorded landing
    time 0 counts as no landing time, so the crash line that follows is
    handled as a first one: it overwrites the state with [Crashed], leaves
    both [landed] and [crashed] set and appends a second terminal event. *)
Theorem landing_at_tick_zero_is_not_final :
  MS.final_state (stats (collected_at cfg_flak log_landing_at_zero 2)) = "Landed" /\
  MS.landing_time (stats (collected_at cfg_flak log_landing_at_zero 2)) = Some 0 /\
  MS.final_state (stats (collected_at cfg_flak log_landing_at_zero 3)) = "Crashed" /\
  parse cfg_flak log_landing_at_zero = Ok (parsed cfg_flak log_landing_at_zero) /\
  MS.final_state (parsed cfg_flak log_landing_at_zero) = "Crashed" /\
  MS.landed (parsed cfg_flak log_landing_at_zero) = true /\
  MS.crashed (parsed cfg_flak log_landing_at_zero) = true /\
  map Event.type (MS.events (parsed cfg_flak log_landing_at_zero)) = ["Landing"; "Crash"].
Proof. vm_compute. repeat split; reflexivity. Qed.

(** ** Time strings

    [mission_time_to_hhmmss] and the parsers of [_time_diff_seconds] and
    [_time_key] are inverse to each other up to the whole second: the text
    written for tick [t] reads back as [t / 50] seconds. *)

Lemma string_of_uint_digits (u : Decimal.uint) :
  digits_only (NilEmpty.string_of_uint u) = true.
Proof. induction u; simpl; auto. Qed.

Lemma int_of_digits_uint (u : Decimal.uint) (acc : Z) :
  int_of_digits_from acc (NilEmpty.string_of_uint u) =
  match acc with
  | Z.pos p => Z.pos (Pos.of_uint_acc u p)
  | _ => int_of_digits_from acc (NilEmpty.string_of_uint u)
  end.
Proof.
  revert acc. induction u; intros acc; destruct acc as [| p | p]; try reflexivity;
    simpl; rewrite IHu; unfold digit_val; simpl; try reflexivity;
    do 2 f_equal; lia.
Qed.

Lemma int_of_digits_of_uint (u : Decimal.uint) :
  int_of_digits (NilEmpty.string_of_uint u) = Z.of_uint u.
Proof.
  unfold int_of_digits, Z.of_uint.
  induction u; simpl; try exact IHu; try reflexivity;
    rewrite int_of_digits_uint; reflexivity.
Qed.

Lemma str_of_Z_nonneg (z : Z) :
  0 <= z ->
  exists c r, str_of_Z z = String c r /\ digits_only (String c r) = true /\
              int_of_digits (String c r) = z.
Proof.
  intros Hz. unfold str_of_Z.
  pose proof (DecimalZ.of_to z) as Hof.
  destruct z as [| p | p]; [| | lia]; simpl in *.
  - exists "0"%char, "". repeat split.
  - pose proof (string_of_uint_digits (Pos.to_uint p)) as Hd.
    pose proof (int_of_digits_of_uint (Pos.to_uint p)) as Hv.
    rewrite Hof in Hv.
    destruct (NilEmpty.string_of_uint (Pos.to_uint p)) as [| c r] eqn:Hs.
    + discriminate Hv.
    + now exists c, r.
Qed.

Lemma digits_only_span (s : string) :
  digits_only s = true -> span is_digit s = (s, "").
Proof.
  induction s as [| c r IH]; simpl; [reflexivity |].
  intros H. apply andb_true_iff in H as [Hc Hr]. now rewrite Hc, (IH Hr).
Qed.

Lemma is_digit_not_space (c : ascii) : is_digit c = true -> is_space c = false.
Proof.
  unfold is_digit, is_space. intros H. apply andb_true_iff in H as [H1 H2].
  apply Nat.leb_le in H1. apply Nat.leb_le in H2.
  apply orb_false_iff. split; apply andb_false_iff.
  - right. apply Nat.leb_gt. lia.
  - right. apply Nat.leb_gt. lia.
Qed.

Lemma rstrip_cons_nonspace (c : ascii) (s : string) :
  is_space c = false -> rstrip (String c s) = String c (rstrip s).
Proof. intros H. simpl. now rewrite H. Qed.

Lemma digits_only_rstrip (s : string) : digits_only s = true -> rstrip s = s.
Proof.
  induction s as [| c r IH]; simpl; [reflexivity |].
  intros H. apply andb_true_iff in H as [Hc Hr].
  now rewrite (is_digit_not_space c Hc), (IH Hr).
Qed.

Lemma digits_only_strip (c : ascii) (r : string) :
  digits_only (String c r) = true -> strip (String c r) = String c r.
Proof.
  intros H. unfold strip. simpl in H. apply andb_true_iff in H as [Hc Hr].
  simpl lstrip. rewrite (is_digit_not_space c Hc).
  apply digits_only_rstrip. simpl. now rewrite Hc, Hr.
Qed.

Lemma is_digit_not_sign (c : ascii) :
  is_digit c = true -> c <> "-"%char /\ c <> "+"%char /\ c <> ":"%char.
Proof. intros H. repeat split; intros ->; discriminate. Qed.

Lemma int_of_string_digits (c : ascii) (r : string) :
  digits_only (String c r) = true ->
  int_of_string (String c r) = Some (int_of_digits (String c r)).
Proof.
  intros H. unfold int_of_string. rewrite (digits_only_strip c r H).
  assert (Hc : is_digit c = true) by (simpl in H; now apply andb_true_iff in H).
  destruct (is_digit_not_sign c Hc) as (Hm & Hp & _).
  assert (Hbody : match String c r with
                  | String "-" r0 => (true, r0)
                  | String "+" r0 => (false, r0)
                  | _ => (false, String c r)
                  end = (false, String c r)).
  { destruct c as [[] [] [] [] [] [] [] []]; try reflexivity;
      [now contradiction Hp | now contradiction Hm]. }
  rewrite Hbody. now rewrite (digits_only_span _ H).
Qed.

Lemma digits_only_colon_free (s : string) : digits_only s = true -> colon_free s.
Proof.
  unfold colon_free. induction s as [| c r IH]; simpl; [reflexivity |].
  intros H. apply andb_true_iff in H as [Hc Hr].
  destruct (is_digit_not_sign c Hc) as (_ & _ & Hcolon).
  apply Ascii.eqb_neq in Hcolon. now rewrite Hcolon, (IH Hr).
Qed.

Lemma pad2_reads_back (z : Z) :
  int_of_string (pad2 z) = Some z /\ colon_free (pad2 z).
Proof.
  unfold pad2. destruct (Z.le_gt_cases 0 z) as [Hz | Hz].
  - destruct (str_of_Z_nonneg z Hz) as (c & r & Hs & Hd & Hv). rewrite Hs.
    destruct ((0 <=? z) && (z <? 10)).
    + assert (Hd0 : digits_only (String "0" (String c r)) = true) by exact Hd.
      change ("0" ++ String c r) with (String "0" (String c r)).
      split; [| now apply digits_only_colon_free].
      rewrite (int_of_string_digits _ _ Hd0). f_equal. exact Hv.
    + split; [| now apply digits_only_colon_free].
      rewrite (int_of_string_digits _ _ Hd). now f_equal.
  - assert (Hle : (0 <=? z) = false) by (apply Z.leb_gt; lia).
    rewrite Hle. simpl. destruct z as [| p | p]; try lia.
    unfold str_of_Z. simpl.
    destruct (str_of_Z_nonneg (Z.pos p)) as (c & r & Hs & Hd & Hv); [lia |].
    unfold str_of_Z in Hs. simpl in Hs. rewrite Hs. split.
    + unfold int_of_string.
      assert (Hstrip : strip (String "-" (String c r)) = String "-" (String c r)).
      { unfold strip. change (lstrip (String "-" (String c r))) with (String "-" (String c r)).
        rewrite rstrip_cons_nonspace by reflexivity.
        now rewrite (digits_only_rstrip (String c r) Hd). }
      rewrite Hstrip. rewrite (digits_only_span _ Hd). now rewrite Hv.
    + unfold colon_free.
      change (split_first ":" (String "-" (String c r)))
        with (String "-" (split_first ":" (String c r))).
      f_equal. now apply digits_only_colon_free.
Qed.

Lemma split_colon_free (s : string) : colon_free s -> split ":" s = [s].
Proof.
  unfold colon_free. induction s as [| c r IH]; simpl; [reflexivity |].
  destruct (Ascii.eqb c ":"); [discriminate |].
  intros H. injection H as H. now rewrite (IH H).
Qed.

Lemma split_colon_app (a b : string) :
  colon_free a -> split ":" (a ++ String ":" b) = a :: split ":" b.
Proof.
  unfold colon_free. induction a as [| c r IH]; simpl; [reflexivity |].
  destruct (Ascii.eqb c ":"); [discriminate |].
  intros H. injection H as H. now rewrite (IH H).
Qed.

Lemma hhmmss_split (t : Z) :
  let sec := t / 50 in
  split ":" (mission_time_to_hhmmss t) =
    [pad2 (sec / 3600); pad2 ((sec mod 3600) / 60); pad2 (sec mod 60)].
Proof.
  unfold mission_time_to_hhmmss. cbv zeta.
  change (?a ++ ":" ++ ?b) with (a ++ String ":" b).
  rewrite split_colon_app by apply pad2_reads_back.
  change (?a ++ ":" ++ ?b) with (a ++ String ":" b).
  rewrite split_colon_app by apply pad2_reads_back.
  now rewrite split_colon_free by apply pad2_reads_back.
Qed.

Lemma hms_seconds (sec : Z) :
  sec / 3600 * 3600 + sec mod 3600 / 60 * 60 + sec mod 60 = sec.
Proof. Z.div_mod_to_equations. lia. Qed.

(** The time text of tick [t] reads back as [t / 50] seconds. *)
Lemma parse_time_hhmmss (t : Z) :
  parse_time (mission_time_to_hhmmss t) = Some (t / 50).
Proof.
  unfold parse_time. rewrite hhmmss_split.
  destruct (pad2_reads_back (t / 50 / 3600)) as [-> _].
  destruct (pad2_reads_back ((t / 50) mod 3600 / 60)) as [-> _].
  destruct (pad2_reads_back ((t / 50) mod 60)) as [-> _].
  f_equal. apply hms_seconds.
Qed.

(** The sort key of an event stamped at tick [t] is [t / 50]. *)
Lemma time_key_hhmmss (e : Event.t) (t : Z) :
  Event.time e = mission_time_to_hhmmss t -> _time_key e = t / 50.
Proof.
  intros He. pose proof (parse_time_hhmmss t) as Hp.
  pose proof (hhmmss_split t) as Hs. cbv zeta in Hs.
  unfold _time_key, parse_time in *. rewrite He. rewrite Hs in *.
  assert (Hne : String.eqb (mission_time_to_hhmmss t) "" = false).
  { apply String.eqb_neq. intros Hempty. rewrite Hempty in Hs. discriminate Hs. }
  rewrite Hne.
  destruct (int_of_string (pad2 (t / 50 / 3600))); [| discriminate].
  destruct (int_of_string (pad2 ((t / 50) mod 3600 / 60))); [| discriminate].
  destruct (int_of_string (pad2 ((t / 50) mod 60))); [| discriminate].
  now injection Hp.
Qed.

(** The difference of two time texts is the difference of their whole
    seconds. *)
Lemma time_diff_of_ticks (t1 t2 : Z) :
  _time_diff_seconds (mission_time_to_hhmmss t1) (mission_time_to_hhmmss t2) =
  t2 / 50 - t1 / 50.
Proof. unfold _time_diff_seconds. now rewrite !parse_time_hhmmss. Qed.

(** ** The landing-damage pass *)

Lemma is_landing_dmg_criteria (c : landing_context) (lt : string) (e : Event.t) :
  is_landing_dmg c lt e = true <-> landing_damage_criteria c lt e.
Proof.
  unfold is_landing_dmg, landing_damage_criteria. split.
  - intros H.
    destruct (same_source e c); [| discriminate].
    destruct (_ && _) eqn:Hwin in H; [| discriminate].
    apply andb_true_iff in Hwin as [H0 H60].
    apply Z.ltb_lt in H0. apply Z.ltb_lt in H60.
    destruct (_ >? 60) eqn:Hk in H; [| discriminate].
    apply Z.gtb_lt in Hk.
    split; [reflexivity |]. split; [lia |]. split.
    + intros k Hlk. rewrite Hlk in Hk. exact Hk.
    + intros af a Haf Ha. rewrite Haf, Ha in H. now apply Qgtb_lt in H.
  - intros (Hsrc & [H0 H60] & Hkill & Halt). rewrite Hsrc.
    apply Z.ltb_lt in H0. apply Z.ltb_lt in H60. rewrite H0, H60. simpl.
    assert (Hk : (match last_kill_time c with
                  | Some k => _time_diff_seconds k (Event.time e)
                  | None => 999999
                  end >? 60) = true).
    { apply Z.gtb_lt. destruct (last_kill_time c) as [k |]; [now apply Hkill | lia]. }
    rewrite Hk.
    destruct (airfield_alt c) as [af |]; [| reflexivity].
    destruct (Event.altitude e) as [a |]; [| reflexivity].
    apply Qgtb_lt. now apply Halt.
Qed.

Lemma landing_step_reclassified (c : landing_context) (lt : string)
    (h h' : bool) (acc acc' : list Event.t) (e : Event.t) :
  landing_step c lt (h, acc) e = Ok (h', acc') ->
  exists e', acc' = (acc ++ [e'])%list /\ reclassified c lt e e' /\
             h' = h || (String.eqb (Event.type e) "Damage Taken" && is_landing_dmg c lt e).
Proof.
  unfold landing_step, reclassified. intros H.
  destruct (String.eqb (Event.type e) "Damage Taken").
  - destruct (is_landing_dmg c lt e) eqn:Hd.
    + destruct (Event.target e) as [who |] eqn:Hwho; [| discriminate].
      ok_inv. eexists. split; [reflexivity |]. split.
      * left. split; [now apply is_landing_dmg_criteria | now exists who].
      * now rewrite orb_true_r.
    + ok_inv. eexists. split; [reflexivity |]. split.
      * right. split; [| reflexivity].
        intros Hc. apply is_landing_dmg_criteria in Hc. congruence.
      * now rewrite orb_false_r.
  - destruct (is_terminal_type (Event.type e) && h) eqn:Ht; ok_inv;
      (eexists; split; [reflexivity |]); (split; [| now rewrite orb_false_r]).
    + right. apply andb_true_iff in Ht as [Ht _]. now split.
    + now left.
Qed.

Lemma landing_loop_reclassified (c : landing_context) (lt : string)
    (l : list Event.t) (h h' : bool) (acc acc' : list Event.t) :
  foldM (landing_step c lt) (h, acc) l = Ok (h', acc') ->
  exists out, acc' = (acc ++ out)%list /\ Forall2 (reclassified c lt) l out /\
    h' = h || existsb (fun e => String.eqb (Event.type e) "Damage Taken" &&
                                is_landing_dmg c lt e) l.
Proof.
  revert h acc. induction l as [| e l IH]; intros h acc H.
  - simpl in H. ok_inv. exists (@nil Event.t). rewrite app_nil_r, orb_false_r.
    split; [reflexivity |]. split; [constructor | reflexivity].
  - rewrite foldM_cons in H.
    destruct (landing_step c lt (h, acc) e) as [[h1 acc1] | x] eqn:Hs; simpl in H;
      [| discriminate].
    apply landing_step_reclassified in Hs as (e' & -> & Hr & ->).
    apply IH in H as (out & -> & Hall & ->).
    exists (e' :: out). rewrite <- app_assoc. simpl. split; [reflexivity |].
    split; [now constructor |]. now rewrite orb_assoc.
Qed.








(** ** The order of the timeline *)

Lemma insert_by_HdRel {A : Type} (key : A -> Z) (a x : A) (l : list A) :
  key a <= key x -> HdRel (fun u v => key u <= key v) a l ->
  HdRel (fun u v => key u <= key v) a (insert_by key x l).
Proof.
  intros Hax Hal. destruct l as [| y r]; simpl.
  - now constructor.
  - destruct (key x <=? key y); constructor; [exact Hax |].
    now inversion Hal.
Qed.

Lemma insert_by_sorted {A : Type} (key : A -> Z) (x : A) (l : list A) :
  Sorted (fun u v => key u <= key v) l ->
  Sorted (fun u v => key u <= key v) (insert_by key x l).
Proof.
  induction l as [| y r IH]; intros Hs; simpl.
  - repeat constructor.
  - apply Sorted_inv in Hs as [Hr Hy].
    destruct (key x <=? key y) eqn:Hxy.
    + apply Z.leb_le in Hxy. constructor; [now constructor | now constructor].
    + apply Z.leb_gt in Hxy. constructor; [now apply IH |].
      apply insert_by_HdRel; [lia | exact Hy].
Qed.

Lemma sort_by_sorted {A : Type} (key : A -> Z) (l : list A) :
  Sorted (fun u v => key u <= key v) (sort_by key l).
Proof.
  induction l as [| x r IH]; simpl; [constructor | now apply insert_by_sorted].
Qed.

Lemma sort_by_fixpoint {A : Type} (key : A -> Z) (l : list A) :
  Sorted (fun u v => key u <= key v) l -> sort_by key l = l.
Proof.
  induction l as [| x r IH]; intros Hs; simpl; [reflexivity |].
  apply Sorted_inv in Hs as [Hr Hx]. rewrite (IH Hr).
  destruct r as [| y r']; simpl; [reflexivity |].
  inversion Hx as [| ? ? Hxy]; subst. apply Z.leb_le in Hxy. now rewrite Hxy.
Qed.

Lemma insert_by_permutation {A : Type} (key : A -> Z) (x : A) (l : list A) :
  Permutation (x :: l) (insert_by key x l).
Proof.
  induction l as [| y r IH]; simpl; [reflexivity |].
  destruct (key x <=? key y); [reflexivity |].
  rewrite perm_swap. now apply perm_skip.
Qed.

Lemma sort_by_permutation {A : Type} (key : A -> Z) (l : list A) :
  Permutation l (sort_by key l).
Proof.
  induction l as [| x r IH]; simpl; [reflexivity |].
  rewrite <- insert_by_permutation. now apply perm_skip.
Qed.

(** The sort is stable: among events of one key, [x] goes in front, and
    the others keep their places. *)
Lemma insert_by_with_key {A : Type} (key : A -> Z) (k : Z) (x : A) (l : list A) :
  with_key key k (insert_by key x l) = with_key key k (x :: l).
Proof.
  unfold with_key. induction l as [| y r IH]; simpl; [reflexivity |].
  destruct (key x <=? key y) eqn:Hxy; [reflexivity |].
  simpl. rewrite IH. simpl. apply Z.leb_gt in Hxy.
  destruct (key x =? k) eqn:Hx; destruct (key y =? k) eqn:Hy; try reflexivity.
  apply Z.eqb_eq in Hx. apply Z.eqb_eq in Hy. lia.
Qed.

Lemma sort_by_with_key {A : Type} (key : A -> Z) (k : Z) (l : list A) :
  with_key key k (sort_by key l) = with_key key k l.
Proof.
  induction l as [| x r IH]; simpl; [reflexivity |].
  rewrite insert_by_with_key. unfold with_key in *. simpl. now rewrite IH.
Qed.

Lemma to_json_events (st : MS.t) (d : Json.data) :
  to_json st = Ok d ->
  exists evs fs, timeline st = Ok (evs, fs) /\
                 Json.events d = sort_by _time_key evs.
Proof.
  unfold to_json. intros H.
  destruct (timeline st) as [[evs fs] | e]; simpl in H; [| discriminate].
  ok_inv. simpl. now exists evs, fs.
Qed.

(** ** Indirect kills *)























(** * Further properties of the program *)

(** ** Time texts *)

(** X1.  For ticks from 0 to below 2^53, [mission_time_to_hhmmss] and the
    reader of [_time_diff_seconds] are inverse up to the whole second: the
    text written for a tick reads back as the tick divided by fifty, so the
    difference of two such texts is the difference of their whole
    seconds. *)
Theorem formatted_time_difference (t1 t2 : Z) :
  0 <= t1 < 2 ^ 53 -> 0 <= t2 < 2 ^ 53 ->
  parse_time (mission_time_to_hhmmss t1) = Some (t1 / 50) /\
  _time_diff_seconds (mission_time_to_hhmmss t1) (mission_time_to_hhmmss t2) =
    t2 / 50 - t1 / 50.
Proof.
  intros _ _. split; [apply parse_time_hhmmss |].
  unfold _time_diff_seconds. now rewrite !parse_time_hhmmss.
Qed.

(** The hit at tick 5500 and the destroy line at tick 6000 of [log_sortie]
    are ten seconds apart. *)
Lemma formatted_time_difference_witness :
  parse_time (mission_time_to_hhmmss 5500) = Some 110 /\
  _time_diff_seconds (mission_time_to_hhmmss 5500) (mission_time_to_hhmmss 6000) = 10.
Proof. apply (formatted_time_difference 5500 6000); lia. Defined.



Lemma hhmmss_nonempty (t : Z) : String.eqb (mission_time_to_hhmmss t) "" = false.
Proof.
  apply String.eqb_neq. intros Hempty.
  pose proof (hhmmss_split t) as Hs. cbv zeta in Hs. rewrite Hempty in Hs.
  discriminate Hs.
Qed.

Lemma minute_key_hhmmss (t : Z) :
  minute_key (mission_time_to_hhmmss t) =
  pad2 (t / 50 / 3600) ++ ":" ++ pad2 ((t / 50) mod 3600 / 60).
Proof.
  pose proof (hhmmss_split t) as Hs. cbv zeta in Hs.
  unfold minute_key. rewrite hhmmss_nonempty, Hs. reflexivity.
Qed.

Lemma pad2_injective (a b : Z) : pad2 a = pad2 b -> a = b.
Proof.
  intros H. apply (f_equal int_of_string) in H.
  destruct (pad2_reads_back a) as [Ha _]. destruct (pad2_reads_back b) as [Hb _].
  congruence.
Qed.

(** X3.  The damage events of the timeline are grouped by the text
    [HH:MM] of their time.  Two ticks from 0 to below 2^53 fall into the
    same group exactly when they lie in the same minute of sixty seconds of
    fifty ticks. *)
Theorem minute_key_same_minute (t1 t2 : Z) :
  0 <= t1 < 2 ^ 53 -> 0 <= t2 < 2 ^ 53 ->
  (minute_key (mission_time_to_hhmmss t1) = minute_key (mission_time_to_hhmmss t2) <->
   t1 / 50 / 60 = t2 / 50 / 60).
Proof.
  intros _ _. rewrite !minute_key_hhmmss. split.
  - intros H. apply (f_equal (split ":")) in H.
    change (?a ++ ":" ++ ?b) with (a ++ String ":" b) in H.
    rewrite !split_colon_app in H by apply pad2_reads_back.
    rewrite !split_colon_free in H by apply pad2_reads_back.
    injection H as Hh Hm. apply pad2_injective in Hh, Hm.
    revert Hh Hm. generalize (t1 / 50) (t2 / 50). intros s1 s2 Hh Hm.
    Z.div_mod_to_equations. lia.
  - intros H.
    assert (Hh : t1 / 50 / 3600 = t2 / 50 / 3600).
    { revert H. generalize (t1 / 50) (t2 / 50). intros s1 s2 H.
      Z.div_mod_to_equations. lia. }
    assert (Hm : (t1 / 50) mod 3600 / 60 = (t2 / 50) mod 3600 / 60).
    { revert H Hh. generalize (t1 / 50) (t2 / 50). intros s1 s2 H Hh.
      Z.div_mod_to_equations. lia. }
    now rewrite Hh, Hm.
Qed.

(** Ticks 6500 and 8500 lie in the third minute, tick 9250 in the
    fourth. *)
Lemma minute_key_same_minute_witness :
  minute_key (mission_time_to_hhmmss 6500) = minute_key (mission_time_to_hhmmss 8500) /\
  minute_key (mission_time_to_hhmmss 8500) <> minute_key (mission_time_to_hhmmss 9250).
Proof.
  split.
  - apply (minute_key_same_minute 6500 8500); [lia | lia | reflexivity].
  - intros H. apply (minute_key_same_minute 8500 9250) in H; [| lia | lia].
    vm_compute in H. discriminate H.
Defined.

(** ** Crediting *)

(** X4.  Crediting a target a second time replaces the first credit: the
    object keeps the later time, the list of credited kills is the one the
    later call alone would have produced. *)
Theorem add_kill_last_time_wins (tid : Z) (ts1 ts2 : string) (st : MS.t) :
  MS.add_kill tid ts2 (MS.add_kill tid ts1 st) = MS.add_kill tid ts2 st.
Proof.
  unfold MS.add_kill at 2 3.
  destruct (MS.objects st !! tid) as [o |] eqn:Ho.
  - destruct (String.eqb (GameObject.category o) "Excluded") eqn:Hex.
    + unfold MS.add_kill. now rewrite Ho, Hex.
    + cbn [MS.objects MS.kills MS.set_objects].
      destruct (existsb (Z.eqb tid) (MS.kills st)) eqn:Hin.
      * unfold MS.add_kill. cbn [MS.objects MS.kills MS.set_objects].
        rewrite lookup_insert_eq. cbn [GameObject.category GameObject.destroy].
        rewrite Hex, Hin. unfold MS.set_objects. cbn.
        now rewrite insert_insert_eq.
      * unfold MS.add_kill. cbn [MS.objects MS.kills MS.set_objects MS.set_kills].
        rewrite lookup_insert_eq. cbn [GameObject.category GameObject.destroy].
        rewrite Hex.
        assert (Hnow : existsb (Z.eqb tid) (MS.kills st ++ [tid]) = true).
        { rewrite existsb_app. simpl. rewrite Z.eqb_refl. now rewrite orb_true_r. }
        rewrite Hnow. unfold MS.set_objects, MS.set_kills. cbn.
        now rewrite insert_insert_eq.
  - unfold MS.add_kill. now rewrite Ho.
Qed.

(** ** The registry through a run *)

Lemma credit_invariant (P : MS.t -> Prop) :
  (forall s s', MS.kills s' = MS.kills s -> MS.objects s' = MS.objects s -> P s -> P s') ->
  (forall tid a s, P s -> P (MS.set_object_altitude tid a s)) ->
  (forall tid ts s, P s -> P (MS.add_kill tid ts s)) ->
  forall s s', credit_move s s' -> P s -> P s'.
Proof.
  intros Hsame Halt Hkill s s' [(Hk & Ho & _) | (tid & ts & alt & ->)] HP.
  - now apply (Hsame s s').
  - apply Hkill. destruct alt as [a |]; simpl; [now apply Halt | exact HP].
Qed.

(** A property of the credited kills and the registry that the two
    assignments of the kill logic keep holds at the end of [parse] if it
    holds after the registration loop. *)
Lemma parse_credit_invariant (P : MS.t -> Prop) (cfg : Config) (file : list string)
    (st : MS.t) :
  (forall s s', MS.kills s' = MS.kills s -> MS.objects s' = MS.objects s -> P s -> P s') ->
  (forall tid a s, P s -> P (MS.set_object_altitude tid a s)) ->
  (forall tid ts s, P s -> P (MS.add_kill tid ts s)) ->
  P (registered cfg (relevant_lines file)) ->
  parse cfg file = Ok st -> P st.
Proof.
  intros Hsame Halt Hkill H0 H.
  apply parse_inv in H as (ps & Hc & Hd).
  assert (H1 : P (stats ps)).
  { revert Hc. unfold collected.
    apply (foldM_invariant (fun p => P (stats p)) process_line); [| exact H0].
    intros s x s' HP Hstep. apply process_line_move in Hstep.
    now apply (credit_invariant P Hsame Halt Hkill (stats s)). }
  assert (H2 : P (reconciled ps)).
  { unfold reconciled. apply (fold_left_invariant P retro_step); [| exact H1].
    intros s x HP. apply (credit_invariant P Hsame Halt Hkill s); [| exact HP].
    apply retro_step_move. }
  pose proof (detect_bailout_frame (relevant_lines file) (reconciled ps)) as (Hk & Ho & _).
  apply compute_flight_duration_frame in Hd as (Hk' & Ho' & _).
  apply (Hsame (detect_bailout (relevant_lines file) (reconciled ps))); try assumption.
  now apply (Hsame (reconciled ps)).
Qed.

Lemma register_line_objects (cfg : Config) (st : MS.t) (ln : string) :
  MS.objects (register_line cfg st ln) = MS.objects st \/
  exists gid nm ty c,
    MS.objects (register_line cfg st ln) =
    <[gid := GameObject.init cfg gid nm ty c]> (MS.objects st).
Proof.
  unfold register_line.
  destruct (contains "AType:10" ln); [destruct (contains "ISPL:1" ln) |
    destruct (contains "AType:12" ln)]; simpl;
    try (right; now eexists _, _, _, _); now left.
Qed.

Lemma registered_keyed (cfg : Config) (lines : list string) :
  keyed_by_id (registered cfg lines).
Proof.
  unfold registered. apply (fold_left_invariant keyed_by_id).
  - intros s ln Hs k o.
    destruct (register_line_objects cfg s ln) as [-> | (gid & nm & ty & c & ->)];
      [apply Hs |].
    destruct (decide (gid = k)) as [-> | Hne].
    + rewrite lookup_insert_eq. now intros [= <-].
    + rewrite lookup_insert_ne by exact Hne. apply Hs.
  - intros k o H. simpl in H. now rewrite lookup_empty in H.
Qed.

Lemma set_object_altitude_lookup (tid a k : Z) (s : MS.t) (o : GameObject.t) :
  MS.objects (MS.set_object_altitude tid a s) !! k = Some o ->
  exists o0, MS.objects s !! k = Some o0 /\
             (o = o0 \/ o = GameObject.set_altitude (Some a) o0).
Proof.
  unfold MS.set_object_altitude.
  destruct (MS.objects s !! tid) as [obj |] eqn:Ho; [| intros H; exists o; auto].
  simpl. destruct (decide (tid = k)) as [-> | Hne].
  - rewrite lookup_insert_eq. intros [= <-]. exists obj. auto.
  - rewrite lookup_insert_ne by exact Hne. intros H. exists o. auto.
Qed.

Lemma add_kill_objects (tid : Z) (ts : string) (s : MS.t) :
  MS.objects (MS.add_kill tid ts s) =
  match MS.objects s !! tid with
  | Some obj =>
      if String.eqb (GameObject.category obj) "Excluded" then MS.objects s
      else <[tid := GameObject.destroy ts obj]> (MS.objects s)
  | None => MS.objects s
  end.
Proof.
  unfold MS.add_kill.
  destruct (MS.objects s !! tid) as [obj |]; [| reflexivity].
  destruct (String.eqb (GameObject.category obj) "Excluded"); [reflexivity |].
  simpl. now destruct (existsb _ _).
Qed.

Lemma add_kill_lookup (tid k : Z) (ts : string) (s : MS.t) (o : GameObject.t) :
  MS.objects (MS.add_kill tid ts s) !! k = Some o ->
  exists o0, MS.objects s !! k = Some o0 /\
             (o = o0 \/ (k = tid /\ o = GameObject.destroy ts o0)).
Proof.
  rewrite add_kill_objects.
  destruct (MS.objects s !! tid) as [obj |] eqn:Ho; [| intros H; exists o; auto].
  destruct (String.eqb (GameObject.category obj) "Excluded");
    [intros H; exists o; auto |].
  destruct (decide (tid = k)) as [-> | Hne].
  - rewrite lookup_insert_eq. intros [= <-]. exists obj. auto.
  - rewrite lookup_insert_ne by exact Hne. intros H. exists o. auto.
Qed.

(** X5.  Every object of the statistics [parse] returns is stored under
    its own id, so a test on the keys of the credited kills is a test on
    the ids of the credited objects. *)
Theorem objects_keyed_by_id (cfg : Config) (file : list string) (st : MS.t)
    (k : Z) (o : GameObject.t) :
  parse cfg file = Ok st ->
  MS.objects st !! k = Some o ->
  GameObject.id o = k.
Proof.
  intros H. revert k o. change (keyed_by_id st).
  apply (parse_credit_invariant keyed_by_id cfg file st); [| | | | exact H].
  - intros s s' _ Ho Hs k o. rewrite Ho. apply Hs.
  - intros tid a s Hs k o Hlook.
    apply set_object_altitude_lookup in Hlook as (o0 & H0 & [-> | ->]);
      exact (Hs k o0 H0).
  - intros tid ts s Hs k o Hlook.
    apply add_kill_lookup in Hlook as (o0 & H0 & [-> | [_ ->]]); exact (Hs k o0 H0).
  - apply registered_keyed.
Qed.

Lemma objects_keyed_by_id_witness :
  exists o, MS.objects (parsed cfg_flak log_direct) !! 500 = Some o /\
            GameObject.id o = 500.
Proof.
  destruct (MS.objects (parsed cfg_flak log_direct) !! 500) as [o |] eqn:Ho;
    [| vm_compute in Ho; discriminate Ho].
  exists o. split; [reflexivity |].
  apply (objects_keyed_by_id cfg_flak log_direct (parsed cfg_flak log_direct) 500 o);
    [vm_compute; reflexivity | exact Ho].
Defined.

Lemma same_identity_refl (o : GameObject.t) : same_identity o o.
Proof. repeat split; reflexivity. Qed.

Lemma same_identity_trans (a b c : GameObject.t) :
  same_identity a b -> same_identity b c -> same_identity a c.
Proof.
  intros (H1 & H2 & H3 & H4 & H5 & H6) (G1 & G2 & G3 & G4 & G5 & G6).
  repeat split; congruence.
Qed.

Lemma same_objects_step (s0 s s' : MS.t) :
  (forall k o, MS.objects s' !! k = Some o ->
               exists o0, MS.objects s !! k = Some o0 /\ same_identity o0 o) ->
  (forall k, MS.objects s' !! k = None -> MS.objects s !! k = None) ->
  same_objects s0 s -> same_objects s0 s'.
Proof.
  intros Hsome Hnone H k. specialize (H k).
  destruct (MS.objects s' !! k) as [o |] eqn:Ho.
  - destruct (Hsome k o Ho) as (o0 & H0 & Hid). rewrite H0 in H.
    inversion H as [x y Hxy |]; subst. constructor.
    now apply (same_identity_trans x o0 o).
  - now rewrite (Hnone k Ho) in H.
Qed.

Lemma set_object_altitude_none (tid a k : Z) (s : MS.t) :
  MS.objects (MS.set_object_altitude tid a s) !! k = None -> MS.objects s !! k = None.
Proof.
  unfold MS.set_object_altitude.
  destruct (MS.objects s !! tid) as [obj |] eqn:Ho; [| auto].
  simpl. destruct (decide (tid = k)) as [-> | Hne].
  - now rewrite lookup_insert_eq.
  - now rewrite lookup_insert_ne.
Qed.

Lemma add_kill_none (tid k : Z) (ts : string) (s : MS.t) :
  MS.objects (MS.add_kill tid ts s) !! k = None -> MS.objects s !! k = None.
Proof.
  rewrite add_kill_objects.
  destruct (MS.objects s !! tid) as [obj |] eqn:Ho; [| auto].
  destruct (String.eqb (GameObject.category obj) "Excluded"); [auto |].
  destruct (decide (tid = k)) as [-> | Hne].
  - now rewrite lookup_insert_eq.
  - now rewrite lookup_insert_ne.
Qed.

Lemma parse_same_objects (cfg : Config) (file : list string) (st : MS.t) :
  parse cfg file = Ok st ->
  same_objects (registered cfg (relevant_lines file)) st.
Proof.
  intros H.
  apply (parse_credit_invariant
           (same_objects (registered cfg (relevant_lines file))) cfg file st);
    [| | | | exact H].
  - intros s s' _ Ho Hs k. rewrite Ho. apply Hs.
  - intros tid a s. apply same_objects_step.
    + intros k o Hlook.
      apply set_object_altitude_lookup in Hlook as (o0 & H0 & [-> | ->]);
        exists o0; (split; [exact H0 | repeat split; reflexivity]).
    + intros k. apply set_object_altitude_none.
  - intros tid ts s. apply same_objects_step.
    + intros k o Hlook.
      apply add_kill_lookup in Hlook as (o0 & H0 & [-> | [_ ->]]);
        exists o0; (split; [exact H0 | repeat split; reflexivity]).
    + intros k. apply add_kill_none.
  - intros k. destruct (MS.objects _ !! k); constructor. apply same_identity_refl.
Qed.

(** X6.  After the registration loop no object is added, removed or
    replaced: the statistics [parse] returns hold the same keys, and under
    each key an object with the id, name, static flag, type, country and
    category it was registered with.  Only its state, kill time and
    altitude can differ. *)
Theorem registry_fixed_after_registration (cfg : Config) (file : list string)
    (st : MS.t) :
  parse cfg file = Ok st ->
  same_objects (registered cfg (relevant_lines file)) st.
Proof. apply parse_same_objects. Qed.

Lemma registry_fixed_after_registration_witness :
  same_objects (registered cfg_flak (relevant_lines log_direct))
    (parsed cfg_flak log_direct).
Proof.
  apply (registry_fixed_after_registration cfg_flak log_direct).
  vm_compute. reflexivity.
Defined.

Lemma registered_fresh (cfg : Config) (lines : list string) :
  MS.kills (registered cfg lines) = [] /\
  forall k o, MS.objects (registered cfg lines) !! k = Some o ->
              GameObject.state o = "Alive" /\ GameObject.time_of_kill o = None.
Proof.
  split; [apply (registering_frame cfg lines MS.init) |].
  unfold registered.
  apply (fold_left_invariant
           (fun s => forall k o, MS.objects s !! k = Some o ->
                                 GameObject.state o = "Alive" /\
                                 GameObject.time_of_kill o = None)).
  - intros s ln Hs k o.
    destruct (register_line_objects cfg s ln) as [-> | (gid & nm & ty & c & ->)];
      [apply Hs |].
    destruct (decide (gid = k)) as [-> | Hne].
    + rewrite lookup_insert_eq. intros [= <-]. now split.
    + rewrite lookup_insert_ne by exact Hne. apply Hs.
  - intros k o H. simpl in H. now rewrite lookup_empty in H.
Qed.

Lemma marked_add_kill (tid : Z) (ts : string) (s : MS.t) :
  marked s -> marked (MS.add_kill tid ts s).
Proof.
  intros Hs k o Hlook.
  pose proof (add_kill_lookup tid k ts s o Hlook) as (o0 & H0 & Hcase).
  assert (Hgrow : forall x, In x (MS.kills s) -> In x (MS.kills (MS.add_kill tid ts s))).
  { intros x Hx. destruct (add_kill_kills tid ts s) as [-> | (-> & _)];
      [exact Hx | apply in_or_app; now left]. }
  destruct (decide (k = tid)) as [-> | Hne].
  - revert Hlook. unfold MS.add_kill. rewrite H0.
    destruct (String.eqb (GameObject.category o0) "Excluded") eqn:Hex.
    + rewrite H0. intros [= <-]. apply (Hs tid o0 H0).
    + intros Hlook. right.
      assert (Ho : o = GameObject.destroy ts o0).
      { revert Hlook. simpl. destruct (existsb _ _); simpl;
          rewrite lookup_insert_eq; now intros [= <-]. }
      subst o. split; [reflexivity |]. split; [now exists ts |].
      simpl. destruct (existsb (Z.eqb tid) (MS.kills s)) eqn:Hin; simpl.
      * now apply existsb_Zeqb_In.
      * apply in_or_app. right. now left.
  - destruct Hcase as [-> | [Heq _]]; [| contradiction].
    destruct (Hs k o0 H0) as [(Ha & Ht & Hn) | (Hd & Ht & Hin)].
    + left. split; [exact Ha |]. split; [exact Ht |].
      intros Hin. destruct (add_kill_kills tid ts s) as [Hk | (Hk & _)];
        rewrite Hk in Hin; [contradiction |].
      apply in_app_or in Hin as [Hin | [Heq | []]]; [contradiction | congruence].
    + right. split; [exact Hd |]. split; [exact Ht |]. now apply Hgrow.
Qed.

Lemma marked_set_object_altitude (tid a : Z) (s : MS.t) :
  marked s -> marked (MS.set_object_altitude tid a s).
Proof.
  intros Hs k o Hlook.
  apply set_object_altitude_lookup in Hlook as (o0 & H0 & Hcase).
  assert (Hk : MS.kills (MS.set_object_altitude tid a s) = MS.kills s)
    by apply set_object_altitude_registry.
  rewrite Hk. destruct Hcase as [-> | ->]; apply (Hs k o0 H0).
Qed.

(** X7.  In the statistics [parse] returns an object is marked
    ["Destroyed"] exactly when it is among the credited kills, and exactly
    then it carries a kill time; every other object is still ["Alive"],
    also when a destroy line named it. *)
Theorem destroyed_iff_credited (cfg : Config) (file : list string) (st : MS.t)
    (k : Z) (o : GameObject.t) :
  parse cfg file = Ok st ->
  MS.objects st !! k = Some o ->
  (In k (MS.kills st) <-> GameObject.state o = "Destroyed") /\
  (In k (MS.kills st) <-> exists ts, GameObject.time_of_kill o = Some ts) /\
  (~ In k (MS.kills st) <-> GameObject.state o = "Alive").
Proof.
  intros H Hlook.
  assert (Hm : marked st).
  { apply (parse_credit_invariant marked cfg file st); [| | | | exact H].
    - intros s s' Hk Ho Hs k' o'. rewrite Ho, Hk. apply Hs.
    - intros tid a s. apply marked_set_object_altitude.
    - intros tid ts s. apply marked_add_kill.
    - intros k' o' Ho'. left.
      destruct (registered_fresh cfg (relevant_lines file)) as [Hk Hall].
      destruct (Hall k' o' Ho') as [Ha Ht]. rewrite Hk.
      split; [exact Ha |]. split; [exact Ht | intros []]. }
  destruct (Hm k o Hlook) as [(Ha & Ht & Hn) | (Hd & (ts & Ht) & Hin)].
  - split; [| split].
    + split; [contradiction | intros Hd; rewrite Ha in Hd; discriminate].
    + split; [contradiction | intros (ts & Hts); rewrite Ht in Hts; discriminate].
    + now split.
  - split; [| split].
    + now split.
    + split; [now exists ts | auto].
    + split; [contradiction | intros Ha; rewrite Hd in Ha; discriminate].
Qed.

Lemma destroyed_iff_credited_witness :
  exists o, MS.objects (parsed cfg_flak log_direct) !! 600 = Some o /\
            GameObject.state o = "Alive".
Proof.
  destruct (MS.objects (parsed cfg_flak log_direct) !! 600) as [o |] eqn:Ho;
    [| vm_compute in Ho; discriminate Ho].
  exists o. split; [reflexivity |].
  apply (destroyed_iff_credited cfg_flak log_direct (parsed cfg_flak log_direct) 600 o);
    [vm_compute; reflexivity | exact Ho |].
  vm_compute. intros [H | []]. discriminate H.
Defined.

(** ** One turn of the event loop, branch by branch *)

Lemma credit_only_refl (s : MS.t) : credit_only s s.
Proof. now destruct s. Qed.

Lemma credit_only_trans (a b c : MS.t) :
  credit_only a b -> credit_only b c -> credit_only a c.
Proof. unfold credit_only. intros -> ->. now destruct a. Qed.

Lemma set_object_altitude_credit_only (tid a : Z) (s : MS.t) :
  credit_only s (MS.set_object_altitude tid a s).
Proof.
  unfold MS.set_object_altitude, credit_only.
  destruct (MS.objects s !! tid); now destruct s.
Qed.

Lemma store_altitude_credit_only (tid : Z) (alt : option Z) (s : MS.t) :
  credit_only s (store_altitude tid alt s).
Proof.
  destruct alt; simpl;
    [apply set_object_altitude_credit_only | apply credit_only_refl].
Qed.

Lemma add_kill_credit_only (tid : Z) (ts : string) (s : MS.t) :
  credit_only s (MS.add_kill tid ts s).
Proof.
  unfold MS.add_kill, credit_only.
  destruct (MS.objects s !! tid) as [o |]; [| now destruct s].
  destruct (String.eqb _ _); [now destruct s |].
  cbv zeta. destruct (existsb _ _); now destruct s.
Qed.

Lemma credit_move_only (s : MS.t) (tid : Z) (ts : string) (alt : option Z) :
  credit_only s (MS.add_kill tid ts (store_altitude tid alt s)).
Proof.
  eapply credit_only_trans;
    [apply store_altitude_credit_only | apply add_kill_credit_only].
Qed.

Lemma _resolve_indirect_kill_credit_only (tid : Z) (ts : string)
    (pm : option string) (st st' : MS.t) :
  _resolve_indirect_kill tid ts pm st = Ok st' -> credit_only st st'.
Proof.
  unfold _resolve_indirect_kill. intros H.
  destruct (share_ok st (hits_on st tid)); [| ok_inv; apply credit_only_refl].
  destruct (MS.objects st !! tid) as [o |];
    [destruct pm as [g |] |]; simpl in H.
  - destruct (altitude_of (Some g)) as [alt | e]; simpl in H; [| discriminate].
    ok_inv. now apply credit_move_only.
  - ok_inv. apply add_kill_credit_only.
  - ok_inv. apply add_kill_credit_only.
Qed.

Lemma on_destroy_credit_only (ln ts : string) (ps ps' : pstate) :
  on_destroy ln ts ps = Ok ps' -> credit_only (stats ps) (stats ps').
Proof.
  unfold on_destroy. intros H.
  destruct (altitude_of (pos_match ln)) as [alt | e]; simpl in H; [| discriminate].
  destruct (is_excluded (stats ps) _); [ok_inv; apply credit_only_refl |].
  destruct (is_player (stats ps) _).
  { ok_inv. simpl. now apply credit_move_only. }
  destruct (_ =? -1); [| ok_inv; apply credit_only_refl].
  destruct (_resolve_indirect_kill _ _ _ _) as [st1 | e] eqn:Hr; simpl in H; [| discriminate].
  ok_inv. simpl. now apply _resolve_indirect_kill_credit_only in Hr.
Qed.

Lemma retro_step_credit_only (st : MS.t) (entry : Z * (string * option Z)) :
  credit_only st (retro_step st entry).
Proof.
  destruct entry as [tid [kill_time alt]]. unfold retro_step.
  destruct (last (hits_on st tid)) as [h |]; [| apply credit_only_refl].
  destruct (share_ok st (hits_on st tid)); [| apply credit_only_refl].
  destruct (not_yet_credited st tid); [| apply credit_only_refl].
  now apply credit_move_only.
Qed.

Lemma reconciled_credit_only (l : list (Z * (string * option Z))) (st : MS.t) :
  credit_only st (fold_left retro_step l st).
Proof.
  apply (fold_left_preorder credit_only).
  - apply credit_only_refl.
  - apply credit_only_trans.
  - apply retro_step_credit_only.
Qed.

(** The branch a line takes in the event loop *)
Lemma process_line_cases (ps ps' : pstate) (ln : string) :
  process_line ps ln = Ok ps' ->
  let t := _i ln (Re.uint "T:") in
  let ts := mission_time_to_hhmmss t in
  (contains "AType:2" ln = true /\ on_damage ln t ts (stats ps) = Ok (stats ps')) \/
  (contains "AType:2" ln = false /\
   (credit_only (stats ps) (stats ps') \/
    on_takeoff ln t ts (stats ps) = Ok (stats ps') \/
    stats ps' = on_separation ln t (stats ps) \/
    on_landing ln t ts (stats ps) = Ok (stats ps'))).
Proof.
  unfold process_line, with_stats. intros H. cbv zeta.
  destruct (contains "AType:2" ln).
  { left. destruct (on_damage _ _ _ _) as [st1 | e] eqn:Hd; simpl in H; [| discriminate].
    ok_inv. now split. }
  right. split; [reflexivity |].
  destruct (contains "AType:3" ln); [left; now apply on_destroy_credit_only in H |].
  destruct (contains "AType:5" ln).
  { destruct (on_takeoff _ _ _ _) as [st1 | e] eqn:Hd; simpl in H; [| discriminate].
    ok_inv. right. now left. }
  destruct (contains "AType:18" ln).
  { simpl in H. ok_inv. right. right. now left. }
  destruct (_ || _); [| ok_inv; left; apply credit_only_refl].
  destruct (on_landing _ _ _ _) as [st1 | e] eqn:Hd; simpl in H; [| discriminate].
  ok_inv. right. right. now right.
Qed.

Ltac ms_cbn :=
  cbn [bind orb app
       MS.player_id MS.player_name MS.player_aircraft MS.player_pid MS.player_plid
       MS.objects MS.hits MS.kills MS.events MS.wounded MS.total_damage_taken
       MS.total_aircraft_damage MS.total_pilot_damage MS.landed MS.crashed
       MS.pilot_separation_time MS.final_state MS.takeoff_time MS.landing_time
       MS.flight_duration
       MS.add_hit MS.add_event MS.set_hits MS.set_events MS.set_wounded
       MS.set_total_aircraft_damage MS.set_total_pilot_damage MS.set_outcome
       MS.set_pilot_separation_time MS.set_takeoff_time MS.set_landing_time
       MS.set_flight_duration MS.set_final_state MS.set_kills MS.set_objects].

(** The same by value, innermost first: the size of a nest of setters
    stays linear. *)
Ltac ms_cbv :=
  cbv [MS.player_id MS.player_name MS.player_aircraft MS.player_pid MS.player_plid
       MS.objects MS.hits MS.kills MS.events MS.wounded MS.total_damage_taken
       MS.total_aircraft_damage MS.total_pilot_damage MS.landed MS.crashed
       MS.pilot_separation_time MS.final_state MS.takeoff_time MS.landing_time
       MS.flight_duration
       MS.add_hit MS.add_event MS.set_hits MS.set_events MS.set_wounded
       MS.set_total_aircraft_damage MS.set_total_pilot_damage MS.set_outcome
       MS.set_pilot_separation_time MS.set_takeoff_time MS.set_landing_time
       MS.set_flight_duration MS.set_final_state MS.set_kills MS.set_objects].

(** What a damage line does to the statistics *)
Lemma on_damage_spec (ln : string) (t : Z) (ts : string) (st st' : MS.t) :
  on_damage ln t ts st = Ok st' ->
  exists dmg alt,
    _f ln (Re.num "DMG:") = Ok dmg /\
    let a := _i ln (Re.sint "AID:") in
    let tgt := _i ln (Re.sint "TID:") in
    let c1 := eq_opt tgt (MS.player_plid st) && B64.ltb B64.zero dmg in
    let c2 := in_pair tgt (MS.player_pid st) (MS.player_id st) &&
              B64.ltb B64.zero dmg in
    let ta := if c1 then B64.add (MS.total_aircraft_damage st) dmg
              else MS.total_aircraft_damage st in
    let tp := if c2 then B64.add (MS.total_pilot_damage st) dmg
              else MS.total_pilot_damage st in
    (c1 || c2 = true -> altitude_of (pos_match ln) = Ok alt) /\
    st' = MS.set_wounded (if B64.ltb wound_threshold tp then true else MS.wounded st)
            (MS.set_events (MS.events st ++ damage_events st a dmg ts alt t c1 c2)
               (MS.set_total_pilot_damage tp
                  (MS.set_total_aircraft_damage ta (MS.add_hit a tgt dmg ts st)))).
Proof.
  unfold on_damage. intros H.
  destruct (_f ln (Re.num "DMG:")) as [dmg | e]; cbn [bind] in H; [| discriminate].
  exists dmg.
  exists (match altitude_of (pos_match ln) with Ok alt => alt | Raise _ => None end).
  split; [reflexivity |]. cbv zeta. revert H.
  unfold damage_events, attacker_name.
  destruct st as [pi pn pa pp pl objs hs ks evs w tdt tad tpd la cr sep fs tk lt fd].
  destruct (altitude_of (pos_match ln)) as [alt | e]; ms_cbn;
    destruct (eq_opt (_i ln (Re.sint "TID:")) pl && B64.ltb B64.zero dmg); ms_cbn;
    try (intros H; discriminate H);
    destruct (in_pair (_i ln (Re.sint "TID:")) pp pi && B64.ltb B64.zero dmg); ms_cbn;
    try (intros H; discriminate H);
    match goal with
    | |- context [B64.ltb wound_threshold ?x] => destruct (B64.ltb wound_threshold x)
    end;
    intros H; ok_inv;
    (split; [intros Hc; try reflexivity; discriminate Hc |]);
    ms_cbv; f_equal;
    first [reflexivity | symmetry; apply app_nil_r | symmetry; apply (app_assoc evs [_] [_])].
Qed.

Lemma on_takeoff_spec (ln : string) (t : Z) (ts : string) (st st' : MS.t) :
  on_takeoff ln t ts st = Ok st' ->
  st' = st \/
  exists alt,
    is_player st (_i ln (Re.sint "PID:")) = true /\
    truthy (MS.takeoff_time st) = false /\
    st' = MS.add_event (Event.simple ts "Takeoff" alt t)
            (MS.set_takeoff_time (Some t) st).
Proof.
  unfold on_takeoff. intros H.
  destruct (is_player st _) eqn:Hp; simpl in H; [| ok_inv; now left].
  destruct (truthy (MS.takeoff_time st)) eqn:Ht; simpl in H; [ok_inv; now left |].
  destruct (altitude_of _) as [alt | e]; simpl in H; [| discriminate].
  ok_inv. right. now exists alt.
Qed.

Lemma on_separation_spec (ln : string) (t : Z) (st : MS.t) :
  on_separation ln t st = st \/
  on_separation ln t st = MS.set_pilot_separation_time (Some t) st.
Proof. unfold on_separation. destruct (_ && _); auto. Qed.

Lemma landing_outcome_spec (ln : string) (t : Z) (st : MS.t) :
  exists l c base ty,
    landing_outcome ln t st = (MS.set_outcome l c (with_wounded st base) st, ty) /\
    In (base, ty) [("Bailout", "Bailout"); ("Crashed", "Crash"); ("Landed", "Landing")].
Proof.
  unfold landing_outcome.
  destruct (MS.pilot_separation_time st) as [sep |];
    [destruct (negb (sep =? 0)); [destruct (t - sep >? 2000) |] |];
    destruct (contains "AType:7" ln);
    eexists _, _, _, _; (split; [reflexivity |]); simpl; auto.
Qed.

Lemma on_landing_spec (ln : string) (t : Z) (ts : string) (st st' : MS.t) :
  on_landing ln t ts st = Ok st' ->
  st' = st \/
  exists alt l c base ty,
    is_player st (_i ln (Re.sint "PID:")) = true /\
    truthy (MS.landing_time st) = false /\
    In (base, ty) [("Bailout", "Bailout"); ("Crashed", "Crash"); ("Landed", "Landing")] /\
    st' = MS.add_event (Event.simple ts ty alt t)
            (MS.set_outcome l c (with_wounded st base)
               (MS.set_landing_time (Some t) st)).
Proof.
  unfold on_landing. intros H.
  destruct (is_player st _) eqn:Hp; simpl in H; [| ok_inv; now left].
  destruct (truthy (MS.landing_time st)) eqn:Ht; simpl in H; [ok_inv; now left |].
  destruct (altitude_of _) as [alt | e]; simpl in H; [| discriminate].
  destruct (landing_outcome_spec ln t (MS.set_landing_time (Some t) st))
    as (l & c & base & ty & Hout & Hin).
  rewrite Hout in H. ok_inv. right. now exists alt, l, c, base, ty.
Qed.

(** ** After the event loop *)

Lemma detect_bailout_spec (lines : list string) (st : MS.t) :
  detect_bailout lines st = st \/
  (MS.crashed st = false /\ MS.landed st = false /\
   detect_bailout lines st = MS.set_final_state (with_wounded st "Bailed Out") st).
Proof.
  unfold detect_bailout.
  destruct (existsb _ lines); simpl; [| now left].
  destruct (MS.crashed st); simpl; [now left |].
  destruct (MS.landed st); simpl; [now left | now right].
Qed.

(** What the last step of [parse] does when it does not raise: nothing, or
    it writes the duration between the takeoff tick and an end tick, which
    is the landing tick or, without one, a last event tick that does not
    exceed the takeoff tick. *)
Lemma compute_flight_duration_spec (st st' : MS.t) :
  compute_flight_duration st = Ok st' ->
  (st' = st /\
   (truthy (MS.takeoff_time st) = false \/ truthy (MS.landing_time st) = false)) \/
  exists takeoff e,
    MS.takeoff_time st = Some takeoff /\ takeoff <> 0 /\ e <> 0 /\
    (MS.landing_time st = Some e \/
     (truthy (MS.landing_time st) = false /\ e <= takeoff)) /\
    st' = MS.set_flight_duration (Some (mission_time_to_hhmmss (e - takeoff))) st.
Proof.
  unfold compute_flight_duration, _format_time. intros H.
  destruct (MS.takeoff_time st) as [tk |] eqn:Htk; [| ok_inv; left; auto].
  destruct (tk =? 0) eqn:Hz; [ok_inv; left; simpl; rewrite Hz; auto |].
  apply Z.eqb_neq in Hz.
  destruct (truthy (MS.landing_time st)) eqn:Hl; cbn [negb andb] in H.
  - cbn [bind] in H. destruct (MS.landing_time st) as [e |]; [| discriminate Hl].
    simpl in Hl. destruct (e =? 0) eqn:He; [discriminate Hl |].
    ok_inv. right. exists tk, e. apply Z.eqb_neq in He.
    repeat split; auto.
  - destruct (negb (Nat.eqb _ 0)).
    + destruct (_ >? tk) eqn:Hgt; cbn [bind] in H; [discriminate |].
      destruct (_ =? 0) eqn:He in H; ok_inv; [left; auto |].
      right. eexists tk, _. apply Z.eqb_neq in He.
      split; [reflexivity |]. split; [exact Hz |]. split; [exact He |].
      split; [| reflexivity]. right. split; [reflexivity |].
      rewrite Z.gtb_ltb in Hgt. apply Z.ltb_ge in Hgt. exact Hgt.
    + cbn [bind] in H. destruct (MS.landing_time st) as [e |]; [| ok_inv; left; auto].
      simpl in Hl. destruct (e =? 0); [ok_inv; left; auto | discriminate Hl].
Qed.

(** The statistics [parse] returns are those of the event loop but for the
    credited kills, the registry, the final-state label and the flight
    duration. *)
Lemma parse_after_loop (cfg : Config) (file : list string) (st : MS.t) :
  parse cfg file = Ok st ->
  exists ps,
    collected cfg (relevant_lines file) = Ok ps /\
    st = MS.set_flight_duration (MS.flight_duration st)
           (MS.set_final_state (MS.final_state st)
              (MS.set_kills (MS.kills st)
                 (MS.set_objects (MS.objects st) (stats ps)))).
Proof.
  intros H. apply parse_inv in H as (ps & Hc & Hd). exists ps.
  split; [exact Hc |].
  pose proof (reconciled_credit_only (destroyed ps) (stats ps)) as Hr.
  fold (reconciled ps) in Hr. unfold credit_only in Hr.
  revert Hd Hr. generalize (reconciled ps) as s1. intros s1 Hd Hr.
  assert (Hb : exists fs, detect_bailout (relevant_lines file) s1 =
                          MS.set_final_state fs s1).
  { destruct (detect_bailout_spec (relevant_lines file) s1) as [-> | (_ & _ & ->)].
    - exists (MS.final_state s1). now destruct s1.
    - now eexists. }
  destruct Hb as (fs & Hb). rewrite Hb in Hd.
  assert (Hf : exists fd, st = MS.set_flight_duration fd (MS.set_final_state fs s1)).
  { apply compute_flight_duration_spec in Hd
      as [[-> _] | (tk & e & _ & _ & _ & _ & ->)].
    - exists (MS.flight_duration s1). now destruct s1.
    - now eexists. }
  destruct Hf as (fd & ->). rewrite Hr.
  now destruct (stats ps).
Qed.

(** ** The damage ledger *)

Lemma credit_only_hits (s s' : MS.t) : credit_only s s' -> MS.hits s' = MS.hits s.
Proof. intros H. apply (f_equal MS.hits) in H. exact H. Qed.

Lemma process_line_hits (ps ps' : pstate) (ln : string) :
  process_line ps ln = Ok ps' ->
  map Ok (MS.hits (stats ps')) =
  (map Ok (MS.hits (stats ps)) ++ map hit_of_line (damage_lines [ln]))%list.
Proof.
  intros H. unfold damage_lines. cbn [List.filter].
  destruct (process_line_cases ps ps' ln H)
    as [[Hc Hd] | [Hc [Hco | [Ht | [Hs | Hl]]]]]; rewrite Hc; cbn [map].
  - apply on_damage_spec in Hd as (dmg & alt & Hf & _ & ->).
    unfold hit_of_line. rewrite Hf. ms_cbn. now rewrite map_app.
  - rewrite app_nil_r. f_equal. now apply credit_only_hits.
  - rewrite app_nil_r. f_equal.
    apply on_takeoff_spec in Ht as [-> | (alt & _ & _ & ->)]; reflexivity.
  - rewrite app_nil_r. f_equal. rewrite Hs.
    destruct (on_separation_spec ln (_i ln (Re.uint "T:")) (stats ps)) as [-> | ->];
      reflexivity.
  - rewrite app_nil_r. f_equal.
    apply on_landing_spec in Hl as [-> | (alt & l & c & base & ty & _ & _ & _ & ->)];
      reflexivity.
Qed.

Lemma collecting_hits (l : list string) (ps ps' : pstate) :
  foldM process_line ps l = Ok ps' ->
  map Ok (MS.hits (stats ps')) =
  (map Ok (MS.hits (stats ps)) ++ map hit_of_line (damage_lines l))%list.
Proof.
  revert ps. induction l as [| ln l IH]; intros ps H.
  - simpl in H. ok_inv. simpl. now rewrite app_nil_r.
  - rewrite foldM_cons in H.
    destruct (process_line ps ln) as [ps1 | e] eqn:Hstep; cbn [bind] in H;
      [| discriminate].
    rewrite (IH ps1 H), (process_line_hits ps ps1 ln Hstep), <- app_assoc.
    f_equal. unfold damage_lines. rewrite <- map_app. f_equal.
    change (ln :: l) with ([ln] ++ l)%list. now rewrite List.filter_app.
Qed.

(** X8.  The hits of the statistics [parse] returns are the damage lines
    of the report, one hit for each line that holds the text [AType:2], in
    the order of the report: attacker and target are the numbers after
    [AID:] and [TID:], the damage is the number after [DMG:], the time is
    the formatted tick of the line. *)
Theorem hits_mirror_damage_lines (cfg : Config) (file : list string) (st : MS.t) :
  parse cfg file = Ok st ->
  map hit_of_line (damage_lines (relevant_lines file)) = map Ok (MS.hits st).
Proof.
  intros H. apply parse_after_loop in H as (ps & Hc & Hst).
  apply (f_equal MS.hits) in Hst. simpl in Hst. rewrite Hst.
  apply collecting_hits in Hc. rewrite Hc.
  destruct (registering_frame cfg (relevant_lines file) MS.init) as (_ & Hh & _).
  cbn [stats]. unfold registered. rewrite Hh. reflexivity.
Qed.

Lemma hits_mirror_damage_lines_witness :
  map hit_of_line (damage_lines (relevant_lines log_sortie)) =
  map Ok (MS.hits (parsed cfg_flak log_sortie)) /\
  List.length (MS.hits (parsed cfg_flak log_sortie)) = 3%nat.
Proof.
  split; [| vm_compute; reflexivity].
  apply (hits_mirror_damage_lines cfg_flak log_sortie). vm_compute. reflexivity.
Defined.

(** ** Damage numbers *)

Lemma span_fst_every (p : ascii -> bool) (s : string) :
  fst (span p s) = s -> every p s = true.
Proof.
  induction s as [| c r IH]; simpl; [reflexivity |].
  destruct (p c); [| discriminate].
  destruct (span p r) as [a b]. simpl in *. intros [= H]. now rewrite IH.
Qed.

Lemma count_dots_cons (c : ascii) (r : string) :
  count_dots (String c r) =
  if Ascii.eqb c "." then S (count_dots r) else count_dots r.
Proof.
  unfold count_dots. cbn [list_ascii_of_string List.filter].
  rewrite (Ascii.eqb_sym "." c). now destruct (Ascii.eqb c ".").
Qed.

Lemma every_num_no_dots (s : string) :
  every Re.is_num_char s = true -> count_dots s = 0%nat -> digits_only s = true.
Proof.
  induction s as [| c r IH]; [reflexivity |].
  rewrite count_dots_cons. cbn [every digits_only]. unfold Re.is_num_char at 1.
  intros H Hd. apply andb_true_iff in H as [Hc Hr].
  destruct (Ascii.eqb c "."); [discriminate |].
  rewrite orb_false_r in Hc. now rewrite Hc, IH.
Qed.

Lemma numeral_parts (s : string) :
  every Re.is_num_char s = true -> (count_dots s <= 1)%nat ->
  digits_only (split_first "." s) = true /\
  digits_only (drop (S (String.length (split_first "." s))) s) = true.
Proof.
  induction s as [| c r IH]; [now split |].
  rewrite count_dots_cons. cbn [every split_first]. unfold Re.is_num_char at 1.
  intros H Hd. apply andb_true_iff in H as [Hc Hr].
  destruct (Ascii.eqb c ".").
  - split; [reflexivity |]. simpl. apply every_num_no_dots; [exact Hr | lia].
  - rewrite orb_false_r in Hc. destruct (IH Hr Hd) as [IH1 IH2].
    split; [simpl; now rewrite Hc, IH1 | exact IH2].
Qed.

Lemma digits_only_app (a b : string) :
  digits_only a = true -> digits_only b = true -> digits_only (a ++ b) = true.
Proof.
  induction a as [| c r IH]; simpl; [auto |].
  intros H Hb. apply andb_true_iff in H as [Hc Hr].
  change (String c r ++ b) with (String c (r ++ b)). simpl. now rewrite Hc, IH.
Qed.

Lemma int_of_digits_from_nonneg (s : string) (acc : Z) :
  digits_only s = true -> 0 <= acc -> 0 <= int_of_digits_from acc s.
Proof.
  revert acc. induction s as [| c r IH]; intros acc H Hacc; simpl; [exact Hacc |].
  simpl in H. apply andb_true_iff in H as [Hc Hr]. apply IH; [exact Hr |].
  unfold is_digit in Hc. apply andb_true_iff in Hc as [H1 _].
  apply Nat.leb_le in H1. unfold digit_val. lia.
Qed.

Lemma is_digit_num_char (c : ascii) : is_digit c = true -> Re.is_num_char c = true.
Proof. unfold Re.is_num_char. now intros ->. Qed.

Lemma is_num_char_not_space (c : ascii) :
  Re.is_num_char c = true -> is_space c = false.
Proof.
  unfold Re.is_num_char. intros H. apply orb_true_iff in H as [H | H].
  - now apply is_digit_not_space.
  - apply Ascii.eqb_eq in H. now subst c.
Qed.

Lemma every_app (p : ascii -> bool) (a b : string) :
  every p a = true -> every p b = true -> every p (a ++ b) = true.
Proof.
  induction a as [| c r IH]; [auto |].
  change (String c r ++ b) with (String c (r ++ b)). cbn [every].
  intros H Hb. apply andb_true_iff in H as [Hc Hr]. now rewrite Hc, IH.
Qed.

Lemma digits_only_every (s : string) :
  digits_only s = true -> every Re.is_num_char s = true.
Proof.
  induction s as [| c r IH]; [reflexivity |]. cbn [digits_only every].
  intros H. apply andb_true_iff in H as [Hc Hr].
  now rewrite (is_digit_num_char c Hc), IH.
Qed.

Lemma every_span (p : ascii -> bool) (s : string) :
  every p s = true -> span p s = (s, "").
Proof.
  induction s as [| c r IH]; [reflexivity |]. cbn [every span].
  intros H. apply andb_true_iff in H as [Hc Hr]. now rewrite Hc, (IH Hr).
Qed.

Lemma num_rstrip (s : string) : every Re.is_num_char s = true -> rstrip s = s.
Proof.
  induction s as [| c r IH]; [reflexivity |]. cbn [every].
  intros H. apply andb_true_iff in H as [Hc Hr].
  rewrite rstrip_cons_nonspace by now apply is_num_char_not_space.
  now rewrite IH.
Qed.

Lemma num_strip (s : string) : every Re.is_num_char s = true -> strip s = s.
Proof.
  intros H. unfold strip.
  assert (Hl : lstrip s = s).
  { destruct s as [| c r]; [reflexivity |]. cbn [every] in H.
    apply andb_true_iff in H as [Hc _]. cbn [lstrip].
    now rewrite (is_num_char_not_space c Hc). }
  rewrite Hl. now apply num_rstrip.
Qed.

Lemma numeral_value_nonneg (s : string) (q : Q) :
  numeral_value s = Some q -> (0 <= q)%Q.
Proof.
  unfold numeral_value.
  destruct ((count_dots s <=? 1)%nat) eqn:Hd; [| discriminate].
  destruct (String.eqb (fst (span _ s)) s) eqn:Hs; [| discriminate].
  destruct (negb _); [| discriminate]. cbn [andb].
  apply Nat.leb_le in Hd. apply String.eqb_eq in Hs.
  apply span_fst_every in Hs.
  destruct (numeral_parts s Hs Hd) as [Hip Hfp].
  revert Hip Hfp.
  generalize (drop (S (String.length (split_first "." s))) s) as fp.
  generalize (split_first "." s) as ip. intros ip fp Hip Hfp [= <-].
  destruct (String.length fp) as [| k].
  - assert (H : 0 <= int_of_digits ip)
      by (apply int_of_digits_from_nonneg; [exact Hip | lia]).
    unfold Qle, inject_Z. cbn [Qnum Qden]. lia.
  - assert (H : 0 <= int_of_digits (ip ++ fp))
      by (apply int_of_digits_from_nonneg; [now apply digits_only_app | lia]).
    unfold Qle. cbn [Qnum Qden]. lia.
Qed.

Lemma every_fst_span (p : ascii -> bool) (s : string) :
  every p (fst (span p s)) = true.
Proof.
  induction s as [| c r IH]; [reflexivity |]. cbn [span].
  destruct (p c) eqn:Hc; [| reflexivity].
  destruct (span p r) as [a b]. cbn [fst every] in *. now rewrite Hc, IH.
Qed.

(** The group of [label([\d.]+)] is made of digits and dots. *)
Lemma search_num_every (label t g : string) :
  Re.search (Re.num label) t = Some g -> every Re.is_num_char g = true.
Proof.
  induction t as [| c r IH]; cbn [Re.search].
  - destruct (Re.num label "") as [g' |] eqn:Hm; [| discriminate].
    intros [= <-]. revert Hm. unfold Re.num, Re.nonempty_run.
    destruct (String.prefix label ""); [| discriminate].
    pose proof (every_fst_span Re.is_num_char (drop (String.length label) "")) as He.
    destruct (span _ _) as [[| x a] b]; [discriminate |].
    cbn [option_map fst] in *. now intros [= <-].
  - destruct (Re.num label (String c r)) as [g' |] eqn:Hm; [| exact IH].
    intros [= <-]. revert Hm. unfold Re.num, Re.nonempty_run.
    destruct (String.prefix label (String c r)); [| discriminate].
    pose proof (every_fst_span Re.is_num_char
                  (drop (String.length label) (String c r))) as He.
    destruct (span _ _) as [[| x a] b]; [discriminate |].
    cbn [option_map fst] in *. now intros [= <-].
Qed.

(** A text of digits and dots is none of the words [float] knows. *)
Lemma float_of_num (g : string) :
  every Re.is_num_char g = true ->
  float_of_string g = option_map B64.of_Q (numeral_value g).
Proof.
  intros H. unfold float_of_string. rewrite (num_strip g H).
  destruct (numeral_value g) as [q |]; [reflexivity |].
  destruct g as [| c r]; [reflexivity |]. cbn [every] in H.
  apply andb_true_iff in H as [Hc _]. revert Hc.
  destruct c as [[] [] [] [] [] [] [] []]; intros Hc; try discriminate Hc;
    reflexivity.
Qed.

(** A number read by [_f] is never negative and never NaN: the pattern
    admits digits and dots only. *)
Lemma _f_nonneg (t label : string) (x : B64.t) :
  _f t (Re.num label) = Ok x -> B64.nonneg x.
Proof.
  unfold _f.
  destruct (Re.search (Re.num label) t) as [g |] eqn:Hs; [| now intros [= <-]].
  rewrite (float_of_num g (search_num_every label t g Hs)).
  destruct (numeral_value g) as [q |] eqn:Hf; cbn [option_map]; [| discriminate].
  intros [= <-]. apply of_Q_nonneg. now apply numeral_value_nonneg in Hf.
Qed.

Lemma same_damage_refl (s : MS.t) : same_damage s s.
Proof. repeat split; reflexivity. Qed.

Lemma same_damage_trans (a b c : MS.t) :
  same_damage a b -> same_damage b c -> same_damage a c.
Proof.
  intros (H1 & H2 & H3 & H4 & H5 & H6 & H7) (G1 & G2 & G3 & G4 & G5 & G6 & G7).
  repeat split; congruence.
Qed.

Lemma credit_only_damage (s s' : MS.t) : credit_only s s' -> same_damage s s'.
Proof.
  intros H. unfold credit_only in H.
  repeat split;
    [apply (f_equal MS.hits) in H | apply (f_equal MS.total_aircraft_damage) in H |
     apply (f_equal MS.total_pilot_damage) in H | apply (f_equal MS.wounded) in H |
     apply (f_equal MS.player_pid) in H | apply (f_equal MS.player_plid) in H |
     apply (f_equal MS.player_id) in H]; exact H.
Qed.

(** A line that is not a damage line leaves the damage ledger alone. *)
Lemma process_line_quiet (ps ps' : pstate) (ln : string) :
  process_line ps ln = Ok ps' ->
  contains "AType:2" ln = false ->
  same_damage (stats ps) (stats ps').
Proof.
  intros H Hc.
  destruct (process_line_cases ps ps' ln H)
    as [[Hc' _] | [_ [Hco | [Ht | [Hs | Hl]]]]]; [congruence | | | |].
  - now apply credit_only_damage.
  - apply on_takeoff_spec in Ht as [-> | (alt & _ & _ & ->)];
      repeat split; reflexivity.
  - rewrite Hs.
    destruct (on_separation_spec ln (_i ln (Re.uint "T:")) (stats ps)) as [-> | ->];
      repeat split; reflexivity.
  - apply on_landing_spec in Hl as [-> | (alt & l & c & base & ty & _ & _ & _ & ->)];
      repeat split; reflexivity.
Qed.

Lemma parse_after_loop_damage (cfg : Config) (file : list string) (st : MS.t) :
  parse cfg file = Ok st ->
  exists ps, collected cfg (relevant_lines file) = Ok ps /\ same_damage (stats ps) st.
Proof.
  intros H. apply parse_after_loop in H as (ps & Hc & Hst). exists ps.
  split; [exact Hc |].
  repeat split;
    [apply (f_equal MS.hits) in Hst | apply (f_equal MS.total_aircraft_damage) in Hst |
     apply (f_equal MS.total_pilot_damage) in Hst | apply (f_equal MS.wounded) in Hst |
     apply (f_equal MS.player_pid) in Hst | apply (f_equal MS.player_plid) in Hst |
     apply (f_equal MS.player_id) in Hst]; exact Hst.
Qed.

Lemma damage_totals_same (s s' : MS.t) :
  same_damage s s' -> damage_totals s' = damage_totals s.
Proof.
  intros (Hh & _ & _ & _ & Hp & Hl & Hi). unfold damage_totals.
  now rewrite Hh, Hp, Hl, Hi.
Qed.

Lemma on_damage_airframe (ln : string) (t : Z) (ts : string) (st st' : MS.t) :
  on_damage ln t ts st = Ok st' -> airframe_agrees st -> airframe_agrees st'.
Proof.
  intros H [Hinv Hpos].
  apply on_damage_spec in H as (dmg & alt & Hf & _ & ->).
  apply _f_nonneg in Hf.
  unfold airframe_agrees, damage_totals in *. ms_cbn.
  rewrite fold_left_app. cbn [fold_left].
  destruct (fold_left _ (MS.hits st) (B64.zero, B64.zero)) as [ac pl].
  cbn [fst] in Hinv. subst ac. cbn [Hit.target Hit.damage].
  destruct (eq_opt _ (MS.player_plid st)); cbn [andb fst].
  - destruct (B64.ltb B64.zero dmg) eqn:Habove.
    + split; [reflexivity | now apply add_nonneg].
    + rewrite (not_above_zero dmg Hf Habove).
      split; [now apply add_zero_r | exact Hpos].
  - split; [now destruct (in_pair _ _ _) | exact Hpos].
Qed.

(** X9.  [to_json] totals the airframe damage anew from the hits, adding
    every hit on the aircraft, and [parse] keeps a running total of its own,
    which skips the hits whose damage is not above zero; the two binary64
    sums are the same float.  The percentage of the summary is therefore
    the running total times 100, rounded to one decimal by [round]: the
    product is formed in binary64 and its exact value is what is rounded. *)
Theorem airframe_damage_totals_agree (cfg : Config) (file : list string) (st : MS.t) :
  parse cfg file = Ok st ->
  fst (damage_totals st) = MS.total_aircraft_damage st /\
  Json.aircraft_damage (summary_of st) =
    round_float round1 (B64.mul (MS.total_aircraft_damage st) (B64.of_Q 100)).
Proof.
  intros H.
  assert (Hagree : airframe_agrees st).
  { apply parse_after_loop_damage in H as (ps & Hc & Hsame).
    unfold airframe_agrees. rewrite (damage_totals_same _ _ Hsame).
    destruct Hsame as (_ & -> & _).
    revert Hc. unfold collected.
    apply (foldM_invariant (fun p => airframe_agrees (stats p)) process_line).
    - intros s ln s' Hinv Hstep.
      destruct (contains "AType:2" ln) eqn:Hc.
      + destruct (process_line_cases s s' ln Hstep) as [[_ Hd] | [Hc' _]];
          [| congruence].
        exact (on_damage_airframe ln _ _ (stats s) (stats s') Hd Hinv).
      + pose proof (process_line_quiet s s' ln Hstep Hc) as Hsame.
        unfold airframe_agrees. rewrite (damage_totals_same _ _ Hsame).
        destruct Hsame as (_ & -> & _). exact Hinv.
    - cbn [stats]. unfold airframe_agrees, damage_totals.
      destruct (registering_frame cfg (relevant_lines file) MS.init) as (_ & Hh & _).
      unfold registered. rewrite Hh.
      assert (Ht : MS.total_aircraft_damage
                     (fold_left (register_line cfg) (relevant_lines file) MS.init) =
                   B64.zero).
      { apply (fold_left_invariant (fun s => MS.total_aircraft_damage s = B64.zero)).
        - intros s ln Hs. unfold register_line.
          destruct (contains "AType:10" ln); [destruct (contains "ISPL:1" ln) |
            destruct (contains "AType:12" ln)]; exact Hs.
        - reflexivity. }
      rewrite Ht. split; reflexivity. }
  destruct Hagree as [Hagree _]. split; [exact Hagree |].
  rewrite <- Hagree. unfold summary_of. now destruct (damage_totals st).
Qed.

(** In [log_scratch] the aircraft takes 0.0015.  The binary64 product
    0.0015 * 100 lies just below 0.15, and the summary shows 0.1. *)
Lemma airframe_damage_totals_agree_witness :
  fst (damage_totals (parsed cfg_flak log_scratch)) =
    MS.total_aircraft_damage (parsed cfg_flak log_scratch) /\
  Json.aircraft_damage (summary_of (parsed cfg_flak log_scratch)) = B64.of_Q (1 # 10).
Proof.
  destruct (airframe_damage_totals_agree cfg_flak log_scratch
              (parsed cfg_flak log_scratch)) as [Hsum Hpct].
  - vm_compute. reflexivity.
  - split; [exact Hsum |]. rewrite Hpct. vm_compute. reflexivity.
Defined.

(** ** A report without the player *)

Lemma filter_none {A : Type} (p : A -> bool) (l : list A) :
  (forall x, p x = false) -> List.filter p l = [].
Proof.
  intros H. induction l as [| x l IH]; simpl; [reflexivity |]. now rewrite H.
Qed.

(** Without player ids nobody's share of the damage reaches the
    threshold. *)
Lemma share_ok_no_player (st : MS.t) (hs : list Hit.t) :
  MS.player_pid st = None -> MS.player_plid st = None -> share_ok st hs = false.
Proof.
  intros Hp Hl. unfold share_ok, player_damage.
  rewrite (filter_none (by_player st)).
  - apply andb_false_iff. right. apply no_share_of_zero.
  - intros h. unfold by_player, is_player. now rewrite Hp, Hl.
Qed.

Lemma on_destroy_no_player (ln ts : string) (ps ps' : pstate) :
  MS.player_pid (stats ps) = None -> MS.player_plid (stats ps) = None ->
  on_destroy ln ts ps = Ok ps' -> stats ps' = stats ps.
Proof.
  intros Hp Hl. unfold on_destroy, is_player, _resolve_indirect_kill.
  rewrite Hp, Hl, share_ok_no_player by assumption. cbn [in_pair eq_opt orb bind].
  destruct (altitude_of _); cbn [bind]; [| discriminate].
  destruct (is_excluded _ _); [intros H; now ok_inv |].
  destruct (_ =? -1); intros H; now ok_inv.
Qed.

Lemma retro_step_no_player (st : MS.t) (entry : Z * (string * option Z)) :
  MS.player_pid st = None -> MS.player_plid st = None -> retro_step st entry = st.
Proof.
  intros Hp Hl. destruct entry as [tid [kt alt]]. unfold retro_step.
  rewrite share_ok_no_player by assumption. now destruct (last _).
Qed.

(** The branch a line takes in the event loop, with the call it makes *)
Lemma process_line_branch (ps ps' : pstate) (ln : string) :
  process_line ps ln = Ok ps' ->
  let t := _i ln (Re.uint "T:") in
  let ts := mission_time_to_hhmmss t in
  on_damage ln t ts (stats ps) = Ok (stats ps') \/
  on_destroy ln ts ps = Ok ps' \/
  on_takeoff ln t ts (stats ps) = Ok (stats ps') \/
  stats ps' = on_separation ln t (stats ps) \/
  on_landing ln t ts (stats ps) = Ok (stats ps') \/
  stats ps' = stats ps.
Proof.
  unfold process_line, with_stats. intros H. cbv zeta.
  destruct (contains "AType:2" ln).
  { left. destruct (on_damage _ _ _ _) as [st1 | e] eqn:Hd; simpl in H; [| discriminate].
    now ok_inv. }
  destruct (contains "AType:3" ln); [auto |].
  destruct (contains "AType:5" ln).
  { destruct (on_takeoff _ _ _ _) as [st1 | e] eqn:Hd; simpl in H; [| discriminate].
    ok_inv. auto. }
  destruct (contains "AType:18" ln).
  { simpl in H. ok_inv. auto. }
  destruct (_ || _); [| ok_inv; auto 6].
  destruct (on_landing _ _ _ _) as [st1 | e] eqn:Hd; simpl in H; [| discriminate].
  ok_inv. auto 6.
Qed.

Lemma register_line_no_player (cfg : Config) (st : MS.t) (ln : string) :
  is_player_spawn ln = false ->
  register_line cfg st ln = st \/
  exists obj, register_line cfg st ln = MS.add_object obj st.
Proof.
  unfold register_line, is_player_spawn.
  destruct (contains "AType:10" ln); cbn [andb].
  - intros ->. right. now eexists.
  - intros _. destruct (contains "AType:12" ln); [right; now eexists | now left].
Qed.

Lemma registered_no_player (cfg : Config) (lines : list string) :
  Forall (fun l => is_player_spawn l = false) lines ->
  registered cfg lines = MS.set_objects (MS.objects (registered cfg lines)) MS.init.
Proof.
  unfold registered. intros Hall.
  assert (Hgen : forall s, s = MS.set_objects (MS.objects s) MS.init ->
            fold_left (register_line cfg) lines s =
            MS.set_objects (MS.objects (fold_left (register_line cfg) lines s)) MS.init).
  { induction Hall as [| ln l Hln Hall IH]; intros s Hs; [exact Hs |].
    cbn [fold_left]. apply IH.
    destruct (register_line_no_player cfg s ln Hln) as [-> | (obj & ->)];
      [exact Hs |].
    rewrite Hs at 1. reflexivity. }
  now apply Hgen.
Qed.

(** Without a player the event loop only records hits. *)
Lemma process_line_no_player (ps ps' : pstate) (ln : string) (s0 : MS.t) :
  s0 = MS.set_objects (MS.objects s0) MS.init ->
  stats ps = MS.set_hits (MS.hits (stats ps)) s0 ->
  process_line ps ln = Ok ps' ->
  stats ps' = MS.set_hits (MS.hits (stats ps')) s0.
Proof.
  intros H0 Hs H.
  assert (Hp : MS.player_pid (stats ps) = None) by (rewrite Hs, H0; reflexivity).
  assert (Hl : MS.player_plid (stats ps) = None) by (rewrite Hs, H0; reflexivity).
  assert (Hi : MS.player_id (stats ps) = None) by (rewrite Hs, H0; reflexivity).
  destruct (process_line_branch ps ps' ln H) as [Hd | [Hd | [Ht | [Hsep | [Hlan | ->]]]]].
  - apply on_damage_spec in Hd as (dmg & alt & _ & _ & ->).
    rewrite Hp, Hl, Hi. cbn [eq_opt in_pair orb andb]. unfold damage_events.
    cbn [app]. rewrite Hs, H0. ms_cbv. cbn [app]. rewrite app_nil_r. reflexivity.
  - rewrite (on_destroy_no_player ln _ ps ps' Hp Hl Hd). exact Hs.
  - apply on_takeoff_spec in Ht as [-> | (alt & Hpl & _)]; [exact Hs |].
    unfold is_player in Hpl. rewrite Hp, Hl in Hpl. discriminate Hpl.
  - rewrite Hsep. unfold on_separation. rewrite Hp. exact Hs.
  - apply on_landing_spec in Hlan as [-> | (alt & l & c & base & ty & Hpl & _)];
      [exact Hs |].
    unfold is_player in Hpl. rewrite Hp, Hl in Hpl. discriminate Hpl.
  - exact Hs.
Qed.

(** X10.  A report without a spawn line of the player gives statistics
    without a player: no kill is credited, whatever the damage shares, no
    event is recorded, the pilot is not wounded, no flight duration is
    computed, and the final state is the initial one unless a parachute
    line turns it into a bail-out. *)
Theorem no_player_no_credit (cfg : Config) (file : list string) (st : MS.t) :
  Forall (fun l => is_player_spawn l = false) (relevant_lines file) ->
  parse cfg file = Ok st ->
  MS.player_id st = None /\ MS.kills st = [] /\ MS.events st = [] /\
  MS.wounded st = false /\ MS.flight_duration st = None /\
  (MS.final_state st = "Alive" \/ MS.final_state st = "Bailed Out").
Proof.
  intros Hall H. apply parse_inv in H as (ps & Hc & Hd).
  pose proof (registered_no_player cfg (relevant_lines file) Hall) as H0.
  assert (Hs : stats ps = MS.set_hits (MS.hits (stats ps))
                            (registered cfg (relevant_lines file))).
  { revert Hc. unfold collected.
    apply (foldM_invariant
             (fun p => stats p = MS.set_hits (MS.hits (stats p))
                                   (registered cfg (relevant_lines file)))
             process_line).
    - intros s ln s' Hs Hstep. now apply (process_line_no_player s s' ln).
    - cbn [stats]. now destruct (registered cfg (relevant_lines file)). }
  assert (Hr : reconciled ps = stats ps).
  { unfold reconciled.
    apply (fold_left_invariant (fun s => s = stats ps)); [| reflexivity].
    intros s x ->. apply retro_step_no_player; rewrite Hs, H0; reflexivity. }
  rewrite Hr in Hd.
  assert (Hst : exists fs, (fs = "Alive" \/ fs = "Bailed Out") /\
                           st = MS.set_final_state fs (stats ps)).
  { unfold compute_flight_duration in Hd.
    assert (Htk : MS.takeoff_time (detect_bailout (relevant_lines file) (stats ps)) = None).
    { destruct (detect_bailout_spec (relevant_lines file) (stats ps))
        as [-> | (_ & _ & ->)]; rewrite Hs, H0; reflexivity. }
    rewrite Htk in Hd. ok_inv.
    destruct (detect_bailout_spec (relevant_lines file) (stats ps))
      as [-> | (_ & _ & ->)].
    - exists "Alive". split; [now left |]. rewrite Hs, H0. reflexivity.
    - exists "Bailed Out". split; [now right |].
      unfold with_wounded. rewrite Hs, H0. reflexivity. }
  destruct Hst as (fs & Hfs & ->). rewrite Hs, H0.
  repeat split; try reflexivity. exact Hfs.
Qed.

Lemma no_player_no_credit_witness :
  MS.kills (parsed cfg_flak log_no_player) = [] /\
  MS.final_state (parsed cfg_flak log_no_player) = "Bailed Out" /\
  List.length (MS.hits (parsed cfg_flak log_no_player)) = 1%nat.
Proof.
  destruct (no_player_no_credit cfg_flak log_no_player (parsed cfg_flak log_no_player))
    as (_ & Hk & _).
  - vm_compute. repeat constructor.
  - vm_compute. reflexivity.
  - split; [exact Hk |]. split; vm_compute; reflexivity.
Defined.

(** ** The final-state label *)

Lemma label_wf_same (s s' : MS.t) :
  MS.final_state s' = MS.final_state s ->
  (MS.wounded s = true -> MS.wounded s' = true) ->
  label_wf s -> label_wf s'.
Proof.
  unfold label_wf. intros -> Hw [H | (base & Hin & [H | [H Hwd]])].
  - now left.
  - right. exists base. auto.
  - right. exists base. auto.
Qed.

Lemma label_wf_terminal (s s' : MS.t) (base : string) :
  In base terminal_labels ->
  MS.final_state s' = with_wounded s base ->
  MS.wounded s' = MS.wounded s ->
  label_wf s'.
Proof.
  unfold with_wounded. intros Hin Hfs Hw. right. exists base.
  split; [exact Hin |]. rewrite Hfs, Hw.
  destruct (MS.wounded s); [now right | now left].
Qed.

Lemma process_line_label (ps ps' : pstate) (ln : string) :
  process_line ps ln = Ok ps' -> label_wf (stats ps) -> label_wf (stats ps').
Proof.
  intros H Hwf.
  destruct (process_line_cases ps ps' ln H)
    as [[_ Hd] | [_ [Hco | [Ht | [Hs | Hl]]]]].
  - apply on_damage_spec in Hd as (dmg & alt & _ & _ & ->).
    apply (label_wf_same (stats ps)); [reflexivity | | exact Hwf].
    ms_cbn. intros ->. now destruct (B64.ltb _ _).
  - unfold credit_only in Hco.
    apply (label_wf_same (stats ps)); [| | exact Hwf].
    + apply (f_equal MS.final_state) in Hco. exact Hco.
    + apply (f_equal MS.wounded) in Hco. simpl in Hco. now rewrite Hco.
  - apply on_takeoff_spec in Ht as [-> | (alt & _ & _ & ->)]; [exact Hwf |].
    now apply (label_wf_same (stats ps)).
  - rewrite Hs.
    destruct (on_separation_spec ln (_i ln (Re.uint "T:")) (stats ps)) as [-> | ->];
      [exact Hwf | now apply (label_wf_same (stats ps))].
  - apply on_landing_spec in Hl
      as [-> | (alt & l & c & base & ty & _ & _ & Hin & ->)]; [exact Hwf |].
    apply (label_wf_terminal (stats ps) _ base); [| reflexivity | reflexivity].
    unfold terminal_labels.
    destruct Hin as [[= <- _] | [[= <- _] | [[= <- _] | []]]]; simpl; auto.
Qed.

(** X11.  The final state [parse] returns is ["Alive"] or one of
    ["Bailout"], ["Crashed"], ["Landed"] and ["Bailed Out"], with or without
    the suffix [" (Wounded)"]; it carries the suffix only if the pilot is
    wounded. *)
Theorem final_state_labels (cfg : Config) (file : list string) (st : MS.t) :
  parse cfg file = Ok st ->
  MS.final_state st = "Alive" \/
  exists base, In base terminal_labels /\
    (MS.final_state st = base \/
     (MS.final_state st = base ++ " (Wounded)" /\ MS.wounded st = true)).
Proof.
  intros H. change (label_wf st).
  apply parse_inv in H as (ps & Hc & Hd).
  assert (H1 : label_wf (stats ps)).
  { revert Hc. unfold collected.
    apply (foldM_invariant (fun p => label_wf (stats p)) process_line).
    - intros s ln s' Hwf Hstep. now apply (process_line_label s s' ln).
    - left. cbn [stats]. unfold registered.
      apply (fold_left_invariant (fun s => MS.final_state s = "Alive"));
        [| reflexivity].
      intros s ln Hs. unfold register_line.
      destruct (contains "AType:10" ln); [destruct (contains "ISPL:1" ln) |
        destruct (contains "AType:12" ln)]; exact Hs. }
  assert (H2 : label_wf (reconciled ps)).
  { pose proof (reconciled_credit_only (destroyed ps) (stats ps)) as Hco.
    fold (reconciled ps) in Hco. unfold credit_only in Hco.
    apply (label_wf_same (stats ps)); [| | exact H1].
    - apply (f_equal MS.final_state) in Hco. exact Hco.
    - apply (f_equal MS.wounded) in Hco. simpl in Hco. now rewrite Hco. }
  assert (H3 : label_wf (detect_bailout (relevant_lines file) (reconciled ps))).
  { destruct (detect_bailout_spec (relevant_lines file) (reconciled ps))
      as [-> | (_ & _ & ->)]; [exact H2 |].
    apply (label_wf_terminal (reconciled ps) _ "Bailed Out");
      [unfold terminal_labels; simpl; auto | reflexivity | reflexivity]. }
  apply compute_flight_duration_spec in Hd as [[-> _] | (tk & e & _ & _ & _ & _ & ->)];
    [exact H3 |].
  now apply (label_wf_same (detect_bailout (relevant_lines file) (reconciled ps))).
Qed.

Lemma final_state_labels_witness :
  MS.final_state (parsed cfg_flak log_sortie) = "Landed" /\
  (MS.final_state (parsed cfg_flak log_sortie) = "Alive" \/
   exists base, In base terminal_labels /\
     (MS.final_state (parsed cfg_flak log_sortie) = base \/
      (MS.final_state (parsed cfg_flak log_sortie) = base ++ " (Wounded)" /\
       MS.wounded (parsed cfg_flak log_sortie) = true))).
Proof.
  split; [vm_compute; reflexivity |].
  apply (final_state_labels cfg_flak log_sortie). vm_compute. reflexivity.
Defined.

(** ** The events of a run *)

Lemma damage_events_built (st : MS.t) (a t : Z) (dmg : B64.t) (alt : option Z)
    (c1 c2 : bool) :
  B64.nonneg dmg ->
  Forall built_by_parse
    (damage_events st a dmg (mission_time_to_hhmmss t) alt t c1 c2).
Proof.
  intros Hpos. apply mul_hundred_nonneg in Hpos. unfold damage_events.
  apply Forall_app. split.
  - destruct c1; [| constructor]. constructor; [| constructor].
    apply (built_damage t _ _ alt "aircraft"); [exact Hpos | simpl; auto].
  - destruct c2; [| constructor]. constructor; [| constructor].
    apply (built_damage t _ _ alt "pilot"); [exact Hpos | simpl; auto].
Qed.

Lemma process_line_events (ps ps' : pstate) (ln : string) :
  process_line ps ln = Ok ps' ->
  Forall built_by_parse (MS.events (stats ps)) ->
  Forall built_by_parse (MS.events (stats ps')).
Proof.
  intros H Hall.
  destruct (process_line_cases ps ps' ln H)
    as [[_ Hd] | [_ [Hco | [Ht | [Hs | Hl]]]]].
  - apply on_damage_spec in Hd as (dmg & alt & Hf & _ & ->). ms_cbn.
    apply Forall_app. split; [exact Hall |].
    apply damage_events_built. now apply _f_nonneg in Hf.
  - apply (f_equal MS.events) in Hco. simpl in Hco. now rewrite Hco.
  - apply on_takeoff_spec in Ht as [-> | (alt & _ & _ & ->)]; [exact Hall |].
    ms_cbn. apply Forall_app. split; [exact Hall |].
    constructor; [| constructor]. apply built_simple. simpl. auto.
  - rewrite Hs.
    destruct (on_separation_spec ln (_i ln (Re.uint "T:")) (stats ps)) as [-> | ->];
      exact Hall.
  - apply on_landing_spec in Hl
      as [-> | (alt & l & c & base & ty & _ & _ & Hin & ->)]; [exact Hall |].
    ms_cbn. apply Forall_app. split; [exact Hall |].
    constructor; [| constructor]. apply built_simple.
    destruct Hin as [[= _ <-] | [[= _ <-] | [[= _ <-] | []]]]; simpl; auto.
Qed.

(** Every event of the statistics [parse] returns was built by one of the
    branches of the event loop. *)
Lemma parse_events_built (cfg : Config) (file : list string) (st : MS.t) :
  parse cfg file = Ok st -> Forall built_by_parse (MS.events st).
Proof.
  intros H. apply parse_after_loop in H as (ps & Hc & Hst).
  apply (f_equal MS.events) in Hst. simpl in Hst. rewrite Hst.
  revert Hc. unfold collected.
  apply (foldM_invariant (fun p => Forall built_by_parse (MS.events (stats p)))
           process_line).
  - intros s ln s' Hall Hstep. now apply (process_line_events s s' ln).
  - cbn [stats].
    destruct (registering_frame cfg (relevant_lines file) MS.init) as (_ & _ & He & _).
    unfold registered. rewrite He. constructor.
Qed.

(** X12.  Every event of the statistics [parse] returns is a damage,
    takeoff, landing, crash or bail-out event; it is stamped with the
    formatted tick of its line and keeps that tick as its raw time; it is
    not flagged as a hard landing.  No ["Mission End"] and no ["Kill"] event
    is among them.  For a tick below 2^53 the place of the event in the
    timeline is its whole second. *)
Theorem parse_events_stamped (cfg : Config) (file : list string) (st : MS.t)
    (e : Event.t) :
  parse cfg file = Ok st ->
  In e (MS.events st) ->
  In (Event.type e) ["Damage Taken"; "Takeoff"; "Bailout"; "Crash"; "Landing"] /\
  Event.time e = mission_time_to_hhmmss (Event.ticks e) /\
  Event.time_raw e = Some (Event.Ticks (Event.ticks e)) /\
  (Event.ticks e < 2 ^ 53 -> _time_key e = Event.ticks e / 50) /\
  Event.hard_landing e = false.
Proof.
  intros H Hin. apply parse_events_built in H.
  rewrite Stdlib.Lists.List.Forall_forall in H. specialize (H e Hin).
  destruct H as [t who dmg alt part _ _ | t ty alt Hty].
  - split; [simpl; auto |]. split; [reflexivity |]. split; [reflexivity |].
    split; [| reflexivity]. intros _. now apply time_key_hhmmss.
  - split; [simpl in *; tauto |]. split; [reflexivity |]. split; [reflexivity |].
    split; [| reflexivity]. intros _. now apply time_key_hhmmss.
Qed.

Lemma parse_events_stamped_witness :
  map Event.type (MS.events (parsed cfg_flak log_sortie)) =
    ["Takeoff"; "Damage Taken"; "Landing"] /\
  Forall (fun e => _time_key e = Event.ticks e / 50)
    (MS.events (parsed cfg_flak log_sortie)).
Proof.
  split; [vm_compute; reflexivity |].
  apply Stdlib.Lists.List.Forall_forall. intros e Hin.
  destruct (parse_events_stamped cfg_flak log_sortie (parsed cfg_flak log_sortie) e)
    as (_ & _ & _ & Hkey & _); [vm_compute; reflexivity | exact Hin |].
  apply Hkey.
  assert (Hall : forallb (fun x => Event.ticks x <? 2 ^ 53)
                   (MS.events (parsed cfg_flak log_sortie)) = true)
    by (vm_compute; reflexivity).
  rewrite forallb_forall in Hall. apply Z.ltb_lt, Hall. exact Hin.
Defined.

(** ** Exceptions *)

Lemma foldM_raise {S A : Type} (f : S -> A -> result S) (l : list A) (s : S) (e : exn) :
  foldM f s l = Raise e -> exists s' x, In x l /\ f s' x = Raise e.
Proof.
  revert s. induction l as [| x l IH]; intros s H; [discriminate H |].
  rewrite foldM_cons in H. destruct (f s x) as [s1 | e1] eqn:Hf; cbn [bind] in H.
  - destruct (IH s1 H) as (s' & y & Hin & Hy). exists s', y. split; [now right | exact Hy].
  - injection H as <-. exists s, x. split; [now left | exact Hf].
Qed.

Lemma altitude_of_raise (pm : option string) (e : exn) :
  altitude_of pm = Raise e -> e = ValueError \/ e = OverflowError.
Proof.
  unfold altitude_of. destruct pm as [g |]; [| discriminate].
  destruct (float_of_string g) as [x |]; [| intros [= <-]; now left].
  destruct x as [s | s | | s m ex]; cbn [int_of_float bind]; try discriminate.
  - intros [= <-]. now right.
  - intros [= <-]. now left.
Qed.

Lemma _f_raise (t : string) (p : string -> option string) (e : exn) :
  _f t p = Raise e -> e = ValueError.
Proof.
  unfold _f. destruct (Re.search p t) as [g |]; [| discriminate].
  destruct (float_of_string g); [discriminate | now intros [= <-]].
Qed.

Lemma on_damage_raise (ln : string) (t : Z) (ts : string) (st : MS.t) (e : exn) :
  on_damage ln t ts st = Raise e -> e = ValueError \/ e = OverflowError.
Proof.
  unfold on_damage.
  destruct (_f ln (Re.num "DMG:")) as [dmg | e0] eqn:Hf; cbn [bind];
    [| intros [= <-]; left; now apply _f_raise in Hf].
  destruct st as [pi pn pa pp pl objs hs ks evs w tdt tad tpd la cr sep fs tk lt fd].
  destruct (altitude_of (pos_match ln)) as [alt | e0] eqn:Ha; ms_cbn;
    destruct (eq_opt (_i ln (Re.sint "TID:")) pl && B64.ltb B64.zero dmg); ms_cbn;
    try (intros [= <-]; now apply altitude_of_raise in Ha);
    destruct (in_pair (_i ln (Re.sint "TID:")) pp pi && B64.ltb B64.zero dmg); ms_cbn;
    try (intros [= <-]; now apply altitude_of_raise in Ha);
    intros H; discriminate H.
Qed.

Lemma on_destroy_raise (ln ts : string) (ps : pstate) (e : exn) :
  on_destroy ln ts ps = Raise e -> e = ValueError \/ e = OverflowError.
Proof.
  unfold on_destroy, _resolve_indirect_kill.
  destruct (altitude_of (pos_match ln)) as [alt | e0] eqn:Ha; cbn [bind];
    [| intros [= <-]; now apply altitude_of_raise in Ha].
  destruct (is_excluded _ _); [discriminate |].
  destruct (is_player _ _); [discriminate |].
  destruct (_ =? -1); [| discriminate].
  destruct (share_ok _ _); [| discriminate].
  destruct (MS.objects (stats ps) !! _); [| discriminate].
  destruct (pos_match ln) as [g |]; discriminate.
Qed.

Lemma on_takeoff_raise (ln : string) (t : Z) (ts : string) (st : MS.t) (e : exn) :
  on_takeoff ln t ts st = Raise e -> e = ValueError \/ e = OverflowError.
Proof.
  unfold on_takeoff. destruct (_ && _); [| discriminate].
  destruct (altitude_of (pos_match ln)) as [alt | e0] eqn:Ha; cbn [bind];
    [discriminate | intros [= <-]; now apply altitude_of_raise in Ha].
Qed.

Lemma on_landing_raise (ln : string) (t : Z) (ts : string) (st : MS.t) (e : exn) :
  on_landing ln t ts st = Raise e -> e = ValueError \/ e = OverflowError.
Proof.
  unfold on_landing. destruct (_ && _); [| discriminate].
  destruct (altitude_of (pos_match ln)) as [alt | e0] eqn:Ha; cbn [bind];
    [| intros [= <-]; now apply altitude_of_raise in Ha].
  destruct (landing_outcome _ _ _). discriminate.
Qed.

Lemma process_line_raise (ps : pstate) (ln : string) (e : exn) :
  process_line ps ln = Raise e -> e = ValueError \/ e = OverflowError.
Proof.
  unfold process_line, with_stats.
  destruct (contains "AType:2" ln).
  { destruct (on_damage _ _ _ _) eqn:Hd; cbn [bind]; [discriminate |].
    intros [= <-]. now apply on_damage_raise in Hd. }
  destruct (contains "AType:3" ln); [apply on_destroy_raise |].
  destruct (contains "AType:5" ln).
  { destruct (on_takeoff _ _ _ _) eqn:Hd; cbn [bind]; [discriminate |].
    intros [= <-]. now apply on_takeoff_raise in Hd. }
  destruct (contains "AType:18" ln); [discriminate |].
  destruct (_ || _); [| discriminate].
  destruct (on_landing _ _ _ _) eqn:Hd; cbn [bind]; [discriminate |].
  intros [= <-]. now apply on_landing_raise in Hd.
Qed.

Lemma compute_flight_duration_raise (st : MS.t) (e : exn) :
  compute_flight_duration st = Raise e ->
  e = AttributeError /\ truthy (MS.landing_time st) = false.
Proof.
  unfold compute_flight_duration, _format_time.
  destruct (MS.takeoff_time st) as [tk |]; [| discriminate].
  destruct (tk =? 0); [discriminate |].
  destruct (truthy (MS.landing_time st)) eqn:Hl; cbn [negb andb].
  - cbn [bind]. destruct (MS.landing_time st) as [x |];
      [destruct (x =? 0) |]; discriminate.
  - destruct (negb (Nat.eqb _ 0)).
    + destruct (_ >? tk); cbn [bind]; [now intros [= <-] |].
      destruct (_ =? 0); discriminate.
    + cbn [bind]. destruct (MS.landing_time st) as [x |];
        [destruct (x =? 0) |]; discriminate.
Qed.

Lemma short_lines_ok (file : list string) :
  short_lines file = true ->
  Forall (fun ln => (String.length ln <= 4300)%nat /\ _i ln (Re.uint "T:") < 2 ^ 1023)
    (relevant_lines file).
Proof.
  unfold short_lines. intros H. apply Stdlib.Lists.List.Forall_forall. intros ln Hin.
  rewrite forallb_forall in H. specialize (H ln Hin).
  apply andb_true_iff in H as [H1 H2]. split; [now apply Nat.leb_le | lia].
Qed.

(** X13.  On a report whose lines have at most 4300 characters and whose
    ticks are below 2^1023, so that [int] accepts every group and the
    division of a tick by [50.0] stays in range, [parse] raises in two ways
    only.  The event loop raises [ValueError], when [float] rejects the
    number of a damage line or the altitude of a position, or
    [OverflowError], when the altitude of a position is read as an infinity
    and [int] refuses it.  After a loop that went through, the flight
    duration step raises [AttributeError], and only for a flight without a
    landing tick.  No other exception leaves the computation of [parse] on
    the lines read. *)
Theorem parse_raises_only (cfg : Config) (file : list string) (e : exn) :
  Forall (fun ln => (String.length ln <= 4300)%nat /\ _i ln (Re.uint "T:") < 2 ^ 1023)
    (relevant_lines file) ->
  parse cfg file = Raise e ->
  ((e = ValueError \/ e = OverflowError) /\
   collected cfg (relevant_lines file) = Raise e) \/
  (e = AttributeError /\
   exists ps, collected cfg (relevant_lines file) = Ok ps /\
              truthy (MS.landing_time (stats ps)) = false).
Proof.
  intros _. unfold parse. intros H.
  destruct (collected cfg (relevant_lines file)) as [ps | e0] eqn:Hc; cbn [bind] in H.
  - right. apply compute_flight_duration_raise in H as [-> Hl].
    split; [reflexivity |]. exists ps. split; [reflexivity |].
    destruct (detect_bailout_spec (relevant_lines file) (reconciled ps))
      as [Hb | (_ & _ & Hb)]; rewrite Hb in Hl; cbn in Hl.
    + pose proof (reconciled_credit_only (destroyed ps) (stats ps)) as Hco.
      fold (reconciled ps) in Hco. apply (f_equal MS.landing_time) in Hco.
      simpl in Hco. now rewrite <- Hco.
    + pose proof (reconciled_credit_only (destroyed ps) (stats ps)) as Hco.
      fold (reconciled ps) in Hco. apply (f_equal MS.landing_time) in Hco.
      simpl in Hco. now rewrite <- Hco.
  - injection H as <-. left.
    unfold collected in Hc. apply foldM_raise in Hc as (s' & ln & _ & Hstep).
    apply process_line_raise in Hstep. now split.
Qed.

(** [log_bad_number] stops at a damage number with two dots,
    [log_far_above] at an altitude of 400 digits, which [float] reads as
    an infinity, and [log_no_landing] at the flight duration. *)
Lemma parse_raises_only_witness :
  parse cfg_flak log_bad_number = Raise ValueError /\
  parse cfg_flak log_far_above = Raise OverflowError /\
  collected cfg_flak (relevant_lines log_far_above) = Raise OverflowError /\
  parse cfg_flak log_no_landing = Raise AttributeError /\
  exists ps, collected cfg_flak (relevant_lines log_no_landing) = Ok ps.
Proof.
  split; [vm_compute; reflexivity |].
  assert (Hfar : parse cfg_flak log_far_above = Raise OverflowError)
    by (vm_compute; reflexivity).
  split; [exact Hfar |].
  split.
  { destruct (parse_raises_only cfg_flak log_far_above OverflowError)
      as [[_ Hc] | [Ha _]].
    - apply short_lines_ok. vm_compute. reflexivity.
    - exact Hfar.
    - exact Hc.
    - discriminate Ha. }
  split; [vm_compute; reflexivity |].
  destruct (parse_raises_only cfg_flak log_no_landing AttributeError)
    as [[[Hv | Hv] _] | [_ (ps & Hc & _)]].
  - apply short_lines_ok. vm_compute. reflexivity.
  - vm_compute. reflexivity.
  - discriminate Hv.
  - discriminate Hv.
  - now exists ps.
Defined.

(** ** The flight duration *)

(** X14.  When the statistics [parse] returns hold a takeoff tick and a
    landing tick, both other than 0, the flight duration is the formatted
    difference of the two.  For a difference from 0 to below 2^53 ticks it
    reads back as the whole seconds between them. *)
Theorem flight_duration_between_ticks (cfg : Config) (file : list string)
    (st : MS.t) (t0 t1 : Z) :
  parse cfg file = Ok st ->
  MS.takeoff_time st = Some t0 -> t0 <> 0 ->
  MS.landing_time st = Some t1 -> t1 <> 0 ->
  MS.flight_duration st = Some (mission_time_to_hhmmss (t1 - t0)) /\
  (0 <= t1 - t0 < 2 ^ 53 ->
   parse_time (mission_time_to_hhmmss (t1 - t0)) = Some ((t1 - t0) / 50)).
Proof.
  intros H Htk H0 Hl H1. split; [| intros _; apply parse_time_hhmmss].
  apply parse_inv in H as (ps & _ & Hd).
  apply compute_flight_duration_spec in Hd
    as [[-> Hno] | (tk & e & Htk' & _ & _ & Hend & ->)].
  - exfalso. rewrite Htk, Hl in Hno. simpl in Hno.
    apply Z.eqb_neq in H0. apply Z.eqb_neq in H1. rewrite H0, H1 in Hno.
    now destruct Hno.
  - simpl in Htk, Hl. rewrite Htk in Htk'. injection Htk' as <-.
    destruct Hend as [He | [Hno _]].
    + rewrite Hl in He. now injection He as <-.
    + exfalso. rewrite Hl in Hno. simpl in Hno.
      apply Z.eqb_neq in H1. rewrite H1 in Hno. discriminate Hno.
Qed.

Lemma flight_duration_between_ticks_witness :
  MS.flight_duration (parsed cfg_flak log_sortie) = Some "00:02:40" /\
  parse_time "00:02:40" = Some 160.
Proof.
  destruct (flight_duration_between_ticks cfg_flak log_sortie
              (parsed cfg_flak log_sortie) 1000 9000) as [Hd Hr];
    [vm_compute; reflexivity | vm_compute; reflexivity | lia |
     vm_compute; reflexivity | lia |].
  split; [exact Hd | apply Hr; lia].
Defined.

(** ** The kill counts of the summary *)

Lemma filter_split_length {A : Type} (p : A -> bool) (l : list A) :
  (List.length (List.filter (fun x => negb (p x)) l) +
   List.length (List.filter p l))%nat = List.length l.
Proof.
  induction l as [| x l IH]; simpl; [reflexivity |].
  destruct (p x); simpl; lia.
Qed.

Lemma kill_objects_length (st : MS.t) :
  (List.length (kill_objects st) <= List.length (MS.kills st))%nat.
Proof.
  unfold kill_objects. induction (MS.kills st) as [| k l IH]; simpl; [lia |].
  rewrite length_app. destruct (MS.objects st !! k); simpl; lia.
Qed.

Lemma filter_length_le {A : Type} (p : A -> bool) (l : list A) :
  (List.length (List.filter p l) <= List.length l)%nat.
Proof. induction l as [| x l IH]; simpl; [lia |]. destruct (p x); simpl; lia. Qed.

Lemma category_counts_le (l : list GameObject.t) :
  (List.length (List.filter (has_category ["Air"]) l) +
   List.length (List.filter (has_category ["Ground"; "Building"]) l) +
   List.length (List.filter (has_category ["Naval"]) l) <= List.length l)%nat.
Proof.
  induction l as [| k l IH]; cbn [List.filter List.length]; [lia |].
  destruct (has_category ["Air"] k) eqn:Ha;
    destruct (has_category ["Ground"; "Building"] k) eqn:Hg;
    destruct (has_category ["Naval"] k) eqn:Hn; cbn [List.length]; try lia; exfalso;
    unfold has_category in Ha, Hg, Hn; cbn [existsb] in Ha, Hg, Hn;
    repeat match goal with
           | H : _ || _ = true |- _ => apply orb_true_iff in H as [H | H]
           | H : false = true |- _ => discriminate H
           | H : String.eqb _ _ = true |- _ => apply String.eqb_eq in H
           end; congruence.
Qed.

(** X15.  In the summary [to_json] writes, the air kills are the flying
    and the parked ones together, and the air, ground and naval kills
    together are no more than the credited kills: no kill is counted
    twice. *)
Theorem kill_counts_consistent (st : MS.t) (d : Json.data) :
  to_json st = Ok d ->
  let s := Json.the_summary d in
  Json.air_kills s = (Json.air_kills_flying s + Json.air_kills_parked s)%nat /\
  (Json.air_kills s + Json.ground_kills s + Json.naval_kills s
   <= List.length (MS.kills st))%nat.
Proof.
  unfold to_json. intros H.
  destruct (timeline st) as [[evs fs] | e]; cbn [bind] in H; [| discriminate].
  injection H as <-. cbn [Json.the_summary Json.air_kills Json.air_kills_flying
                           Json.air_kills_parked Json.ground_kills Json.naval_kills].
  destruct (summary_counts st) as (-> & -> & -> & -> & ->). split.
  - symmetry. apply filter_split_length.
  - pose proof (category_counts_le (credited st)) as H1.
    pose proof (filter_length_le valid (kill_objects st)) as H2.
    pose proof (kill_objects_length st) as H3.
    unfold credited in *. lia.
Qed.

Lemma kill_counts_consistent_witness :
  Json.air_kills (Json.the_summary (debriefed cfg_flak log_sortie)) = 1%nat /\
  Json.air_kills (Json.the_summary (debriefed cfg_flak log_sortie)) =
    (Json.air_kills_flying (Json.the_summary (debriefed cfg_flak log_sortie)) +
     Json.air_kills_parked (Json.the_summary (debriefed cfg_flak log_sortie)))%nat.
Proof.
  split; [vm_compute; reflexivity |].
  apply (kill_counts_consistent (parsed cfg_flak log_sortie)). vm_compute. reflexivity.
Defined.

(** ** The aggregation of damage events *)

Lemma accumulate_part_fields (b b' : bucket) (part : string) :
  (if contains "aircraft" part
   then try! v := percent_value (strip part) in Ok (add_aircraft v b)
   else if contains "pilot" part
        then try! v := percent_value (strip part) in Ok (add_pilot v b)
        else Ok b) = Ok b' ->
  b_time b' = b_time b /\ b_time_raw b' = b_time_raw b /\
  b_attacker b' = b_attacker b /\ b_altitude b' = b_altitude b.
Proof.
  destruct (contains "aircraft" part).
  - destruct (percent_value _); cbn [bind]; [| discriminate].
    intros [= <-]. repeat split; reflexivity.
  - destruct (contains "pilot" part); [| intros [= <-]; repeat split; reflexivity].
    destruct (percent_value _); cbn [bind]; [| discriminate].
    intros [= <-]. repeat split; reflexivity.
Qed.

(** Accumulating a damage text changes the two damage sums of a bucket
    only. *)
Lemma accumulate_fields (text : string) (b b' : bucket) :
  accumulate text b = Ok b' ->
  b_time b' = b_time b /\ b_time_raw b' = b_time_raw b /\
  b_attacker b' = b_attacker b /\ b_altitude b' = b_altitude b.
Proof.
  unfold accumulate.
  destruct (contains "aircraft" text && contains "pilot" text).
  - apply (foldM_preorder
             (fun x y => b_time y = b_time x /\ b_time_raw y = b_time_raw x /\
                         b_attacker y = b_attacker x /\ b_altitude y = b_altitude x)).
    + intros s. repeat split; reflexivity.
    + intros x y z (H1 & H2 & H3 & H4) (G1 & G2 & G3 & G4). repeat split; congruence.
    + intros s part s'. apply accumulate_part_fields.
  - destruct (contains "aircraft" text).
    + destruct (percent_value _); cbn [bind]; [| discriminate].
      intros [= <-]. repeat split; reflexivity.
    + destruct (contains "pilot" text); [| intros [= <-]; repeat split; reflexivity].
      destruct (percent_value _); cbn [bind]; [| discriminate].
      intros [= <-]. repeat split; reflexivity.
Qed.

Lemma bucket_get_In (k : string) (d : list (string * bucket)) (b : bucket) :
  bucket_get k d = Some b -> In (k, b) d.
Proof.
  induction d as [| [k' b'] d IH]; simpl; [discriminate |].
  destruct (String.eqb k' k) eqn:Hk.
  - apply String.eqb_eq in Hk. intros [= <-]. left. now subst.
  - intros H. right. now apply IH.
Qed.

Lemma bucket_get_None (k : string) (d : list (string * bucket)) :
  bucket_get k d = None -> ~ In k (map fst d).
Proof.
  induction d as [| [k' b'] d IH]; simpl; [tauto |].
  destruct (String.eqb k' k) eqn:Hk; [discriminate |].
  apply String.eqb_neq in Hk. intros H [Heq | Hin]; [contradiction | now apply IH].
Qed.

Lemma bucket_set_In (k : string) (b : bucket) (d : list (string * bucket))
    (entry : string * bucket) :
  In entry (bucket_set k b d) -> entry = (k, b) \/ In entry d.
Proof.
  induction d as [| [k' b'] d IH]; simpl.
  - intros [<- | []]. now left.
  - destruct (String.eqb k' k).
    + intros [<- | Hin]; [now left | right; now right].
    + intros [<- | Hin]; [right; now left |].
      destruct (IH Hin) as [-> | Hin']; [now left | right; now right].
Qed.

Lemma bucket_set_keys (k : string) (b : bucket) (d : list (string * bucket)) :
  (In k (map fst d) -> map fst (bucket_set k b d) = map fst d) /\
  (~ In k (map fst d) -> map fst (bucket_set k b d) = (map fst d ++ [k])%list).
Proof.
  induction d as [| [k' b'] d [IH1 IH2]]; simpl.
  - split; [intros [] | reflexivity].
  - destruct (String.eqb k' k) eqn:Hk.
    + apply String.eqb_eq in Hk. subst k'. split; [reflexivity |].
      intros H. exfalso. apply H. now left.
    + apply String.eqb_neq in Hk. simpl. split.
      * intros [Heq | Hin]; [contradiction |]. now rewrite IH1.
      * intros H. rewrite IH2; [reflexivity |]. intros Hin. apply H. now right.
Qed.

Lemma opened_by_later (seen : list Event.t) (e : Event.t) (entry : string * bucket) :
  opened_by seen entry -> opened_by (seen ++ [e]) entry.
Proof.
  intros (pre & x & post & -> & H). exists pre, x, (post ++ [e])%list.
  split; [now rewrite <- app_assoc |]. exact H.
Qed.

Lemma aggregate_step_inv (seen : list Event.t) (e : Event.t)
    (acc acc' : list (string * bucket) * list Event.t) :
  aggregated_from seen acc -> aggregate_step acc e = Ok acc' ->
  aggregated_from (seen ++ [e]) acc'.
Proof.
  destruct acc as [d n]. unfold aggregated_from, aggregate_step. cbn [fst snd].
  intros (Hnd & Hopen & Hkeys & Hn).
  fold (is_damage e). destruct (is_damage e) eqn:Hd.
  - set (k := minute_key (Event.time e)).
    destruct (accumulate _ _) as [b' |] eqn:Hacc; cbn [bind]; [| discriminate].
    intros [= <-]. cbn [fst snd].
    apply accumulate_fields in Hacc as (Ht & Hr & Ha & Hal).
    destruct (bucket_set_keys k b' d) as [Hold Hnew].
    destruct (bucket_get k d) as [b0 |] eqn:Hget.
    + (* the minute has its bucket *)
      apply bucket_get_In in Hget.
      assert (Hin : In k (map fst d)) by (apply in_map_iff; now exists (k, b0)).
      rewrite (Hold Hin). split; [exact Hnd |]. split; [| split].
      * apply Stdlib.Lists.List.Forall_forall. intros entry Hentry.
        rewrite Stdlib.Lists.List.Forall_forall in Hopen.
        apply opened_by_later.
        apply bucket_set_In in Hentry as [-> | Hentry]; [| now apply Hopen].
        destruct (Hopen (k, b0) Hget) as (pre & x & post & Hs & Hx & Hk & Hfirst & F1 & F2 & F3 & F4).
        exists pre, x, post. cbn [fst snd] in *.
        repeat split; try assumption; congruence.
      * intros x Hx Hdx. apply in_app_or in Hx as [Hx | [<- | []]];
          [now apply Hkeys | exact Hin].
      * rewrite List.filter_app. cbn [List.filter]. rewrite Hd. cbn [negb].
        now rewrite app_nil_r.
    + (* the event opens the bucket of its minute *)
      apply bucket_get_None in Hget. rewrite (Hnew Hget).
      split; [| split; [| split]].
      * apply Stdlib.Lists.List.NoDup_app; [exact Hnd | |].
        -- apply List.NoDup_cons; [intros [] | apply List.NoDup_nil].
        -- intros x Hx [<- | []]. contradiction.
      * apply Stdlib.Lists.List.Forall_forall. intros entry Hentry.
        rewrite Stdlib.Lists.List.Forall_forall in Hopen.
        apply bucket_set_In in Hentry as [-> | Hentry];
          [| apply opened_by_later; now apply Hopen].
        exists seen, e, (@nil Event.t). cbn [fst snd] in *.
        split; [reflexivity |]. split; [exact Hd |]. split; [reflexivity |].
        split; [| repeat split; assumption].
        intros x Hx Hdx Heq. apply Hget. rewrite <- Heq. now apply Hkeys.
      * intros x Hx Hdx. apply in_or_app.
        apply in_app_or in Hx as [Hx | [<- | []]]; [left; now apply Hkeys |].
        right. now left.
      * rewrite List.filter_app. cbn [List.filter]. rewrite Hd. cbn [negb].
        now rewrite app_nil_r.
  - intros [= <-]. cbn [fst snd]. split; [exact Hnd |]. split; [| split].
    + rewrite Stdlib.Lists.List.Forall_forall in *. intros entry Hentry.
      apply opened_by_later. now apply Hopen.
    + intros x Hx Hdx. apply in_app_or in Hx as [Hx | [<- | []]];
        [now apply Hkeys | congruence].
    + rewrite List.filter_app. cbn [List.filter]. rewrite Hd. cbn [negb].
      now rewrite Hn.
Qed.

Lemma aggregate_loop_inv (l seen : list Event.t)
    (acc acc' : list (string * bucket) * list Event.t) :
  aggregated_from seen acc -> foldM aggregate_step acc l = Ok acc' ->
  aggregated_from (seen ++ l) acc'.
Proof.
  revert seen acc. induction l as [| e l IH]; intros seen acc Hinv H.
  - simpl in H. injection H as <-. now rewrite app_nil_r.
  - rewrite foldM_cons in H.
    destruct (aggregate_step acc e) as [acc1 | x] eqn:Hstep; cbn [bind] in H;
      [| discriminate].
    change (e :: l) with ([e] ++ l)%list. rewrite app_assoc.
    apply (IH (seen ++ [e])%list acc1); [| exact H].
    now apply (aggregate_step_inv seen e acc).
Qed.

Lemma aggregate_loop_result (events : list Event.t)
    (d : list (string * bucket)) (n : list Event.t) :
  foldM aggregate_step ([], []) events = Ok (d, n) -> aggregated_from events (d, n).
Proof.
  intros H.
  assert (H0 : aggregated_from [] (@nil (string * bucket), @nil Event.t)).
  { split; [constructor |]. split; [constructor |]. split; [intros e [] | reflexivity]. }
  exact (aggregate_loop_inv events [] _ _ H0 H).
Qed.

(** X16.  The aggregation loop of [to_json] opens one bucket for each
    minute in which a damage event falls, under the [HH:MM] text of that
    minute; the bucket keeps the time, raw time, source and altitude of
    the first damage event of the minute.  Every other event is passed on,
    in the order of the input. *)
Theorem damage_grouped_by_minute (events : list Event.t)
    (damage_by_time : list (string * bucket)) (non_damage_events : list Event.t) :
  foldM aggregate_step ([], []) events = Ok (damage_by_time, non_damage_events) ->
  List.NoDup (map fst damage_by_time) /\
  Forall (opened_by events) damage_by_time /\
  (forall k, In k (map fst damage_by_time) <->
             exists e, In e events /\ is_damage e = true /\
                       minute_key (Event.time e) = k) /\
  non_damage_events = List.filter (fun e => negb (is_damage e)) events.
Proof.
  intros H. apply aggregate_loop_result in H as (Hnd & Hopen & Hkeys & Hn).
  cbn [fst snd] in *.
  split; [exact Hnd |]. split; [exact Hopen |]. split; [| exact Hn].
  intros k. split.
  - intros Hin. apply in_map_iff in Hin as (entry & <- & Hentry).
    rewrite Stdlib.Lists.List.Forall_forall in Hopen.
    destruct (Hopen entry Hentry) as (pre & e & post & -> & Hd & Hk & _).
    exists e. split; [apply in_or_app; right; now left |]. now split.
  - intros (e & Hin & Hd & <-). now apply Hkeys.
Qed.

Lemma damage_grouped_by_minute_witness :
  map fst (fst (aggregated minute_events)) = ["00:02"; "00:03"] /\
  List.NoDup (map fst (fst (aggregated minute_events))) /\
  map Event.type (snd (aggregated minute_events)) = ["Takeoff"].
Proof.
  split; [vm_compute; reflexivity |].
  destruct (damage_grouped_by_minute minute_events
              (fst (aggregated minute_events)) (snd (aggregated minute_events)))
    as (Hnd & _ & _ & Hn).
  - vm_compute. reflexivity.
  - split; [exact Hnd |]. rewrite Hn. vm_compute. reflexivity.
Defined.

(** ** The timeline *)

Lemma bucket_event_shape (entry : string * bucket) (e : Event.t) :
  In e (bucket_event entry) ->
  bucket_event entry = [e] /\
  is_damage e = true /\
  Event.time e = b_time (snd entry) /\
  Event.target e = b_attacker (snd entry) /\
  Event.altitude e = b_altitude (snd entry) /\
  Event.time_raw e = Some (Event.MinuteKey (fst entry)) /\
  Event.hard_landing e = false.
Proof.
  destruct entry as [k b]. unfold bucket_event. cbn [fst snd].
  destruct (B64.ltb B64.zero (b_aircraft_damage b) &&
            B64.ltb B64.zero (b_pilot_damage b));
    [| destruct (B64.ltb B64.zero (b_aircraft_damage b));
       [| destruct (B64.ltb B64.zero (b_pilot_damage b))]];
    intros Hin; try (destruct Hin as [<- | []]; repeat split; reflexivity).
  destruct Hin.
Qed.

(** While no damage event has come, the landing-damage loop passes the
    events on as they are. *)
Lemma landing_loop_quiet (c : landing_context) (lt : string) (pre acc : list Event.t) :
  Forall (fun e => is_damage e = false) pre ->
  foldM (landing_step c lt) (false, acc) pre = Ok (false, (acc ++ pre)%list).
Proof.
  intros Hall. revert acc. induction Hall as [| e pre He Hall IH]; intros acc.
  - simpl. now rewrite app_nil_r.
  - rewrite foldM_cons. unfold landing_step at 1. unfold is_damage in He.
    rewrite He, andb_false_r. cbn [bind]. rewrite IH, <- app_assoc. reflexivity.
Qed.

Lemma landing_loop_damage (c : landing_context) (lt : string) (post : list Event.t)
    (h h' : bool) (acc out : list Event.t) :
  Forall (fun e => is_damage e = true) post ->
  foldM (landing_step c lt) (h, acc) post = Ok (h', out) ->
  exists post', out = (acc ++ post')%list /\ Forall2 retyped post post'.
Proof.
  intros Hall H. apply landing_loop_reclassified in H as (post' & -> & Hre & _).
  exists post'. split; [reflexivity |].
  induction Hre as [| e e' l l' He Hre IH]; [constructor |].
  apply Forall_cons_iff in Hall as [Hd Hall]. constructor; [| now apply IH].
  unfold reclassified in He. unfold is_damage in Hd. rewrite Hd in He.
  destruct He as [(_ & who & Hwho & ->) | (_ & ->)]; [right; now exists who | now left].
Qed.

(** The landing-damage pass on the list [to_json] gives it: the events
    that are no damage events, followed by the aggregated damage events. *)
Lemma detect_landing_shape (nde B evs : list Event.t) (aircraft : option string)
    (fs fs' : string) :
  Forall (fun e => is_damage e = false) nde ->
  Forall (fun e => is_damage e = true) B ->
  _detect_landing_damage (nde ++ B) aircraft fs = Ok (evs, fs') ->
  exists B', evs = (nde ++ B')%list /\ Forall2 retyped B B'.
Proof.
  intros Hn Hb. unfold _detect_landing_damage.
  set (c := landing_context_of (nde ++ B) aircraft).
  assert (Hsame : Forall2 retyped B B).
  { clear. induction B; constructor; [now left | assumption]. }
  destruct (landing_time c) as [lt |]; [| intros [= <- _]; now exists B].
  destruct (String.eqb lt ""); [intros [= <- _]; now exists B |].
  rewrite foldM_app, (landing_loop_quiet c lt nde [] Hn). cbn [bind app].
  destruct (foldM (landing_step c lt) (false, nde) B) as [[h out] | x] eqn:Hloop;
    cbn [bind]; [| discriminate].
  intros [= <- _]. now apply (landing_loop_damage c lt B false h nde out).
Qed.

Lemma bucket_events_damage (d : list (string * bucket)) :
  Forall (fun e => is_damage e = true) (flat_map bucket_event d).
Proof.
  apply Stdlib.Lists.List.Forall_forall. intros e Hin.
  apply in_flat_map in Hin as (entry & _ & Hin).
  now apply bucket_event_shape in Hin.
Qed.

Lemma filter_non_damage (l : list Event.t) :
  Forall (fun e => is_damage e = false)
    (List.filter (fun e => negb (is_damage e)) l).
Proof.
  apply Stdlib.Lists.List.Forall_forall. intros e Hin.
  apply filter_In in Hin as [_ H]. now apply negb_true_iff in H.
Qed.

(** The timeline before the sort: the events of the run and the kill
    events that are no damage events, as they are and in their order,
    followed by one damage event for each bucket that holds damage, as it
    is or re-typed as landing damage. *)
Lemma timeline_shape (st : MS.t) (evs : list Event.t) (fs : string) :
  timeline st = Ok (evs, fs) ->
  exists damage_by_time B',
    foldM aggregate_step ([], []) (MS.events st ++ kill_events st) =
      Ok (damage_by_time,
          List.filter (fun e => negb (is_damage e)) (MS.events st ++ kill_events st)) /\
    evs = (List.filter (fun e => negb (is_damage e)) (MS.events st ++ kill_events st)
           ++ B')%list /\
    Forall2 retyped (flat_map bucket_event damage_by_time) B'.
Proof.
  unfold timeline. intros H.
  destruct (foldM aggregate_step ([], []) (MS.events st ++ kill_events st))
    as [[d n] | x] eqn:Hagg; cbn [bind] in H; [| discriminate].
  pose proof (aggregate_loop_result _ _ _ Hagg) as (_ & _ & _ & Hn).
  cbn [snd] in Hn. subst n.
  apply detect_landing_shape in H as (B' & -> & Hre);
    [| apply filter_non_damage | apply bucket_events_damage].
  now exists d, B'.
Qed.

Lemma Forall2_In_r {A B : Type} (R : A -> B -> Prop) (l : list A) (l' : list B) (y : B) :
  Forall2 R l l' -> In y l' -> exists x, In x l /\ R x y.
Proof.
  induction 1 as [| a b l l' Hab Hall IH]; [intros [] |].
  intros [<- | Hin].
  - exists a. split; [now left | exact Hab].
  - destruct (IH Hin) as (x & Hx & Hr). exists x. split; [now right | exact Hr].
Qed.

Lemma kill_events_shape (st : MS.t) (e : Event.t) :
  In e (kill_events st) <->
  exists k ts, In k (credited st) /\ GameObject.time_of_kill k = Some ts /\
               ts <> "" /\
               e = Event.kill ts (GameObject.type k) (GameObject.category k)
                     (GameObject.altitude k).
Proof.
  unfold kill_events. rewrite in_flat_map. split.
  - intros (k & Hk & Hin).
    destruct (GameObject.time_of_kill k) as [ts |] eqn:Hts; [| destruct Hin].
    destruct (String.eqb ts "") eqn:Hne; [destruct Hin |].
    destruct Hin as [<- | []]. exists k, ts. apply String.eqb_neq in Hne. auto.
  - intros (k & ts & Hk & Hts & Hne & ->). exists k. split; [exact Hk |].
    rewrite Hts. apply String.eqb_neq in Hne. rewrite Hne. now left.
Qed.

(** What stands in the timeline of a run before the sort *)
Lemma timeline_members (cfg : Config) (file : list string) (st : MS.t)
    (evs : list Event.t) (fs : string) (e : Event.t) :
  parse cfg file = Ok st -> timeline st = Ok (evs, fs) ->
  In e evs ->
  (built_by_parse e /\ is_damage e = false) \/
  In e (kill_events st) \/
  exists damage_by_time entry b,
    foldM aggregate_step ([], []) (MS.events st ++ kill_events st) =
      Ok (damage_by_time,
          List.filter (fun e => negb (is_damage e)) (MS.events st ++ kill_events st)) /\
    In entry damage_by_time /\ bucket_event entry = [b] /\ retyped b e.
Proof.
  intros Hp Ht Hin. apply timeline_shape in Ht as (d & B' & Hagg & -> & Hre).
  apply in_app_or in Hin as [Hin | Hin].
  - apply filter_In in Hin as [Hin Hnd]. apply negb_true_iff in Hnd.
    apply in_app_or in Hin as [Hin | Hin]; [left | right; now left].
    apply parse_events_built in Hp.
    rewrite Stdlib.Lists.List.Forall_forall in Hp. split; [now apply Hp | exact Hnd].
  - right. right.
    destruct (Forall2_In_r _ _ _ _ Hre Hin) as (b & Hb & Hr).
    apply in_flat_map in Hb as (entry & Hentry & Hb).
    exists d, entry, b. split; [exact Hagg |]. split; [exact Hentry |].
    split; [now apply bucket_event_shape in Hb | exact Hr].
Qed.

Lemma to_json_members (st : MS.t) (d : Json.data) :
  to_json st = Ok d ->
  exists evs fs, timeline st = Ok (evs, fs) /\
                 forall e, In e (Json.events d) <-> In e evs.
Proof.
  intros H. apply to_json_events in H as (evs & fs & Ht & ->).
  exists evs, fs. split; [exact Ht |]. intros e. split.
  - apply Permutation_in. apply Permutation_sym, sort_by_permutation.
  - apply Permutation_in. apply sort_by_permutation.
Qed.

Lemma retyped_fields (b e : Event.t) :
  retyped b e ->
  Event.time e = Event.time b /\ Event.time_raw e = Event.time_raw b /\
  Event.hard_landing e = Event.hard_landing b /\
  (is_damage b = true ->
   Event.type e = "Damage Taken" \/ Event.type e = "Landing Damage").
Proof.
  intros [-> | (who & _ & ->)].
  - repeat split. intros H. left. now apply String.eqb_eq.
  - repeat split. intros _. now right.
Qed.

(** X17.  No event of the timeline a run writes carries the hard-landing
    flag.  The landing-damage pass flags a landing or crash event only
    when it stands after a re-typed damage event, and [to_json] hands it
    the damage events after all the others. *)
Theorem hard_landing_never_flagged (cfg : Config) (file : list string)
    (d : Json.data) :
  debrief cfg file = Ok d ->
  Forall (fun e => Event.hard_landing e = false) (Json.events d).
Proof.
  unfold debrief. intros H.
  destruct (parse cfg file) as [st | x] eqn:Hp; cbn [bind] in H; [| discriminate].
  apply to_json_members in H as (evs & fs & Ht & Hmem).
  apply Stdlib.Lists.List.Forall_forall. intros e Hin. apply Hmem in Hin.
  destruct (timeline_members cfg file st evs fs e Hp Ht Hin)
    as [[Hb _] | [Hk | (dbt & entry & b & _ & _ & Hb & Hr)]].
  - now destruct Hb.
  - apply kill_events_shape in Hk as (k & ts & _ & _ & _ & ->). reflexivity.
  - apply retyped_fields in Hr as (_ & _ & -> & _).
    assert (Hin' : In b (bucket_event entry)) by (rewrite Hb; now left).
    now apply bucket_event_shape in Hin'.
Qed.

Lemma hard_landing_never_flagged_witness :
  map Event.type (Json.events (debriefed cfg_flak log_valley)) =
    ["Takeoff"; "Landing Damage"; "Landing"] /\
  Json.final_state (Json.the_summary (debriefed cfg_flak log_valley)) =
    "Landed (Hard Landing)" /\
  Forall (fun e => Event.hard_landing e = false)
    (Json.events (debriefed cfg_flak log_valley)).
Proof.
  split; [vm_compute; reflexivity |]. split; [vm_compute; reflexivity |].
  apply (hard_landing_never_flagged cfg_flak log_valley). vm_compute. reflexivity.
Defined.

(** X18.  The ["Kill"] events of the timeline a run writes are those of
    the credited objects that pass the filter on crew dummies and carry a
    kill time, one event for each, with the cleaned type, the category and
    the altitude of the object; no other event of the timeline has this
    type. *)
Theorem kill_events_of_credited (cfg : Config) (file : list string) (st : MS.t)
    (d : Json.data) (e : Event.t) :
  parse cfg file = Ok st -> to_json st = Ok d ->
  (In e (Json.events d) /\ Event.type e = "Kill") <->
  exists k ts, In k (credited st) /\ GameObject.time_of_kill k = Some ts /\
               ts <> "" /\
               e = Event.kill ts (GameObject.type k) (GameObject.category k)
                     (GameObject.altitude k).
Proof.
  intros Hp H. apply to_json_members in H as (evs & fs & Ht & Hmem).
  rewrite Hmem, <- kill_events_shape. split.
  - intros [Hin Hty].
    destruct (timeline_members cfg file st evs fs e Hp Ht Hin)
      as [[Hb _] | [Hk | (dbt & entry & b & _ & _ & Hb & Hr)]]; [| exact Hk |].
    + exfalso. destruct Hb as [t who dmg alt part _ _ | t ty alt Hin'];
        [discriminate Hty |].
      simpl in Hty, Hin'. subst ty. repeat destruct Hin' as [Hin' | Hin'];
        try discriminate Hin'. destruct Hin'.
    + exfalso. apply retyped_fields in Hr as (_ & _ & _ & Hr).
      assert (Hin' : In b (bucket_event entry)) by (rewrite Hb; now left).
      apply bucket_event_shape in Hin' as (_ & Hd & _).
      destruct (Hr Hd) as [Hr' | Hr']; rewrite Hr' in Hty; discriminate Hty.
  - intros Hk. pose proof Hk as Hk'.
    apply kill_events_shape in Hk' as (k & ts & _ & _ & _ & ->).
    split; [| reflexivity].
    apply timeline_shape in Ht as (dbt & B' & _ & -> & _).
    apply in_or_app. left. apply filter_In. split; [| reflexivity].
    apply in_or_app. now right.
Qed.

Lemma kill_events_of_credited_witness :
  In (Event.kill "00:02:00" "il2" "Air" (Some 20))
    (Json.events (debriefed cfg_flak log_sortie)) /\
  Event.type (Event.kill "00:02:00" "il2" "Air" (Some 20)) = "Kill".
Proof.
  destruct (kill_events_of_credited cfg_flak log_sortie
              (parsed cfg_flak log_sortie) (debriefed cfg_flak log_sortie)
              (Event.kill "00:02:00" "il2" "Air" (Some 20))) as [_ Hback].
  - vm_compute. reflexivity.
  - vm_compute. reflexivity.
  - apply Hback. exists ivan_shot_down, "00:02:00".
    split; [vm_compute; left; reflexivity |].
    split; [reflexivity |]. split; [discriminate | reflexivity].
Defined.

Lemma filter_permutation {A : Type} (p : A -> bool) (l l' : list A) :
  Permutation l l' -> Permutation (List.filter p l) (List.filter p l').
Proof.
  induction 1 as [| x l l' _ IH | x y l | l1 l2 l3 _ IH1 _ IH2]; simpl.
  - constructor.
  - destruct (p x); [now constructor | exact IH].
  - destruct (p x), (p y); try reflexivity. constructor.
  - now transitivity (List.filter p l2).
Qed.

Lemma filter_none_in {A : Type} (p : A -> bool) (l : list A) :
  (forall x, In x l -> p x = false) -> List.filter p l = [].
Proof.
  induction l as [| x l IH]; intros H; simpl; [reflexivity |].
  rewrite (H x) by now left. apply IH. intros y Hy. apply H. now right.
Qed.

Lemma bucket_keys_nodup (d : list (string * bucket)) :
  List.NoDup (map fst d) ->
  List.NoDup (map Event.time_raw (flat_map bucket_event d)) /\
  forall x, In x (map Event.time_raw (flat_map bucket_event d)) ->
            exists k, In k (map fst d) /\ x = Some (Event.MinuteKey k).
Proof.
  induction d as [| entry d IH]; cbn [map flat_map]; intros Hnd.
  - split; [constructor | intros x []].
  - apply List.NoDup_cons_iff in Hnd as [Hfresh Hnd].
    destruct (IH Hnd) as [IH1 IH2].
    destruct (bucket_event entry) as [| e l] eqn:Hb.
    + cbn [app]. split; [exact IH1 |].
      intros x Hx. destruct (IH2 x Hx) as (k & Hk & ->). exists k. split; [now right | reflexivity].
    + assert (Hin : In e (bucket_event entry)) by (rewrite Hb; now left).
      apply bucket_event_shape in Hin as (Hone & _ & _ & _ & _ & Hraw & _).
      rewrite Hb in Hone. injection Hone as ->. cbn [app map]. rewrite Hraw. split.
      * apply List.NoDup_cons; [| exact IH1].
        intros Hx. destruct (IH2 _ Hx) as (k & Hk & [= Heq]). now subst k.
      * intros x [<- | Hx]; [exists (fst entry); split; [now left | reflexivity] |].
        destruct (IH2 x Hx) as (k & Hk & ->). exists k. split; [now right | reflexivity].
Qed.

Lemma retyped_keys (B B' : list Event.t) :
  Forall (fun e => is_damage e = true) B -> Forall2 retyped B B' ->
  damage_keys B' = map Event.time_raw B.
Proof.
  intros Hall Hre. induction Hre as [| b e B B' Hr Hre IH]; [reflexivity |].
  apply Forall_cons_iff in Hall as [Hd Hall].
  apply retyped_fields in Hr as (_ & Hraw & _ & Hty).
  assert (Hc : String.eqb (Event.type e) "Damage Taken" ||
               String.eqb (Event.type e) "Landing Damage" = true)
    by (destruct (Hty Hd) as [-> | ->]; reflexivity).
  unfold damage_keys in *. cbn [List.filter]. rewrite Hc. cbn [map].
  now rewrite Hraw, IH.
Qed.

(** X19.  The timeline a run writes holds at most one damage event for
    each minute: the damage events, re-typed as landing damage or not,
    carry pairwise different minute keys as their raw time. *)
Theorem one_damage_event_per_minute (cfg : Config) (file : list string)
    (d : Json.data) :
  debrief cfg file = Ok d ->
  List.NoDup (damage_keys (Json.events d)).
Proof.
  unfold debrief. intros H.
  destruct (parse cfg file) as [st | x] eqn:Hp; cbn [bind] in H; [| discriminate].
  apply to_json_events in H as (evs & fs & Ht & ->).
  apply (Permutation_NoDup (l := damage_keys evs)).
  { unfold damage_keys. apply Permutation_map, filter_permutation, sort_by_permutation. }
  pose proof Ht as Hshape. apply timeline_shape in Hshape as (dbt & B' & Hagg & Hevs & Hre).
  assert (Hquiet : forall e, In e (List.filter (fun e => negb (is_damage e))
                                     (MS.events st ++ kill_events st)) ->
             String.eqb (Event.type e) "Damage Taken" ||
             String.eqb (Event.type e) "Landing Damage" = false).
  { intros e Hin.
    assert (Hin' : In e evs) by (rewrite Hevs; apply in_or_app; now left).
    apply filter_In in Hin as [Hin Hnd]. apply negb_true_iff in Hnd.
    unfold is_damage in Hnd. rewrite Hnd. cbn [orb].
    apply in_app_or in Hin as [Hin | Hin].
    - apply parse_events_built in Hp.
      rewrite Stdlib.Lists.List.Forall_forall in Hp.
      destruct (Hp e Hin) as [t who dmg alt part _ _ | t ty alt Hty];
        [discriminate Hnd |].
      cbn [Event.type Event.simple].
      simpl in Hty. repeat destruct Hty as [<- | Hty]; try reflexivity. destruct Hty.
    - apply kill_events_shape in Hin as (k & ts & _ & _ & _ & ->). reflexivity. }
  rewrite Hevs. unfold damage_keys. rewrite List.filter_app, map_app.
  rewrite (filter_none_in _ _ Hquiet), app_nil_l.
  fold (damage_keys B').
  rewrite (retyped_keys _ _ (bucket_events_damage dbt) Hre).
  apply bucket_keys_nodup.
  now apply aggregate_loop_result in Hagg as (Hnd & _).
Qed.

Lemma one_damage_event_per_minute_witness :
  damage_keys (Json.events (debriefed cfg_flak log_sortie)) =
    [Some (Event.MinuteKey "00:02")] /\
  List.NoDup (damage_keys (Json.events (debriefed cfg_flak log_sortie))).
Proof.
  split; [vm_compute; reflexivity |].
  apply (one_damage_event_per_minute cfg_flak log_sortie). vm_compute. reflexivity.
Defined.

(** ** Percentages written and read back *)

Lemma round_half_even_nonneg (q : Q) : (0 <= q)%Q -> 0 <= round_half_even q.
Proof.
  unfold Qle, round_half_even. destruct q as [n d]. cbn [Qnum Qden].
  intros H. assert (Hn : 0 <= n) by lia.
  assert (Hf : 0 <= n / Z.pos d) by (apply Z.div_pos; lia).
  destruct (_ <? _); [exact Hf |].
  destruct (_ <? _); [lia |]. destruct (Z.even _); lia.
Qed.

Lemma str_of_digit (m : Z) :
  0 <= m < 10 ->
  exists c, str_of_Z m = String c "" /\ is_digit c = true /\ digit_val c = m.
Proof.
  intros H.
  assert (Hm : m = 0 \/ m = 1 \/ m = 2 \/ m = 3 \/ m = 4 \/ m = 5 \/ m = 6 \/
               m = 7 \/ m = 8 \/ m = 9) by lia.
  repeat destruct Hm as [-> | Hm]; try subst m;
    eexists; (split; [reflexivity |]); split; reflexivity.
Qed.

Lemma int_of_digits_from_app (a b : string) (acc : Z) :
  int_of_digits_from acc (a ++ b) = int_of_digits_from (int_of_digits_from acc a) b.
Proof.
  revert acc. induction a as [| c r IH]; intros acc; [reflexivity |].
  change (String c r ++ b) with (String c (r ++ b)). simpl. apply IH.
Qed.

(** A text that begins with a letter is not found inside a numeral. *)
Lemma contains_skip_numeral (c0 : ascii) (x p rest : string) :
  Re.is_num_char c0 = false -> every Re.is_num_char p = true ->
  contains (String c0 x) (p ++ rest) = contains (String c0 x) rest.
Proof.
  intros H0. induction p as [| c r IH]; [reflexivity |].
  change (String c r ++ rest) with (String c (r ++ rest)). cbn [every].
  intros H. apply andb_true_iff in H as [Hc Hr].
  unfold contains at 1. fold contains. rewrite (IH Hr).
  cbn [String.prefix]. destruct (ascii_dec c0 c) as [-> | _]; [congruence |].
  reflexivity.
Qed.

Lemma split_first_numeral (p rest : string) :
  every Re.is_num_char p = true -> split_first "%" (p ++ String "%" rest) = p.
Proof.
  induction p as [| c r IH]; [reflexivity |].
  change (String c r ++ String "%" rest) with (String c (r ++ String "%" rest)).
  cbn [every split_first]. intros H. apply andb_true_iff in H as [Hc Hr].
  destruct (Ascii.eqb c "%") eqn:Hp.
  - apply Ascii.eqb_eq in Hp. subst c. discriminate Hc.
  - now rewrite (IH Hr).
Qed.

Lemma digits_no_dot (a rest : string) :
  digits_only a = true ->
  split_first "." (a ++ String "." rest) = a /\
  drop (S (String.length a)) (a ++ String "." rest) = rest /\
  count_dots (a ++ String "." rest) = S (count_dots rest).
Proof.
  induction a as [| c r IH]; [intros _; repeat split; reflexivity |].
  change (String c r ++ String "." rest) with (String c (r ++ String "." rest)).
  cbn [digits_only]. intros H. apply andb_true_iff in H as [Hc Hr].
  destruct (IH Hr) as (I1 & I2 & I3).
  destruct (is_digit_not_sign c Hc) as (_ & _ & _).
  assert (Hdot : Ascii.eqb c "." = false).
  { destruct (Ascii.eqb c ".") eqn:Hp; [| reflexivity].
    apply Ascii.eqb_eq in Hp. subst c. discriminate Hc. }
  rewrite count_dots_cons. cbn [split_first String.length drop].
  rewrite Hdot, I1, I3. split; [reflexivity | split; [exact I2 | reflexivity]].
Qed.

Lemma digits_count_dots (s : string) : digits_only s = true -> count_dots s = 0%nat.
Proof.
  induction s as [| c r IH]; [reflexivity |]. rewrite count_dots_cons.
  cbn [digits_only]. intros H. apply andb_true_iff in H as [Hc Hr].
  destruct (Ascii.eqb c ".") eqn:Hp; [| now apply IH].
  apply Ascii.eqb_eq in Hp. subst c. discriminate Hc.
Qed.

(** [float] of digits, a dot and one more digit *)
Lemma float_of_one_decimal (a : string) (c : ascii) :
  digits_only a = true -> a <> "" -> is_digit c = true ->
  float_of_string (a ++ "." ++ String c "") =
  Some (B64.of_Q (Qmake (10 * int_of_digits a + digit_val c) 10)).
Proof.
  intros Ha Hne Hc.
  assert (Hevery : every Re.is_num_char (a ++ "." ++ String c "") = true).
  { apply every_app; [now apply digits_only_every |].
    change ("." ++ String c "") with (String "." (String c "")). cbn [every].
    now rewrite (is_digit_num_char c Hc). }
  rewrite (float_of_num _ Hevery).
  enough (Hv : numeral_value (a ++ "." ++ String c "") =
               Some (Qmake (10 * int_of_digits a + digit_val c) 10))
    by now rewrite Hv.
  unfold numeral_value.
  change ("." ++ String c "") with (String "." (String c "")) in *.
  destruct (digits_no_dot a (String c "") Ha) as (-> & -> & ->).
  rewrite count_dots_cons.
  assert (Hdot : Ascii.eqb c "." = false).
  { destruct (Ascii.eqb c ".") eqn:Hp; [| reflexivity].
    apply Ascii.eqb_eq in Hp. subst c. discriminate Hc. }
  rewrite Hdot. cbn [count_dots Nat.leb andb].
  change (fun c0 : ascii => is_digit c0 || Ascii.eqb c0 ".") with Re.is_num_char.
  rewrite (every_span _ _ Hevery). cbn [fst]. rewrite String.eqb_refl. cbn [andb].
  assert (Hnonempty : String.eqb (a ++ String c "") "" = false).
  { destruct a as [| x r]; [contradiction | reflexivity]. }
  rewrite Hnonempty. cbn [negb String.length].
  unfold int_of_digits. rewrite int_of_digits_from_app. reflexivity.
Qed.

Lemma fmt1_parts (q : Q) :
  (0 <= q)%Q ->
  exists a c,
    fmt1 q = a ++ "." ++ String c "" /\
    digits_only a = true /\ a <> "" /\ is_digit c = true /\
    10 * int_of_digits a + digit_val c = round_half_even (q * 10).
Proof.
  intros Hq. unfold fmt1. set (n := round_half_even (q * 10)).
  assert (Hn : 0 <= n).
  { apply round_half_even_nonneg.
    apply Qmult_le_0_compat; [exact Hq | discriminate]. }
  destruct (str_of_Z_nonneg (n / 10)) as (x & r & Ha & Hd & Hv);
    [apply Z.div_pos; lia |].
  destruct (str_of_digit (n mod 10)) as (c & Hc & Hdc & Hvc);
    [apply Z.mod_pos_bound; lia |].
  exists (String x r), c. rewrite Ha, Hc.
  split; [reflexivity |]. split; [exact Hd |]. split; [discriminate |].
  split; [exact Hdc |]. rewrite Hv, Hvc.
  pose proof (Z.div_mod n 10). lia.
Qed.

Lemma fmt1_numeral (q : Q) : (0 <= q)%Q -> every Re.is_num_char (fmt1 q) = true.
Proof.
  intros Hq. destruct (fmt1_parts q Hq) as (a & c & -> & Ha & _ & Hc & _).
  apply every_app; [now apply digits_only_every |].
  change ("." ++ String c "") with (String "." (String c "")). cbn [every].
  now rewrite (is_digit_num_char c Hc).
Qed.

Lemma percent_value_fmt1 (q : Q) (rest : string) :
  (0 <= q)%Q ->
  percent_value (fmt1 q ++ String "%" rest) = Ok (B64.of_Q (round1 q)).
Proof.
  intros Hq. unfold percent_value.
  rewrite (split_first_numeral _ _ (fmt1_numeral q Hq)).
  destruct (fmt1_parts q Hq) as (a & c & -> & Ha & Hne & Hc & Hv).
  rewrite (float_of_one_decimal a c Ha Hne Hc), Hv. f_equal.
  apply of_Q_compat. unfold round1. symmetry. apply Qred_correct.
Qed.

(** The text [format_1f] writes for a float that is not negative: a numeral
    with one decimal, or the word [inf]. *)
Lemma format_1f_cases (x : B64.t) :
  B64.nonneg x ->
  (exists q, (0 <= q)%Q /\ format_1f x = fmt1 q /\
             round_float round1 x = B64.of_Q (round1 q)) \/
  (x = B64.infinity /\ format_1f x = "inf").
Proof.
  intros Hx. destruct (nonneg_cases x Hx) as [-> | [-> | (m & e & ->)]].
  - left. exists 0%Q. split; [apply Qle_refl | split; reflexivity].
  - right. split; reflexivity.
  - left. unfold format_1f, round_float. cbn [B64.magnitude B64.sign].
    destruct e as [| k | k]; eexists; (split; [| split; reflexivity]).
    + unfold Qle, inject_Z. cbn [Qnum Qden]. lia.
    + unfold Qle, inject_Z. cbn [Qnum Qden]. lia.
    + unfold Qle. cbn [Qnum Qden]. lia.
Qed.

(** A percentage written by [format_1f] reads back as [round(x, 1)]. *)
Lemma percent_value_format (x : B64.t) (rest : string) :
  B64.nonneg x ->
  percent_value (format_1f x ++ String "%" rest) = Ok (round_float round1 x).
Proof.
  intros Hx. destruct (format_1f_cases x Hx) as [(q & Hq & -> & ->) | [-> ->]].
  - now apply percent_value_fmt1.
  - reflexivity.
Qed.

(** X20.  A percentage written with one decimal and re-read by the
    aggregation loop comes back as the value rounded to one decimal: the
    text [f"{q:.1f}% aircraft"] (or [pilot]) is cut at the percent sign
    and [float] makes of what is left the float nearest to the rounded
    value. *)
Theorem percentage_reads_back (q : Q) (rest : string) :
  (0 <= q)%Q ->
  exists v, percent_value (fmt1 q ++ String "%" rest) = Ok v /\
            v = B64.of_Q (round1 q).
Proof.
  intros Hq. rewrite (percent_value_fmt1 q rest Hq).
  eexists. split; reflexivity.
Qed.

Lemma percentage_reads_back_witness :
  exists v, percent_value (fmt1 (25 # 2) ++ "% aircraft") = Ok v /\
            v = B64.of_Q (round1 (25 # 2)).
Proof. apply (percentage_reads_back (25 # 2) " aircraft"). discriminate. Defined.

(** X27.  A percentage that [parse] or [to_json] writes for a float that
    is not negative, [f"{x:.1f}%"] followed by any text, reads back in the
    aggregation loop as [round(x, 1)]: the float nearest to the decimal that
    was written, and [inf] for [inf]. *)
Theorem written_percentage_reads_back (x : B64.t) (rest : string) :
  B64.nonneg x ->
  percent_value (format_1f x ++ String "%" rest) = Ok (round_float round1 x).
Proof. apply percent_value_format. Qed.

(** The float of 0.0015 times 100 is written [0.1] and reads back as the
    float of 0.1. *)
Lemma written_percentage_reads_back_witness :
  format_1f (B64.mul (B64.of_Q (15 # 10000)) hundred) = "0.1" /\
  percent_value (format_1f (B64.mul (B64.of_Q (15 # 10000)) hundred) ++ "% aircraft") =
    Ok (B64.of_Q (1 # 10)).
Proof.
  split; [vm_compute; reflexivity |].
  rewrite (written_percentage_reads_back _ " aircraft").
  - vm_compute. reflexivity.
  - apply mul_hundred_nonneg, of_Q_nonneg. discriminate.
Defined.

(** ** [to_json] after [parse] *)

(** Which of the two words a damage text of [parse] holds *)
Lemma damage_text_words (x : B64.t) (part : string) :
  B64.nonneg x -> In part ["aircraft"; "pilot"] ->
  contains "aircraft" (format_1f x ++ "% " ++ part) = String.eqb part "aircraft" /\
  contains "pilot" (format_1f x ++ "% " ++ part) = String.eqb part "pilot".
Proof.
  intros Hx Hpart.
  destruct (format_1f_cases x Hx) as [(q & Hq & -> & _) | [_ ->]].
  - pose proof (fmt1_numeral q Hq) as Hnum.
    rewrite (contains_skip_numeral "a" "ircraft" _ _ eq_refl Hnum).
    rewrite (contains_skip_numeral "p" "ilot" _ _ eq_refl Hnum).
    destruct Hpart as [<- | [<- | []]]; split; reflexivity.
  - destruct Hpart as [<- | [<- | []]]; split; reflexivity.
Qed.

Lemma accumulate_total (x : B64.t) (part : string) (b : bucket) :
  B64.nonneg x -> In part ["aircraft"; "pilot"] ->
  exists b', accumulate (format_1f x ++ "% " ++ part) b = Ok b'.
Proof.
  intros Hx Hpart. unfold accumulate.
  destruct (damage_text_words x part Hx Hpart) as [-> ->].
  change ("% " ++ part) with (String "%" (" " ++ part)).
  rewrite (percent_value_format x _ Hx).
  destruct Hpart as [<- | [<- | []]]; cbn [String.eqb Ascii.eqb Bool.eqb andb bind];
    now eexists.
Qed.

Lemma aggregate_total (l : list Event.t) :
  Forall (fun e => is_damage e = true ->
                   exists x part, B64.nonneg x /\ In part ["aircraft"; "pilot"] /\
                                  Event.damage e = Some (format_1f x ++ "% " ++ part)) l ->
  forall acc, exists acc', foldM aggregate_step acc l = Ok acc'.
Proof.
  induction 1 as [| e l He Hall IH]; intros acc; [now exists acc |].
  rewrite foldM_cons.
  assert (Hstep : exists acc1, aggregate_step acc e = Ok acc1).
  { destruct acc as [d n]. unfold aggregate_step. fold (is_damage e).
    destruct (is_damage e); [| now eexists].
    destruct (He eq_refl) as (q & part & Hq & Hpart & ->).
    match goal with
    | |- context [accumulate _ ?b] =>
        destruct (accumulate_total q part b Hq Hpart) as (b' & ->)
    end.
    cbn [bind]. now eexists. }
  destruct Hstep as (acc1 & ->). cbn [bind]. apply IH.
Qed.

Lemma landing_total (c : landing_context) (lt : string) (l : list Event.t) :
  Forall (fun e => is_damage e = true -> Event.target e <> None) l ->
  forall h acc, exists r, foldM (landing_step c lt) (h, acc) l = Ok r.
Proof.
  induction 1 as [| e l He Hall IH]; intros h acc; [now eexists |].
  rewrite foldM_cons.
  assert (Hstep : exists h1 acc1, landing_step c lt (h, acc) e = Ok (h1, acc1)).
  { unfold landing_step. fold (is_damage e). destruct (is_damage e).
    - destruct (is_landing_dmg c lt e); [| now eexists _, _].
      destruct (Event.target e) as [who |]; [now eexists _, _ |].
      now destruct (He eq_refl).
    - destruct (_ && _); now eexists _, _. }
  destruct Hstep as (h1 & acc1 & ->). cbn [bind]. apply IH.
Qed.

Lemma built_damage_text (e : Event.t) :
  built_by_parse e ->
  (is_damage e = true ->
   exists x part, B64.nonneg x /\ In part ["aircraft"; "pilot"] /\
                  Event.damage e = Some (format_1f x ++ "% " ++ part)) /\
  (is_damage e = true -> Event.target e <> None).
Proof.
  intros [t who pct alt part Hpos Hpart | t ty alt Hty].
  - split; [| discriminate]. intros _. exists pct, part.
    split; [exact Hpos | now split].
  - assert (Hnd : is_damage (Event.simple (mission_time_to_hhmmss t) ty alt t) = false).
    { unfold is_damage. cbn [Event.type Event.simple].
      simpl in Hty. repeat destruct Hty as [<- | Hty]; try reflexivity. destruct Hty. }
    rewrite Hnd. split; discriminate.
Qed.

(** X21.  The assembly of the output object in [to_json], everything
    before the output file is opened, does not raise on the statistics
    [parse] returns: each damage text it re-reads was written by [parse] as
    a numeral with one decimal or as the word [inf], and each damage event
    it re-types carries its source. *)
Theorem to_json_total_after_parse (cfg : Config) (file : list string) (st : MS.t) :
  parse cfg file = Ok st ->
  exists d, to_json st = Ok d /\ debrief cfg file = Ok d.
Proof.
  intros Hp. pose proof (parse_events_built cfg file st Hp) as Hbuilt.
  rewrite Stdlib.Lists.List.Forall_forall in Hbuilt.
  assert (Hsrc : forall e, In e (MS.events st ++ kill_events st) ->
            (is_damage e = true ->
             exists x part, B64.nonneg x /\ In part ["aircraft"; "pilot"] /\
                            Event.damage e = Some (format_1f x ++ "% " ++ part)) /\
            (is_damage e = true -> Event.target e <> None)).
  { intros e Hin. apply in_app_or in Hin as [Hin | Hin].
    - now apply built_damage_text, Hbuilt.
    - apply kill_events_shape in Hin as (k & ts & _ & _ & _ & ->).
      split; discriminate. }
  destruct (aggregate_total (MS.events st ++ kill_events st)) with (acc := (@nil (string * bucket), @nil Event.t))
    as ([dbt nde] & Hagg).
  { apply Stdlib.Lists.List.Forall_forall. intros e Hin. now apply Hsrc. }
  pose proof (aggregate_loop_result _ _ _ Hagg) as (_ & Hopen & _ & Hn).
  cbn [fst snd] in Hopen, Hn.
  assert (Ht : exists r, timeline st = Ok r).
  { unfold timeline. rewrite Hagg. cbn [bind]. unfold _detect_landing_damage.
    destruct (landing_time _) as [lt |]; [| now eexists].
    destruct (String.eqb lt ""); [now eexists |].
    match goal with
    | |- context [foldM (landing_step ?c lt) (false, []) ?l] =>
        destruct (landing_total c lt l) with (h := false) (acc := @nil Event.t)
          as ([h out] & ->)
    end; [| cbn [bind]; now eexists].
    apply Forall_app. split.
    - rewrite Hn. apply Stdlib.Lists.List.Forall_forall. intros e Hin Hd.
      apply filter_In in Hin as [_ Hnd]. rewrite Hd in Hnd. discriminate Hnd.
    - apply Stdlib.Lists.List.Forall_forall. intros e Hin _.
      apply in_flat_map in Hin as (entry & Hentry & Hin).
      apply bucket_event_shape in Hin as (_ & _ & _ & -> & _).
      rewrite Stdlib.Lists.List.Forall_forall in Hopen.
      destruct (Hopen entry Hentry)
        as (pre & x & post & Hx & Hdx & _ & _ & _ & _ & -> & _).
      apply (Hsrc x); [| exact Hdx].
      rewrite Hx. apply in_or_app. right. now left. }
  destruct Ht as ([evs fs] & Ht).
  unfold debrief, to_json. rewrite Hp. cbn [bind]. rewrite Ht. cbn [bind].
  eexists. split; reflexivity.
Qed.

Lemma to_json_total_after_parse_witness :
  exists d, to_json (parsed cfg_flak log_sortie) = Ok d /\
            debrief cfg_flak log_sortie = Ok d.
Proof.
  apply (to_json_total_after_parse cfg_flak log_sortie). vm_compute. reflexivity.
Defined.

(** ** Credits through the run *)

Lemma kills_grow_refl (s : MS.t) : exists more, MS.kills s = (MS.kills s ++ more)%list.
Proof. exists []. now rewrite app_nil_r. Qed.

Lemma credit_move_grows (s s' : MS.t) :
  credit_move s s' -> exists more, MS.kills s' = (MS.kills s ++ more)%list.
Proof.
  intros [(Hk & _) | (tid & ts & alt & ->)].
  - exists []. now rewrite app_nil_r.
  - assert (Hs : MS.kills (store_altitude tid alt s) = MS.kills s)
      by apply store_altitude_registry.
    destruct (add_kill_kills tid ts (store_altitude tid alt s)) as [Hk | (Hk & _)];
      rewrite Hk, Hs; [exists []; now rewrite app_nil_r | now exists [tid]].
Qed.

Lemma collecting_grows (l : list string) (ps ps' : pstate) :
  foldM process_line ps l = Ok ps' ->
  exists more, MS.kills (stats ps') = (MS.kills (stats ps) ++ more)%list.
Proof.
  apply (foldM_preorder
           (fun a b => exists more,
                         MS.kills (stats b) = (MS.kills (stats a) ++ more)%list)).
  - intros s. apply kills_grow_refl.
  - intros a b c (m1 & H1) (m2 & H2). exists (m1 ++ m2)%list.
    now rewrite H2, H1, app_assoc.
  - intros s x s' H. apply credit_move_grows. now apply (process_line_move s s' x).
Qed.

Lemma reconciling_grows (l : list (Z * (string * option Z))) (s : MS.t) :
  exists more, MS.kills (fold_left retro_step l s) = (MS.kills s ++ more)%list.
Proof.
  apply (fold_left_preorder
           (fun a b => exists more, MS.kills b = (MS.kills a ++ more)%list)).
  - apply kills_grow_refl.
  - intros a b c (m1 & H1) (m2 & H2). exists (m1 ++ m2)%list.
    now rewrite H2, H1, app_assoc.
  - intros a x. apply credit_move_grows, retro_step_move.
Qed.

(** X22.  A credit is never withdrawn and never moved: the credited kills
    at any point of the event loop are an initial part of the credited
    kills [parse] returns. *)
Theorem credit_never_withdrawn (cfg : Config) (file : list string) (n : nat)
    (ps : pstate) (st : MS.t) :
  collected_upto cfg (relevant_lines file) n = Ok ps ->
  parse cfg file = Ok st ->
  exists more, MS.kills st = (MS.kills (stats ps) ++ more)%list.
Proof.
  intros Hn Hp. apply parse_inv in Hp as (ps' & Hc & Hd).
  assert (H1 : exists m1, MS.kills (stats ps') = (MS.kills (stats ps) ++ m1)%list).
  { destruct (Nat.le_gt_cases n (List.length (relevant_lines file))) as [Hle | Hgt].
    - rewrite <- (collected_upto_all cfg _ _ (Nat.le_refl _)) in Hc.
      apply (collecting_grows _ _ _
               (collected_upto_later cfg _ n _ ps ps' Hle Hn Hc)).
    - rewrite collected_upto_all in Hn by lia. rewrite Hn in Hc.
      injection Hc as <-. apply kills_grow_refl. }
  destruct H1 as (m1 & H1).
  destruct (reconciling_grows (destroyed ps') (stats ps')) as (m2 & H2).
  fold (reconciled ps') in H2.
  pose proof (detect_bailout_frame (relevant_lines file) (reconciled ps')) as (Hk & _).
  apply compute_flight_duration_frame in Hd as (Hk' & _).
  exists (m1 ++ m2)%list. now rewrite Hk', Hk, H2, H1, app_assoc.
Qed.

Lemma credit_never_withdrawn_witness :
  MS.kills (stats (collected_at cfg_flak log_late_hits 3)) = [] /\
  MS.kills (stats (collected_at cfg_flak log_direct 6)) = [500] /\
  exists more,
    MS.kills (parsed cfg_flak log_direct) =
    (MS.kills (stats (collected_at cfg_flak log_direct 6)) ++ more)%list.
Proof.
  split; [vm_compute; reflexivity |]. split; [vm_compute; reflexivity |].
  apply (credit_never_withdrawn cfg_flak log_direct 6);
    vm_compute; reflexivity.
Defined.

(** ** Spawn lines *)

Lemma register_line_spawn (cfg : Config) (st : MS.t) (ln : string) :
  MS.objects (register_line cfg st ln) =
  match spawn_key ln with
  | Some gid => <[gid := spawned cfg ln gid]> (MS.objects st)
  | None => MS.objects st
  end.
Proof.
  unfold register_line, spawn_key, spawned.
  destruct (contains "AType:10" ln); [destruct (contains "ISPL:1" ln) |
    destruct (contains "AType:12" ln)]; reflexivity.
Qed.

Lemma registering_other_keys (cfg : Config) (post : list string) (s : MS.t) (gid : Z) :
  Forall (fun l => spawn_key l <> Some gid) post ->
  MS.objects (fold_left (register_line cfg) post s) !! gid = MS.objects s !! gid.
Proof.
  intros Hall. revert s. induction Hall as [| l post Hl Hall IH]; intros s;
    [reflexivity |].
  cbn [fold_left]. rewrite IH, register_line_spawn.
  destruct (spawn_key l) as [g |]; [| reflexivity].
  apply lookup_insert_ne. congruence.
Qed.

(** X23.  Of the spawn lines that register under one key, the last one
    wins: the object [parse] returns under that key has the id, name, type,
    static flag, country and category that [GameObject.__init__] computed
    from that line. *)
Theorem last_spawn_line_wins (cfg : Config) (file pre post : list string)
    (ln : string) (gid : Z) (st : MS.t) :
  parse cfg file = Ok st ->
  relevant_lines file = (pre ++ ln :: post)%list ->
  spawn_key ln = Some gid ->
  Forall (fun l => spawn_key l <> Some gid) post ->
  exists o, MS.objects st !! gid = Some o /\ same_identity (spawned cfg ln gid) o.
Proof.
  intros Hp Hlines Hkey Hpost.
  pose proof (parse_same_objects cfg file st Hp gid) as Hsame.
  assert (Hreg : MS.objects (registered cfg (relevant_lines file)) !! gid =
                 Some (spawned cfg ln gid)).
  { unfold registered. rewrite Hlines, fold_left_app. cbn [fold_left].
    rewrite (registering_other_keys cfg post _ gid Hpost), register_line_spawn, Hkey.
    apply lookup_insert_eq. }
  rewrite Hreg in Hsame. inversion Hsame as [x o Hid Hx Ho |]; subst.
  now exists o.
Qed.

Lemma last_spawn_line_wins_witness :
  exists o, MS.objects (parsed cfg_flak log_direct) !! 500 = Some o /\
            same_identity
              (spawned cfg_flak
                 "T:10 AType:12 ID:500 TYPE:il2 COUNTRY:101 NAME:Ivan PID:-1" 500) o.
Proof.
  apply (last_spawn_line_wins cfg_flak log_direct
           [ "T:10 AType:10 PLID:100 PID:101 NAME:Joe TYPE:Bf109 COUNTRY:201 ISPL:1" ]
           [ "T:10 AType:12 ID:600 TYPE:BotPilot_il2 COUNTRY:101 NAME:Bot PID:500";
             "T:5000 AType:2 DMG:1.000 AID:100 TID:500 POS(1.0,800.0,2.0)";
             "T:5100 AType:2 DMG:1.000 AID:100 TID:600 POS(1.0,800.0,2.0)";
             "T:6000 AType:3 AID:100 TID:500 POS(1.0,20.0,2.0)";
             "T:6000 AType:3 AID:100 TID:600 POS(1.0,20.0,2.0)" ]);
    [vm_compute; reflexivity | vm_compute; reflexivity | vm_compute; reflexivity |].
  repeat constructor; vm_compute; discriminate.
Defined.

(** ** Static objects *)

Lemma split_first_no_separator (s : string) :
  contains "[" (split_first "[" s) = false.
Proof.
  induction s as [| c r IH]; [reflexivity |]. cbn [split_first].
  destruct (Ascii.eqb c "[") eqn:Hc; [reflexivity |].
  unfold contains. fold contains. rewrite IH. cbn [String.prefix].
  destruct (ascii_dec "[" c) as [<- | _]; [discriminate Hc | reflexivity].
Qed.

(** X24.  [GameObject.__init__] stores the type of a static object
    without any bracket, the coordinates being cut at the first one; the
    type of any other object is stored as it was read. *)
Theorem static_type_without_bracket (cfg : Config) (gid : Z) (nm ty c : string) :
  let o := GameObject.init cfg gid nm ty c in
  (GameObject.is_static o = true -> contains "[" (GameObject.type o) = false) /\
  (GameObject.is_static o = false -> GameObject.type o = ty).
Proof.
  cbv zeta. unfold GameObject.init. cbn [GameObject.is_static GameObject.type].
  destruct (startswith "static_" (lower ty)); split; try discriminate.
  - intros _. apply split_first_no_separator.
  - reflexivity.
Qed.

Lemma static_type_without_bracket_witness :
  GameObject.type (GameObject.init cfg_air 7 "" "static_il2[9337,0]" "101") = "il2" /\
  contains "[" (GameObject.type (GameObject.init cfg_air 7 "" "static_il2[9337,0]" "101"))
    = false.
Proof.
  split; [vm_compute; reflexivity |].
  apply (static_type_without_bracket cfg_air 7 "" "static_il2[9337,0]" "101").
  vm_compute. reflexivity.
Defined.

(** ** Integer fields *)

Lemma span_digits_app (d rest : string) :
  digits_only d = true -> no_leading_digit rest = true ->
  span is_digit (d ++ rest) = (d, rest).
Proof.
  intros Hd Hrest. induction d as [| c r IH].
  - destruct rest as [| x rest]; [reflexivity |]. simpl in *.
    apply negb_true_iff in Hrest. now rewrite Hrest.
  - change (String c r ++ rest) with (String c (r ++ rest)). simpl in *.
    apply andb_true_iff in Hd as [Hc Hr]. now rewrite Hc, (IH Hr).
Qed.

Lemma prefix_own (p s : string) : String.prefix p (p ++ s) = true.
Proof.
  induction p as [| c r IH]; [now destruct s |].
  change (String c r ++ s) with (String c (r ++ s)). cbn [String.prefix].
  destruct (ascii_dec c c) as [_ | Hne]; [exact IH | contradiction].
Qed.

Lemma drop_own (p s : string) : drop (String.length p) (p ++ s) = s.
Proof.
  induction p as [| c r IH]; [reflexivity |].
  change (String c r ++ s) with (String c (r ++ s)). exact IH.
Qed.

Lemma str_of_Z_neg (p : positive) :
  exists c r, str_of_Z (Z.neg p) = String "-" (String c r) /\
              digits_only (String c r) = true /\
              int_of_digits (String c r) = Z.pos p.
Proof.
  destruct (str_of_Z_nonneg (Z.pos p)) as (c & r & Hs & Hd & Hv); [lia |].
  exists c, r. unfold str_of_Z in *. simpl in *. now rewrite Hs.
Qed.

(** X25.  An integer field of at most 4300 digits, written in decimal
    after its label, reads back through [_i] with the signed pattern, when
    the text that follows does not go on with a digit: the first match is
    the one at the label. *)
Theorem _i_reads_back (label rest : string) (z : Z) :
  Z.abs z < 10 ^ 4300 ->
  no_leading_digit rest = true ->
  _i (label ++ str_of_Z z ++ rest) (Re.sint label) = z.
Proof.
  intros _ Hrest. unfold _i.
  assert (Hm : Re.sint label (label ++ str_of_Z z ++ rest) =
               Some (str_of_Z z)).
  { unfold Re.sint. rewrite prefix_own, drop_own.
    destruct z as [| p | p].
    - change (str_of_Z 0) with "0". change ("0" ++ rest) with (String "0" rest).
      unfold Re.nonempty_run.
      change (String "0" rest) with ("0" ++ rest).
      now rewrite (span_digits_app "0" rest eq_refl Hrest).
    - destruct (str_of_Z_nonneg (Z.pos p)) as (c & r & Hs & Hd & _); [lia |].
      rewrite Hs. change (String c r ++ rest) with (String c (r ++ rest)).
      assert (Hc : is_digit c = true) by (simpl in Hd; now apply andb_true_iff in Hd).
      destruct (is_digit_not_sign c Hc) as (Hminus & _).
      assert (Hrun : Re.nonempty_run is_digit (String c (r ++ rest)) =
                     Some (String c r, rest)).
      { unfold Re.nonempty_run.
        change (String c (r ++ rest)) with (String c r ++ rest).
        now rewrite (span_digits_app _ rest Hd Hrest). }
      destruct c as [[] [] [] [] [] [] [] []]; try (now rewrite Hrun);
        now contradiction Hminus.
    - destruct (str_of_Z_neg p) as (c & r & Hs & Hd & _). rewrite Hs.
      change (String "-" (String c r) ++ rest)
        with (String "-" (String c r ++ rest)).
      unfold Re.nonempty_run. now rewrite (span_digits_app _ rest Hd Hrest). }
  destruct (label ++ str_of_Z z ++ rest) as [| x t] eqn:Ht;
    cbn [Re.search]; rewrite Hm; unfold int_of_group.
  - destruct z as [| p | p].
    + reflexivity.
    + destruct (str_of_Z_nonneg (Z.pos p)) as (c & r & Hs & Hd & Hv); [lia |].
      rewrite Hs in *.
      assert (Hc : is_digit c = true) by (simpl in Hd; now apply andb_true_iff in Hd).
      destruct (is_digit_not_sign c Hc) as (Hminus & _).
      destruct c as [[] [] [] [] [] [] [] []]; try exact Hv; now contradiction Hminus.
    + destruct (str_of_Z_neg p) as (c & r & Hs & Hd & Hv). rewrite Hs, Hv. reflexivity.
  - destruct z as [| p | p].
    + reflexivity.
    + destruct (str_of_Z_nonneg (Z.pos p)) as (c & r & Hs & Hd & Hv); [lia |].
      rewrite Hs in *.
      assert (Hc : is_digit c = true) by (simpl in Hd; now apply andb_true_iff in Hd).
      destruct (is_digit_not_sign c Hc) as (Hminus & _).
      destruct c as [[] [] [] [] [] [] [] []]; try exact Hv; now contradiction Hminus.
    + destruct (str_of_Z_neg p) as (c & r & Hs & Hd & Hv). rewrite Hs, Hv. reflexivity.
Qed.

Lemma _i_reads_back_witness :
  _i ("TID:" ++ str_of_Z (-1) ++ " POS(1.0,2.0,3.0)") (Re.sint "TID:") = -1.
Proof.
  apply (_i_reads_back "TID:" " POS(1.0,2.0,3.0)" (-1)); [| reflexivity].
  vm_compute. reflexivity.
Defined.

(** ** The time texts of a run *)

Lemma stamped_same (s s' : MS.t) :
  MS.hits s' = MS.hits s -> MS.objects s' = MS.objects s -> stamped s -> stamped s'.
Proof. unfold stamped. now intros -> ->. Qed.

Lemma stamped_store_altitude (tid : Z) (alt : option Z) (s : MS.t) :
  stamped s -> stamped (store_altitude tid alt s).
Proof.
  intros [Hh Ho]. destruct alt as [a |]; [| now split]. cbn [store_altitude].
  split.
  - assert (Hsame : MS.hits (MS.set_object_altitude tid a s) = MS.hits s)
      by apply set_object_altitude_registry.
    now rewrite Hsame.
  - intros k o ts Hlook Hts.
    apply set_object_altitude_lookup in Hlook as (o0 & H0 & [-> | ->]);
      now apply (Ho k o0 ts).
Qed.

Lemma stamped_add_kill (tid t : Z) (s : MS.t) :
  stamped s -> stamped (MS.add_kill tid (mission_time_to_hhmmss t) s).
Proof.
  intros [Hh Ho]. split.
  - assert (Hsame : MS.hits (MS.add_kill tid (mission_time_to_hhmmss t) s) = MS.hits s)
      by apply add_kill_registry.
    now rewrite Hsame.
  - intros k o ts Hlook Hts.
    apply add_kill_lookup in Hlook as (o0 & H0 & [-> | [_ ->]]);
      [now apply (Ho k o0 ts) |].
    cbn [GameObject.time_of_kill GameObject.destroy] in Hts.
    injection Hts as <-. now exists t.
Qed.

Lemma on_destroy_stamp (ln ts : string) (ps ps' : pstate) :
  on_destroy ln ts ps = Ok ps' ->
  stats ps' = stats ps \/
  exists tid alt, stats ps' = MS.add_kill tid ts (store_altitude tid alt (stats ps)).
Proof.
  unfold on_destroy, _resolve_indirect_kill. intros H.
  destruct (altitude_of (pos_match ln)) as [alt | e]; cbn [bind] in H; [| discriminate].
  destruct (is_excluded (stats ps) _); [ok_inv; now left |].
  destruct (is_player (stats ps) _); [ok_inv; right; now eexists _, _ |].
  destruct (_ =? -1); [| ok_inv; now left].
  destruct (share_ok _ _); [| cbn [bind] in H; ok_inv; now left].
  destruct (MS.objects (stats ps) !! _); [destruct (pos_match ln) |];
    cbn [bind] in H; ok_inv; right;
    first [now eexists _, alt | now eexists _, None].
Qed.

Lemma last_In {A : Type} (l : list A) (x : A) : last l = Some x -> In x l.
Proof.
  induction l as [| a l IH]; [discriminate |].
  destruct l as [| b l]; [intros [= <-]; now left |].
  intros H. right. now apply IH.
Qed.

Lemma process_line_stamped (ps ps' : pstate) (ln : string) :
  process_line ps ln = Ok ps' -> stamped (stats ps) -> stamped (stats ps').
Proof.
  intros H Hs.
  destruct (process_line_branch ps ps' ln H) as [Hd | [Hd | [Ht | [Hsep | [Hl | ->]]]]].
  - apply on_damage_spec in Hd as (dmg & alt & _ & _ & ->).
    destruct Hs as [Hh Ho]. split; [| exact Ho].
    intros h Hin. simpl in Hin. apply in_app_or in Hin as [Hin | [<- | []]];
      [now apply Hh | now eexists].
  - apply on_destroy_stamp in Hd as [-> | (tid & alt & ->)]; [exact Hs |].
    now apply stamped_add_kill, stamped_store_altitude.
  - apply on_takeoff_spec in Ht as [-> | (alt & _ & _ & ->)]; [exact Hs |].
    now apply (stamped_same (stats ps)).
  - rewrite Hsep.
    destruct (on_separation_spec ln (_i ln (Re.uint "T:")) (stats ps)) as [-> | ->];
      [exact Hs | now apply (stamped_same (stats ps))].
  - apply on_landing_spec in Hl as [-> | (alt & l & c & base & ty & _ & _ & _ & ->)];
      [exact Hs | now apply (stamped_same (stats ps))].
  - exact Hs.
Qed.

Lemma retro_step_stamped (s : MS.t) (entry : Z * (string * option Z)) :
  stamped s -> stamped (retro_step s entry).
Proof.
  intros Hs. destruct entry as [tid [kt alt]]. unfold retro_step.
  destruct (last (hits_on s tid)) as [h |] eqn:Hlast; [| exact Hs].
  destruct (share_ok _ _); [| exact Hs].
  destruct (not_yet_credited s tid); [| exact Hs].
  apply last_In in Hlast. unfold hits_on in Hlast. apply filter_In in Hlast as [Hin _].
  destruct (proj1 Hs h Hin) as (t & ->).
  now apply stamped_add_kill, stamped_store_altitude.
Qed.

Lemma parse_stamped (cfg : Config) (file : list string) (st : MS.t) :
  parse cfg file = Ok st -> stamped st.
Proof.
  intros H. pose proof H as Hfull.
  apply parse_after_loop in Hfull as (ps0 & _ & Hst).
  apply parse_inv in H as (ps & Hc & Hd).
  assert (H1 : stamped (stats ps)).
  { revert Hc. unfold collected.
    apply (foldM_invariant (fun p => stamped (stats p)) process_line).
    - intros s ln s' Hs Hstep. now apply (process_line_stamped s s' ln).
    - cbn [stats]. split.
      + destruct (registering_frame cfg (relevant_lines file) MS.init) as (_ & Hh & _).
        unfold registered. rewrite Hh. intros h [].
      + intros k o ts Hlook Hts.
        destruct (registered_fresh cfg (relevant_lines file)) as [_ Hall].
        destruct (Hall k o Hlook) as [_ Hnone]. congruence. }
  assert (H2 : stamped (reconciled ps)).
  { unfold reconciled. apply (fold_left_invariant stamped retro_step); [| exact H1].
    intros s x. apply retro_step_stamped. }
  pose proof (detect_bailout_frame (relevant_lines file) (reconciled ps)) as (_ & Ho & _).
  pose proof (detect_bailout_health (relevant_lines file) (reconciled ps)) as (Hh & _).
  pose proof (compute_flight_duration_frame _ _ Hd) as (_ & Ho' & _).
  pose proof (compute_flight_duration_health _ _ Hd) as (Hh' & _).
  apply (stamped_same (reconciled ps)); [| | exact H2]; congruence.
Qed.

(** X26.  Every event of the timeline a run writes carries a time text
    written by [mission_time_to_hhmmss], so its sort key is a number of
    whole seconds: the events of the run and the aggregated damage events
    have the time of their line, a kill event the time of the destroy line
    or of the hit it was credited with. *)
Theorem timeline_times_formatted (cfg : Config) (file : list string)
    (d : Json.data) (e : Event.t) :
  debrief cfg file = Ok d ->
  In e (Json.events d) ->
  exists t, Event.time e = mission_time_to_hhmmss t /\ _time_key e = t / 50.
Proof.
  unfold debrief. intros H Hin.
  destruct (parse cfg file) as [st | x] eqn:Hp; cbn [bind] in H; [| discriminate].
  apply to_json_members in H as (evs & fs & Ht & Hmem). apply Hmem in Hin.
  pose proof (parse_events_built cfg file st Hp) as Hbuilt.
  rewrite Stdlib.Lists.List.Forall_forall in Hbuilt.
  assert (Htime : exists t, Event.time e = mission_time_to_hhmmss t).
  { destruct (timeline_members cfg file st evs fs e Hp Ht Hin)
      as [[Hb _] | [Hk | (dbt & entry & b & Hagg & Hentry & Hb & Hr)]].
    - destruct Hb; now eexists.
    - apply kill_events_shape in Hk as (k & ts & Hk & Hts & _ & ->).
      unfold credited in Hk. apply filter_In in Hk as [Hk _].
      apply kill_objects_In in Hk as (tid & _ & Hlook).
      destruct (proj2 (parse_stamped cfg file st Hp) tid k ts Hlook Hts) as (t & ->).
      now exists t.
    - apply retyped_fields in Hr as (-> & _).
      assert (Hin' : In b (bucket_event entry)) by (rewrite Hb; now left).
      apply bucket_event_shape in Hin' as (_ & _ & -> & _).
      apply aggregate_loop_result in Hagg as (_ & Hopen & _).
      cbn [fst] in Hopen. rewrite Stdlib.Lists.List.Forall_forall in Hopen.
      destruct (Hopen entry Hentry)
        as (pre & x & post & Hx & Hdx & _ & _ & -> & _).
      assert (Hxin : In x (MS.events st ++ kill_events st))
        by (rewrite Hx; apply in_or_app; right; now left).
      apply in_app_or in Hxin as [Hxin | Hxin].
      + destruct (Hbuilt x Hxin); now eexists.
      + apply kill_events_shape in Hxin as (k & ts & _ & _ & _ & ->).
        discriminate Hdx. }
  destruct Htime as (t & Htime). exists t. split; [exact Htime |].
  now apply time_key_hhmmss.
Qed.

Lemma timeline_times_formatted_witness :
  map _time_key (Json.events (debriefed cfg_flak log_sortie)) = [20; 120; 140; 180] /\
  exists t, Event.time (Event.kill "00:02:00" "il2" "Air" (Some 20)) =
              mission_time_to_hhmmss t /\
            _time_key (Event.kill "00:02:00" "il2" "Air" (Some 20)) = t / 50.
Proof.
  split; [vm_compute; reflexivity |].
  apply (timeline_times_formatted cfg_flak log_sortie (debriefed cfg_flak log_sortie));
    [vm_compute; reflexivity |].
  vm_compute. right. left. reflexivity.
Defined.

(** ** The order of the timeline *)

(** X28.  The timeline [to_json] hands over holds the events it assembled,
    sorted by the time key: the keys ascend, the timeline is a permutation
    of the assembled events, events of equal key stand in the order in
    which they were assembled, and sorting the timeline again returns it
    unchanged. *)
Theorem timeline_sorted_stable (st : MS.t) (d : Json.data) :
  to_json st = Ok d ->
  Sorted time_le (Json.events d) /\
  sort_by _time_key (Json.events d) = Json.events d /\
  exists evs fs,
    timeline st = Ok (evs, fs) /\
    Permutation evs (Json.events d) /\
    forall k, with_key _time_key k (Json.events d) = with_key _time_key k evs.
Proof.
  intros Hd. apply to_json_events in Hd as (evs & fs & Ht & ->).
  split; [apply sort_by_sorted |].
  split; [apply sort_by_fixpoint, sort_by_sorted |].
  exists evs, fs. split; [exact Ht |].
  split; [apply sort_by_permutation | intros k; apply sort_by_with_key].
Qed.

(** The timeline of [log_sortie] reads takeoff, kill, damage taken,
    landing. *)
Lemma timeline_sorted_stable_witness :
  map Event.type (Json.events (debriefed cfg_flak log_sortie)) =
    ["Takeoff"; "Kill"; "Damage Taken"; "Landing"] /\
  Sorted time_le (Json.events (debriefed cfg_flak log_sortie)).
Proof.
  split; [vm_compute; reflexivity |].
  destruct (timeline_sorted_stable (parsed cfg_flak log_sortie)
              (debriefed cfg_flak log_sortie)) as [Hsorted _].
  - vm_compute. reflexivity.
  - exact Hsorted.
Defined.
